(** * Grok Chat: the persistence layer and the send flow, verified

    A shallow embedding of
      - [src/lib/localDb.ts]     (class [LocalDatabase], the IndexedDB wrapper),
      - [src/lib/supabase.ts]    ([getUserId], [isSupabaseConfigured]),
      - [src/hooks/useSettings.ts] (the settings reconciler),
      - [src/hooks/useMessages.ts] (the message store accessor),
      - [src/App.tsx]            ([sendMessage]),
      - [src/components/SettingsModal.tsx] (the handlers of the modal),
    followed by the properties the specification states about them, and
    by properties of the code that the specification does not state:
    what the deleting methods leave, invariants of every reachable state,
    which calls cannot reject, and how saving, loading and sending
    compose.

    The browser is modelled by a [World] (localStorage, the two IndexedDB
    object stores, the React state of the hooks, a log of the calls that
    reach a storage tier) and an [Env] that fixes everything the code
    cannot control: which requests fail, what the remote services answer,
    the values produced by [crypto.randomUUID()] and [Date.now()].
    An [async] function is a computation in the monad [M]: it threads the
    world and returns a value (the promise resolves), throws (the promise
    rejects), or stays pending (the promise never settles). *)

From Stdlib Require Import ZArith Lia.
From stdpp Require Import base option list sorting gmap fin_maps strings pretty.

Local Open Scope Z_scope.

(** ** Data model ([src/types.ts], [src/lib/localDb.ts]) *)

Inductive Role := user | assistant.

Global Instance Role_eq_dec : EqDecision Role.
Proof. solve_decision. Defined.

Record FileAttachment := {
  att_id : string;
  att_name : string;
  att_size : nat;
  att_type : string;
  att_content : string   (* base64 encoded content *)
}.

Record Message := {
  msg_role : Role;
  msg_content : string;
  msg_timestamp : Z;
  msg_attachments : option (list FileAttachment)
}.

Record Settings := {
  apiKey : string;
  baseUrl : string;
  model : string
}.

Global Instance Settings_eq_dec : EqDecision Settings.
Proof. solve_decision. Defined.

(** The argument of [LocalDatabase.saveSettings]. *)
Record DbSettingsInput := {
  in_api_key : string;
  in_base_url : string;
  in_model : string
}.

Record LocalSettings := {
  ls_id : string;
  ls_user_id : string;
  ls_api_key : string;
  ls_base_url : string;
  ls_model : string;
  ls_created_at : string;
  ls_updated_at : string
}.

Global Instance LocalSettings_eq_dec : EqDecision LocalSettings.
Proof. solve_decision. Defined.

(** [lm_attachments] is the text [JSON.stringify(message.attachments)],
    kept as the list it denotes. *)
Record LocalMessage := {
  lm_id : string;
  lm_user_id : string;
  lm_role : Role;
  lm_content : string;
  lm_timestamp : Z;
  lm_attachments : option (list FileAttachment);
  lm_created_at : string
}.

(** Row of the remote [user_settings] table. *)
Record RemoteRow := {
  rr_api_key : string;
  rr_base_url : string;
  rr_model : string
}.

(** ** Thrown values

    What a [throw] or a rejected promise carries. [JsError] stands for any
    instance of [Error] (a [DOMException] of IndexedDB included), with its
    [name] and [message]; [JsThrown] for a value that is not one. *)
Inductive exn :=
  | JsError (name message : string)
  | JsThrown.

(** ** The flat backup

    [localStorage] holds text. The text under ['grok-chat-settings'] is kept
    as what [JSON.parse] makes of it: an object with some of the three
    fields, or text that does not parse to an object. *)
Inductive FlatItem :=
  | FlatObject (fapiKey fbaseUrl fmodel : option string)
  | FlatGarbage.

(** ** HTTP responses of the completion endpoint *)

(** What [response.json()] yields. [BodyInvalid]: the promise rejects;
    [BodyNull]: the JSON literal [null]; [BodyObject]: any other value,
    seen through the fields the code reads (a value without them, such
    as a number, has them all [None]). *)
Inductive Body (A : Type) :=
  | BodyInvalid (e : exn)
  | BodyNull
  | BodyObject (o : A).
Arguments BodyInvalid {A} e.
Arguments BodyNull {A}.
Arguments BodyObject {A} o.

(** The value found where the contract of the endpoint promises text: a
    string (the empty string included), or a truthy value that is not a
    string (a number other than [0], [true], an array, an object), with
    the text [String(value)] it is shown as. *)
Inductive Content :=
  | ContentText (s : string)
  | ContentOther (shown : string).

(** Fields read from a response body. [err_error_message] is
    [errorData.error?.message], [err_message] is [errorData.message],
    [choice0_content] is [data.choices?.[0]?.message?.content].
    [None] is [undefined], or a falsy value that is not a string ([null],
    [0], [false]): [||] passes over both alike. The two error fields are
    only ever printed in a template literal, so each is kept as the text
    it prints as. The content of a reply is passed on as a value, and
    keeps its kind. *)
Record Payload := {
  err_error_message : option string;
  err_message : option string;
  choice0_content : option Content
}.

Record Response := {
  status : nat;
  statusText : string;
  body : Body Payload
}.

(** [response.ok] *)
Definition ok (r : Response) : bool :=
  (Nat.leb 200 (status r) && Nat.leb (status r) 299)%bool.

Record Request := {
  req_url : string;
  req_authorization : string;
  req_model : string;
  req_messages : list (Role * string)
}.

(** ** Environment *)

Inductive IdbRequest :=
  | ReqAdd | ReqPut | ReqGet | ReqCursor | ReqCount
  | ReqClearSettings | ReqClearMessages.

Global Instance IdbRequest_eq_dec : EqDecision IdbRequest.
Proof. solve_decision. Defined.

(** Answer of [supabase.from('user_settings').select(..).maybeSingle()]. *)
Inductive SelectReply :=
  | SelThrows (e : exn)
  | SelError
  | SelData (row : option RemoteRow).

(** Answer of [supabase.from('user_settings').upsert(..)]. *)
Inductive UpsertReply :=
  | UpThrows (e : exn)
  | UpError
  | UpDone.

Inductive FetchReply :=
  | FetchRejects (e : exn)
  | FetchResponse (r : Response).

Record Env := {
  (* typeof indexedDB !== 'undefined' *)
  idb_supported : bool;
  (* indexedDB.open fails with this error *)
  idb_open_error : option exn;
  (* a request of this kind fires onerror with this error *)
  idb_request_error : IdbRequest -> option exn;
  (* localStorage.setItem throws this *)
  storage_set_error : option exn;
  (* VITE_SUPABASE_URL && VITE_SUPABASE_ANON_KEY: the client exists *)
  isSupabaseConfigured : bool;
  remote_select : string -> SelectReply;
  remote_upsert : string -> RemoteRow -> UpsertReply;
  fetch : Request -> FetchReply;
  (* the n-th value of crypto.randomUUID() *)
  randomUUID : nat -> string;
  (* the n-th reading of the clock, in milliseconds *)
  clock : nat -> Z;
  (* Date.prototype.toISOString *)
  toISOString : Z -> string;
  (* the message of the TypeError for reading this property of null *)
  null_read_message : string -> string;
  (* atob; None when it throws *)
  atob : string -> option string
}.

(** ** World *)

(** Calls that reach a persistence tier or the React state, in the order
    they are made. *)
Inductive Event :=
  | EvStorageSet (key : string)
  | EvDbSaveSettings (userId : string) (s : DbSettingsInput)
  | EvDbSaveMessage (userId : string) (ts : Z)
  | EvSetSettings (s : Settings)
  | EvSetMessages (ms : list Message)
  | EvSetError (e : option string)
  | EvRemoteSelect (userId : string)
  | EvRemoteUpsert (userId : string) (r : RemoteRow)
  | EvFetch (r : Request).

Record World := {
  (* localStorage *)
  storage_user_id : option string;          (* 'grok-user-id' *)
  storage_settings : option FlatItem;       (* 'grok-chat-settings' *)
  (* IndexedDB 'GrokChatDB': object stores keyed by keyPath 'id' *)
  db_settings : gmap string LocalSettings;
  db_messages : gmap string LocalMessage;
  (* useSettings *)
  ui_settings : Settings;
  ui_settings_loading : bool;
  (* useMessages *)
  ui_messages : list Message;
  (* App *)
  ui_isLoading : bool;
  ui_error : option string;
  ui_isSettingsOpen : bool;
  (* oracles consumed so far *)
  uuid_count : nat;
  clock_count : nat;
  (* console.error calls, first argument only *)
  console_errors : list string;
  trace : list Event
}.

(** ** The monad of asynchronous computations *)

(** How an awaited promise ends: it resolves, it rejects, or neither
    [resolve] nor [reject] is ever called and whoever awaits it waits for
    ever. *)
Inductive result (A : Type) :=
  | Ok (a : A)
  | Throw (e : exn)
  | Never.
Arguments Ok {A} a.
Arguments Throw {A} e.
Arguments Never {A}.

Definition M (A : Type) : Type := World -> result A * World.

Definition ret {A} (a : A) : M A := fun w => (Ok a, w).

Definition bind {A B} (m : M A) (f : A -> M B) : M B :=
  fun w => match m w with
           | (Ok a, w') => f a w'
           | (Throw e, w') => (Throw e, w')
           | (Never, w') => (Never, w')
           end.

Definition throw {A} (e : exn) : M A := fun w => (Throw e, w).

(** An [await] of a promise that never settles: nothing after it runs. *)
Definition never {A} : M A := fun w => (Never, w).

(** [try { m } catch (e) { h e }] *)
Definition try_catch {A} (m : M A) (h : exn -> M A) : M A :=
  fun w => match m w with
           | (Ok a, w') => (Ok a, w')
           | (Throw e, w') => h e w'
           | (Never, w') => (Never, w')
           end.

(** [try { m } finally { f }]: the [finally] block runs when the [try]
    block is left, which a block that waits for ever is not. *)
Definition finally {A} (m : M A) (f : M unit) : M A :=
  fun w => match m w with
           | (Never, w') => (Never, w')
           | (r, w') => match f w' with
                        | (Ok _, w'') => (r, w'')
                        | (Throw e, w'') => (Throw e, w'')
                        | (Never, w'') => (Never, w'')
                        end
           end.

Definition get_world : M World := fun w => (Ok w, w).
Definition modify (f : World -> World) : M unit := fun w => (Ok tt, f w).

Declare Scope js_scope.
Delimit Scope js_scope with js.
Notation "x <- m ;; k" := (bind m (fun x => k))
  (at level 100, m at next level, right associativity) : js_scope.
Notation "m ;;; k" := (bind m (fun _ => k))
  (at level 100, right associativity) : js_scope.
Local Open Scope js_scope.

(** World updates, one per field that the code writes. *)
Definition set_storage_user_id v w :=
  {| storage_user_id := v; storage_settings := storage_settings w;
     db_settings := db_settings w; db_messages := db_messages w;
     ui_settings := ui_settings w; ui_settings_loading := ui_settings_loading w;
     ui_messages := ui_messages w; ui_isLoading := ui_isLoading w;
     ui_error := ui_error w; ui_isSettingsOpen := ui_isSettingsOpen w;
     uuid_count := uuid_count w; clock_count := clock_count w;
     console_errors := console_errors w; trace := trace w |}.
Definition set_storage_settings v w :=
  {| storage_user_id := storage_user_id w; storage_settings := v;
     db_settings := db_settings w; db_messages := db_messages w;
     ui_settings := ui_settings w; ui_settings_loading := ui_settings_loading w;
     ui_messages := ui_messages w; ui_isLoading := ui_isLoading w;
     ui_error := ui_error w; ui_isSettingsOpen := ui_isSettingsOpen w;
     uuid_count := uuid_count w; clock_count := clock_count w;
     console_errors := console_errors w; trace := trace w |}.
Definition set_db_settings v w :=
  {| storage_user_id := storage_user_id w; storage_settings := storage_settings w;
     db_settings := v; db_messages := db_messages w;
     ui_settings := ui_settings w; ui_settings_loading := ui_settings_loading w;
     ui_messages := ui_messages w; ui_isLoading := ui_isLoading w;
     ui_error := ui_error w; ui_isSettingsOpen := ui_isSettingsOpen w;
     uuid_count := uuid_count w; clock_count := clock_count w;
     console_errors := console_errors w; trace := trace w |}.
Definition set_db_messages v w :=
  {| storage_user_id := storage_user_id w; storage_settings := storage_settings w;
     db_settings := db_settings w; db_messages := v;
     ui_settings := ui_settings w; ui_settings_loading := ui_settings_loading w;
     ui_messages := ui_messages w; ui_isLoading := ui_isLoading w;
     ui_error := ui_error w; ui_isSettingsOpen := ui_isSettingsOpen w;
     uuid_count := uuid_count w; clock_count := clock_count w;
     console_errors := console_errors w; trace := trace w |}.
Definition set_ui_settings v w :=
  {| storage_user_id := storage_user_id w; storage_settings := storage_settings w;
     db_settings := db_settings w; db_messages := db_messages w;
     ui_settings := v; ui_settings_loading := ui_settings_loading w;
     ui_messages := ui_messages w; ui_isLoading := ui_isLoading w;
     ui_error := ui_error w; ui_isSettingsOpen := ui_isSettingsOpen w;
     uuid_count := uuid_count w; clock_count := clock_count w;
     console_errors := console_errors w; trace := trace w |}.
Definition set_ui_settings_loading v w :=
  {| storage_user_id := storage_user_id w; storage_settings := storage_settings w;
     db_settings := db_settings w; db_messages := db_messages w;
     ui_settings := ui_settings w; ui_settings_loading := v;
     ui_messages := ui_messages w; ui_isLoading := ui_isLoading w;
     ui_error := ui_error w; ui_isSettingsOpen := ui_isSettingsOpen w;
     uuid_count := uuid_count w; clock_count := clock_count w;
     console_errors := console_errors w; trace := trace w |}.
Definition set_ui_messages v w :=
  {| storage_user_id := storage_user_id w; storage_settings := storage_settings w;
     db_settings := db_settings w; db_messages := db_messages w;
     ui_settings := ui_settings w; ui_settings_loading := ui_settings_loading w;
     ui_messages := v; ui_isLoading := ui_isLoading w;
     ui_error := ui_error w; ui_isSettingsOpen := ui_isSettingsOpen w;
     uuid_count := uuid_count w; clock_count := clock_count w;
     console_errors := console_errors w; trace := trace w |}.
Definition set_ui_isLoading v w :=
  {| storage_user_id := storage_user_id w; storage_settings := storage_settings w;
     db_settings := db_settings w; db_messages := db_messages w;
     ui_settings := ui_settings w; ui_settings_loading := ui_settings_loading w;
     ui_messages := ui_messages w; ui_isLoading := v;
     ui_error := ui_error w; ui_isSettingsOpen := ui_isSettingsOpen w;
     uuid_count := uuid_count w; clock_count := clock_count w;
     console_errors := console_errors w; trace := trace w |}.
Definition set_ui_error v w :=
  {| storage_user_id := storage_user_id w; storage_settings := storage_settings w;
     db_settings := db_settings w; db_messages := db_messages w;
     ui_settings := ui_settings w; ui_settings_loading := ui_settings_loading w;
     ui_messages := ui_messages w; ui_isLoading := ui_isLoading w;
     ui_error := v; ui_isSettingsOpen := ui_isSettingsOpen w;
     uuid_count := uuid_count w; clock_count := clock_count w;
     console_errors := console_errors w; trace := trace w |}.
Definition set_ui_isSettingsOpen v w :=
  {| storage_user_id := storage_user_id w; storage_settings := storage_settings w;
     db_settings := db_settings w; db_messages := db_messages w;
     ui_settings := ui_settings w; ui_settings_loading := ui_settings_loading w;
     ui_messages := ui_messages w; ui_isLoading := ui_isLoading w;
     ui_error := ui_error w; ui_isSettingsOpen := v;
     uuid_count := uuid_count w; clock_count := clock_count w;
     console_errors := console_errors w; trace := trace w |}.
Definition set_uuid_count v w :=
  {| storage_user_id := storage_user_id w; storage_settings := storage_settings w;
     db_settings := db_settings w; db_messages := db_messages w;
     ui_settings := ui_settings w; ui_settings_loading := ui_settings_loading w;
     ui_messages := ui_messages w; ui_isLoading := ui_isLoading w;
     ui_error := ui_error w; ui_isSettingsOpen := ui_isSettingsOpen w;
     uuid_count := v; clock_count := clock_count w;
     console_errors := console_errors w; trace := trace w |}.
Definition set_clock_count v w :=
  {| storage_user_id := storage_user_id w; storage_settings := storage_settings w;
     db_settings := db_settings w; db_messages := db_messages w;
     ui_settings := ui_settings w; ui_settings_loading := ui_settings_loading w;
     ui_messages := ui_messages w; ui_isLoading := ui_isLoading w;
     ui_error := ui_error w; ui_isSettingsOpen := ui_isSettingsOpen w;
     uuid_count := uuid_count w; clock_count := v;
     console_errors := console_errors w; trace := trace w |}.
Definition set_console_errors v w :=
  {| storage_user_id := storage_user_id w; storage_settings := storage_settings w;
     db_settings := db_settings w; db_messages := db_messages w;
     ui_settings := ui_settings w; ui_settings_loading := ui_settings_loading w;
     ui_messages := ui_messages w; ui_isLoading := ui_isLoading w;
     ui_error := ui_error w; ui_isSettingsOpen := ui_isSettingsOpen w;
     uuid_count := uuid_count w; clock_count := clock_count w;
     console_errors := v; trace := trace w |}.
Definition set_trace v w :=
  {| storage_user_id := storage_user_id w; storage_settings := storage_settings w;
     db_settings := db_settings w; db_messages := db_messages w;
     ui_settings := ui_settings w; ui_settings_loading := ui_settings_loading w;
     ui_messages := ui_messages w; ui_isLoading := ui_isLoading w;
     ui_error := ui_error w; ui_isSettingsOpen := ui_isSettingsOpen w;
     uuid_count := uuid_count w; clock_count := clock_count w;
     console_errors := console_errors w; trace := v |}.

Definition emit (e : Event) : M unit :=
  modify (fun w => set_trace (trace w ++ [e]) w).

Definition console_error (label : string) : M unit :=
  modify (fun w => set_console_errors (console_errors w ++ [label]) w).

(** ** The page

    What the components add to the world: the [isLoading] flag of
    [useMessages], the dialogs [window.alert] has shown and the calls of
    [window.location.reload()]. Code that touches these runs in [P], the
    same monad over a [Page]. *)
Record Page := {
  page_world : World;
  messages_isLoading : bool;
  alerts : list string;
  reloads : nat
}.

Definition set_page_world v p :=
  {| page_world := v; messages_isLoading := messages_isLoading p;
     alerts := alerts p; reloads := reloads p |}.
Definition set_messages_isLoading v p :=
  {| page_world := page_world p; messages_isLoading := v;
     alerts := alerts p; reloads := reloads p |}.
Definition set_alerts v p :=
  {| page_world := page_world p; messages_isLoading := messages_isLoading p;
     alerts := v; reloads := reloads p |}.
Definition set_reloads v p :=
  {| page_world := page_world p; messages_isLoading := messages_isLoading p;
     alerts := alerts p; reloads := v |}.

Definition P (A : Type) : Type := Page -> result A * Page.

Definition retP {A} (a : A) : P A := fun p => (Ok a, p).

Definition bindP {A B} (m : P A) (f : A -> P B) : P B :=
  fun p => match m p with
           | (Ok a, p') => f a p'
           | (Throw e, p') => (Throw e, p')
           | (Never, p') => (Never, p')
           end.

Definition try_catchP {A} (m : P A) (h : exn -> P A) : P A :=
  fun p => match m p with
           | (Ok a, p') => (Ok a, p')
           | (Throw e, p') => h e p'
           | (Never, p') => (Never, p')
           end.

Definition finallyP {A} (m : P A) (f : P unit) : P A :=
  fun p => match m p with
           | (Never, p') => (Never, p')
           | (r, p') => match f p' with
                        | (Ok _, p'') => (r, p'')
                        | (Throw e, p'') => (Throw e, p'')
                        | (Never, p'') => (Never, p'')
                        end
           end.

(** A computation on the world, run on the world of the page. *)
Definition lift {A} (m : M A) : P A :=
  fun p => match m (page_world p) with
           | (r, w') => (r, set_page_world w' p)
           end.

Declare Scope page_scope.
Delimit Scope page_scope with page.
Notation "x <- m ;; k" := (bindP m (fun x => k))
  (at level 100, m at next level, right associativity) : page_scope.
Notation "m ;;; k" := (bindP m (fun _ => k))
  (at level 100, right associativity) : page_scope.

(** [alert(text)] and [window.location.reload()] *)
Definition alert (text : string) : P unit :=
  fun p => (Ok tt, set_alerts (alerts p ++ [text]) p).

Definition window_location_reload : P unit :=
  fun p => (Ok tt, set_reloads (S (reloads p)) p).

(** ** Platform primitives *)

Section Platform.
Variable E : Env.

Definition crypto_randomUUID : M string :=
  fun w => (Ok (randomUUID E (uuid_count w)), set_uuid_count (S (uuid_count w)) w).

Definition Date_now : M Z :=
  fun w => (Ok (clock E (clock_count w)), set_clock_count (S (clock_count w)) w).

(** [new Date().toISOString()] *)
Definition new_Date_toISOString : M string :=
  t <- Date_now ;; ret (toISOString E t).

(** [localStorage.setItem(key, _)]: [store] is the write itself. *)
Definition localStorage_setItem (key : string) (store : World -> World) : M unit :=
  emit (EvStorageSet key) ;;;
  match storage_set_error E with
  | Some e => throw e
  | None => modify store
  end.

(** [getUserId] of [src/lib/supabase.ts]. [!userId] holds for [null] and
    for the empty string. *)
Definition getUserId : M string :=
  w <- get_world ;;
  match storage_user_id w with
  | Some (String c u) => ret (String c u)
  | _ =>
      userId <- crypto_randomUUID ;;
      localStorage_setItem "grok-user-id" (set_storage_user_id (Some userId)) ;;;
      ret userId
  end.
End Platform.

(** [localStorage.removeItem(key)]; the application uses two keys. *)
Definition localStorage_removeItem (key : string) : M unit :=
  if decide (key = "grok-chat-settings") then modify (set_storage_settings None)
  else if decide (key = "grok-user-id") then modify (set_storage_user_id None)
  else ret tt.

(** ** [class LocalDatabase] ([src/lib/localDb.ts]) *)

(** Order of string keys. IndexedDB compares strings by code unit; on the
    ASCII text of a UUID this is the lexicographic order [String.le]. *)
Definition str_le (a b : string) : Prop := String.le a b.
Definition str_lt (a b : string) : Prop := str_le a b /\ a <> b.

(** Keys of the compound index ['user_timestamp'], the arrays
    [[user_id, timestamp]], compared element by element. *)
Definition key_le (k1 k2 : string * Z) : Prop :=
  str_lt k1.1 k2.1 \/ (k1.1 = k2.1 /\ k1.2 <= k2.2).

(** [IDBKeyRange.bound(lower, upper)] *)
Definition in_bound (lower upper k : string * Z) : Prop :=
  key_le lower k /\ key_le k upper.

Definition user_timestamp (r : LocalMessage) : string * Z :=
  (lm_user_id r, lm_timestamp r).

(** Order in which a cursor on ['user_timestamp'] visits the records: by
    index key, then by primary key. *)
Definition cursor_le (a b : LocalMessage) : Prop :=
  str_lt (lm_user_id a) (lm_user_id b) \/
  (lm_user_id a = lm_user_id b /\
   (lm_timestamp a < lm_timestamp b \/
    (lm_timestamp a = lm_timestamp b /\ str_le (lm_id a) (lm_id b)))).

Global Instance str_le_dec a b : Decision (str_le a b).
Proof. unfold str_le. apply _. Defined.
Global Instance str_lt_dec a b : Decision (str_lt a b).
Proof. unfold str_lt. apply _. Defined.
Global Instance key_le_dec k1 k2 : Decision (key_le k1 k2).
Proof. unfold key_le. solve_decision. Defined.
Global Instance in_bound_dec l u k : Decision (in_bound l u k).
Proof. unfold in_bound. solve_decision. Defined.
Global Instance cursor_le_dec a b : Decision (cursor_le a b).
Proof. unfold cursor_le. solve_decision. Defined.

(** Records of an object store. *)
Definition rows {A} (m : gmap string A) : list A := (map_to_list m).*2.

(** Records that the unique index ['user_id'] of the settings store lists
    under [userId]. *)
Definition settings_of_user (userId : string) (m : gmap string LocalSettings)
  : list LocalSettings :=
  filter (fun r => ls_user_id r = userId) (rows m).

(** [store.index('user_id').get(userId)] on the settings store: the index
    is unique, so no order among several matches is observable. *)
Definition index_get (userId : string) (m : gmap string LocalSettings)
  : option LocalSettings :=
  head (settings_of_user userId m).

(** Records that the index ['user_id'] of the messages store lists under
    [userId]. *)
Definition messages_of_user (userId : string) (m : gmap string LocalMessage)
  : list LocalMessage :=
  filter (fun r => lm_user_id r = userId) (rows m).

(** The same records with the primary key each is filed under: what a
    cursor on that index over [IDBKeyRange.only(userId)] visits. The
    order of the visits is not observable by a cursor that deletes. *)
Definition entries_of_user (userId : string) (m : gmap string LocalMessage)
  : list (string * LocalMessage) :=
  filter (fun entry => lm_user_id entry.2 = userId) (map_to_list m).

(** [index.openCursor(IDBKeyRange.bound([userId, 0], [userId, now]), 'next')]:
    the records a cursor on ['user_timestamp'] delivers, in order. *)
Definition open_cursor (userId : string) (now : Z) (m : gmap string LocalMessage)
  : list LocalMessage :=
  merge_sort cursor_le
    (filter (fun r => in_bound (userId, 0) (userId, now) (user_timestamp r)) (rows m)).

(** The [onsuccess] handler of [loadMessages], run over the records the
    cursor delivers. [!limit] holds when no limit is passed and when it
    is [0]. *)
Fixpoint cursor_loop (limit : option Z) (messages : list LocalMessage)
    (cursor : list LocalMessage) : list LocalMessage :=
  match cursor with
  | [] => messages
  | value :: rest =>
      let messages := messages ++ [value] in
      if match limit with
         | None => true
         | Some n => (n =? 0) || (Z.of_nat (length messages) <? n)
         end
      then cursor_loop limit messages rest
      else messages
  end.

(** The promise of [clearAllData] and its two requests. *)
Inductive ClearRequest := SettingsRequest | MessagesRequest.

Global Instance ClearRequest_eq_dec : EqDecision ClearRequest.
Proof. solve_decision. Defined.

Inductive ClearEvent :=
  | onsuccess (r : ClearRequest)
  | onerror (r : ClearRequest) (e : exn).

Definition event_request (ev : ClearEvent) : ClearRequest :=
  match ev with onsuccess r => r | onerror r _ => r end.

Inductive Promise :=
  | Pending
  | Resolved
  | Rejected (e : exn).

(** [resolve()] and [reject(e)] act on a pending promise only. *)
Definition settle (p outcome : Promise) : Promise :=
  match p with Pending => outcome | _ => p end.

Record ClearState := {
  completed : nat;
  promise : Promise
}.

Definition total : nat := 2.

Definition checkComplete (st : ClearState) : ClearState :=
  let completed := S (completed st) in
  {| completed := completed;
     promise := if Nat.eqb completed total
                then settle (promise st) Resolved
                else promise st |}.

Definition handle (st : ClearState) (ev : ClearEvent) : ClearState :=
  match ev with
  | onsuccess _ => checkComplete st
  | onerror _ e => {| completed := completed st;
                      promise := settle (promise st) (Rejected e) |}
  end.

Definition clear_start : ClearState := {| completed := 0; promise := Pending |}.

Definition run_handlers (evs : list ClearEvent) : ClearState :=
  foldl handle clear_start evs.

(** Effect of the single read-write transaction of [clearAllData] on the
    two stores: a request that succeeds empties its store; a request
    that fails aborts the transaction, which undoes what it did. *)
Definition is_failure (ev : ClearEvent) : bool :=
  match ev with onerror _ _ => true | onsuccess _ => false end.

Definition cleared (r : ClearRequest) (evs : list ClearEvent) : bool :=
  existsb (fun ev => match ev with
                     | onsuccess r' => bool_decide (r' = r)
                     | onerror _ _ => false
                     end) evs.

Definition transaction_effect (evs : list ClearEvent) (w : World) : World :=
  if existsb is_failure evs then w
  else
    let w := if cleared SettingsRequest evs then set_db_settings ∅ w else w in
    if cleared MessagesRequest evs then set_db_messages ∅ w else w.

Module LocalDatabase.
Section WithEnv.
Variable E : Env.

Definition isSupported : bool := idb_supported E.

(** [openDB]: the stores and indexes exist once the database opens.
    Without IndexedDB the name [indexedDB] is unbound. *)
Definition openDB : M unit :=
  if negb (idb_supported E)
  then throw (JsError "ReferenceError" "indexedDB is not defined")
  else match idb_open_error E with
       | Some e => console_error "Failed to open IndexedDB:" ;;; throw e
       | None => ret tt
       end.

(** An IndexedDB request: it fires [onerror], whose handler logs [label]
    and rejects, or [onsuccess], whose handler is [k]. *)
Definition request {A} (kind : IdbRequest) (label : string) (k : M A) : M A :=
  match idb_request_error E kind with
  | Some e => console_error label ;;; throw e
  | None => k
  end.

(** [store.add(messageData)]: the key must be new. *)
Definition store_add (messageData : LocalMessage) : M unit :=
  request ReqAdd "Failed to save message to IndexedDB:"
    (w <- get_world ;;
     match db_messages w !! lm_id messageData with
     | Some _ =>
         console_error "Failed to save message to IndexedDB:" ;;;
         throw (JsError "ConstraintError" "Key already exists in the object store.")
     | None =>
         modify (set_db_messages (<[lm_id messageData := messageData]> (db_messages w)))
     end).

(** [store.put(settingsData)]: replaces the record with the same key;
    the unique index refuses a second record with the same [user_id]. *)
Definition store_put (settingsData : LocalSettings) : M unit :=
  request ReqPut "Failed to save settings to IndexedDB:"
    (w <- get_world ;;
     match index_get (ls_user_id settingsData)
                     (delete (ls_id settingsData) (db_settings w)) with
     | Some _ =>
         console_error "Failed to save settings to IndexedDB:" ;;;
         throw (JsError "ConstraintError"
                  "Unable to add key to index 'user_id': at least one key does not satisfy the uniqueness requirements.")
     | None =>
         modify (set_db_settings (<[ls_id settingsData := settingsData]> (db_settings w)))
     end).

(** The body of each method is [try { await openDB(); ...; return new
    Promise(..) } catch (error) { console.error(..); throw error }]:
    the [catch] sees a failure of [openDB]; a request that fails rejects
    the returned promise after the [try] block is left. *)

Definition saveMessage (userId : string) (message : Message) : M unit :=
  emit (EvDbSaveMessage userId (msg_timestamp message)) ;;;
  messageData <-
    try_catch
      (openDB ;;;
       id <- crypto_randomUUID E ;;
       created_at <- new_Date_toISOString E ;;
       ret {| lm_id := id;
              lm_user_id := userId;
              lm_role := msg_role message;
              lm_content := msg_content message;
              lm_timestamp := msg_timestamp message;
              lm_attachments := msg_attachments message;
              lm_created_at := created_at |})
      (fun error => console_error "Error saving message to IndexedDB:" ;;; throw error) ;;
  store_add messageData.

(** [saveMessage] handed a message whose [content] is not a string, which
    nothing checks at run time; [message] carries that content as the
    text [String(content)]. [store.add] takes the record, and its
    [onsuccess] handler throws a [TypeError] at
    [message.content.substring] before it reaches [resolve()]. An
    exception in a handler aborts the transaction, which undoes the
    [add]; [reject] is not called either, and the promise stays
    pending. *)
Definition saveMessage_untyped (userId : string) (message : Message) : M unit :=
  emit (EvDbSaveMessage userId (msg_timestamp message)) ;;;
  messageData <-
    try_catch
      (openDB ;;;
       id <- crypto_randomUUID E ;;
       created_at <- new_Date_toISOString E ;;
       ret {| lm_id := id;
              lm_user_id := userId;
              lm_role := msg_role message;
              lm_content := msg_content message;
              lm_timestamp := msg_timestamp message;
              lm_attachments := msg_attachments message;
              lm_created_at := created_at |})
      (fun error => console_error "Error saving message to IndexedDB:" ;;; throw error) ;;
  request ReqAdd "Failed to save message to IndexedDB:"
    (w <- get_world ;;
     match db_messages w !! lm_id messageData with
     | Some _ =>
         console_error "Failed to save message to IndexedDB:" ;;;
         throw (JsError "ConstraintError" "Key already exists in the object store.")
     | None => never
     end).

Definition loadMessages (userId : string) (limit : option Z) : M (list LocalMessage) :=
  try_catch openDB
    (fun error => console_error "Error loading messages from IndexedDB:" ;;; throw error) ;;;
  now <- Date_now E ;;
  request ReqCursor "Failed to load messages from IndexedDB:"
    (w <- get_world ;;
     ret (cursor_loop limit [] (open_cursor userId now (db_messages w)))).

Definition getMessageCount (userId : string) : M nat :=
  try_catch openDB
    (fun error => console_error "Error counting messages in IndexedDB:" ;;; throw error) ;;;
  request ReqCount "Failed to count messages in IndexedDB:"
    (w <- get_world ;;
     ret (length (messages_of_user userId (db_messages w)))).

(** [if (existing) { settingsData.id = existing.id; settingsData.created_at
    = existing.created_at; settingsData.updated_at = now }] *)
Definition update_existing (existing : option LocalSettings)
    (settingsData : LocalSettings) : LocalSettings :=
  match existing with
  | Some existing =>
      {| ls_id := ls_id existing;
         ls_user_id := ls_user_id settingsData;
         ls_api_key := ls_api_key settingsData;
         ls_base_url := ls_base_url settingsData;
         ls_model := ls_model settingsData;
         ls_created_at := ls_created_at existing;
         ls_updated_at := ls_updated_at settingsData |}
  | None => settingsData
  end.

Definition saveSettings (userId : string) (settings : DbSettingsInput) : M unit :=
  emit (EvDbSaveSettings userId settings) ;;;
  settingsData <-
    try_catch
      (openDB ;;;
       now <- new_Date_toISOString E ;;
       id <- crypto_randomUUID E ;;
       ret {| ls_id := id;
              ls_user_id := userId;
              ls_api_key := in_api_key settings;
              ls_base_url := in_base_url settings;
              ls_model := in_model settings;
              ls_created_at := now;
              ls_updated_at := now |})
      (fun error => console_error "Error saving settings to IndexedDB:" ;;; throw error) ;;
  (* Check if settings already exist for this user *)
  request ReqGet "Failed to check existing settings:"
    (w <- get_world ;;
     let existing := index_get userId (db_settings w) in
     store_put (update_existing existing settingsData)).

Definition loadSettings (userId : string) : M (option LocalSettings) :=
  try_catch openDB
    (fun error => console_error "Error loading settings from IndexedDB:" ;;; throw error) ;;;
  request ReqGet "Failed to load settings from IndexedDB:"
    (w <- get_world ;;
     ret (index_get userId (db_settings w))).

(** The events the two [clear()] requests of [clearAllData] fire, in the
  order the requests were placed. When the first request fails the
  transaction aborts, and the second fires [onerror] with an
  [AbortError]. *)
Definition clear_events : list ClearEvent :=
  match idb_request_error E ReqClearSettings with
  | Some e =>
      [ onerror SettingsRequest e;
        onerror MessagesRequest
          (JsError "AbortError" "The transaction was aborted.") ]
  | None =>
      [ onsuccess SettingsRequest;
        match idb_request_error E ReqClearMessages with
        | Some e => onerror MessagesRequest e
        | None => onsuccess MessagesRequest
        end ]
  end.

Definition clear_log (ev : ClearEvent) : M unit :=
  match ev with
  | onerror SettingsRequest _ => console_error "Failed to clear settings from IndexedDB:"
  | onerror MessagesRequest _ => console_error "Failed to clear messages from IndexedDB:"
  | onsuccess _ => ret tt
  end.

(** [clearAllData]. The last case of the [match] is never taken: each of
    the two requests fires one event, which settles the promise (see
    [clear_events_settle]). *)
Definition clearAllData : M unit :=
  try_catch openDB
    (fun error => console_error "Error clearing IndexedDB:" ;;; throw error) ;;;
  modify (transaction_effect clear_events) ;;;
  foldr (fun ev k => clear_log ev ;;; k) (ret tt) clear_events ;;;
  match promise (run_handlers clear_events) with
  | Resolved => ret tt
  | Rejected e => throw e
  | Pending => throw JsThrown
  end.
End WithEnv.

(** The two methods that delete records. [delete_error] is the error a
    delete request ([cursor.delete()], [store.delete(key)]) fails with,
    if it fails. *)
Section Deletion.
Variable E : Env.
Variable delete_error : option exn.

(** [deleteMessages]: the cursor on the index ['user_id'] visits the
    records of [userId], and each visit deletes the record under the
    cursor. The requests of [cursor.delete()] have no handler of their
    own: one that fails aborts the transaction, which undoes the
    deletions and fires [onerror] on the cursor request with an
    [AbortError]. *)
Definition deleteMessages (userId : string) : M unit :=
  try_catch (openDB E)
    (fun error => console_error "Error deleting messages from IndexedDB:" ;;; throw error) ;;;
  request E ReqCursor "Failed to delete messages from IndexedDB:"
    (w <- get_world ;;
     let cursor := entries_of_user userId (db_messages w) in
     match cursor, delete_error with
     | _ :: _, Some _ =>
         console_error "Failed to delete messages from IndexedDB:" ;;;
         throw (JsError "AbortError" "The transaction was aborted.")
     | _, _ =>
         modify (set_db_messages
                   (foldr (fun entry m => delete entry.1 m) (db_messages w) cursor))
     end).

(** [deleteSettings]: [index.get(userId)], then [store.delete(result.id)]
    when there is a result. *)
Definition deleteSettings (userId : string) : M unit :=
  try_catch (openDB E)
    (fun error => console_error "Error deleting settings from IndexedDB:" ;;; throw error) ;;;
  request E ReqGet "Failed to find settings to delete:"
    (w <- get_world ;;
     match index_get userId (db_settings w) with
     | Some result =>
         match delete_error with
         | Some e =>
             console_error "Failed to delete settings from IndexedDB:" ;;;
             throw e
         | None =>
             modify (set_db_settings (delete (ls_id result) (db_settings w)))
         end
     | None => ret tt   (* Nothing to delete *)
     end).
End Deletion.
End LocalDatabase.

(** ** [useSettings] (the settings reconciler) *)

Module useSettings.
Section WithEnv.
Variable E : Env.

Definition DEFAULT_SETTINGS : Settings :=
  {| apiKey := ""; baseUrl := "https://api.x.ai"; model := "auto" |}.

Definition LOCAL_STORAGE_KEY : string := "grok-chat-settings".

(** React's [setSettings] and [setIsLoading]. *)
Definition setSettings (s : Settings) : M unit :=
  emit (EvSetSettings s) ;;; modify (set_ui_settings s).

Definition setIsLoading (b : bool) : M unit :=
  modify (set_ui_settings_loading b).

(** [loadLocalSettings]: [{ ...DEFAULT_SETTINGS, ...parsed }]. An absent
    or empty item gives the defaults; so does text that [JSON.parse]
    rejects, or that parses to [null], after the [catch] has logged. *)
Definition loadLocalSettings : M Settings :=
  w <- get_world ;;
  match storage_settings w with
  | Some (FlatObject a b m) =>
      ret {| apiKey := default (apiKey DEFAULT_SETTINGS) a;
             baseUrl := default (baseUrl DEFAULT_SETTINGS) b;
             model := default (model DEFAULT_SETTINGS) m |}
  | Some FlatGarbage =>
      console_error "Failed to load settings from localStorage:" ;;;
      ret DEFAULT_SETTINGS
  | None => ret DEFAULT_SETTINGS
  end.

(** [saveLocalSettings]: [JSON.stringify(settings)] under the key. *)
Definition saveLocalSettings (settings : Settings) : M unit :=
  try_catch
    (localStorage_setItem E LOCAL_STORAGE_KEY
       (set_storage_settings
          (Some (FlatObject (Some (apiKey settings))
                            (Some (baseUrl settings))
                            (Some (model settings))))))
    (fun err => console_error "Failed to save settings to localStorage:").

Definition saveLocalDbSettings (userId : string) (settings : Settings) : M unit :=
  if negb (LocalDatabase.isSupported E) then ret tt
  else
    try_catch
      (LocalDatabase.saveSettings E userId
         {| in_api_key := apiKey settings;
            in_base_url := baseUrl settings;
            in_model := model settings |})
      (fun err => console_error "Failed to save settings to IndexedDB:").

Definition loadLocalDbSettings (userId : string) : M (option Settings) :=
  if negb (LocalDatabase.isSupported E) then ret None
  else
    try_catch
      (data <- LocalDatabase.loadSettings E userId ;;
       match data with
       | Some data => ret (Some {| apiKey := ls_api_key data;
                                   baseUrl := ls_base_url data;
                                   model := ls_model data |})
       | None => ret None
       end)
      (fun err => console_error "Failed to load settings from IndexedDB:" ;;; ret None).

(** [localDbSettings && localDbSettings.apiKey ? localDbSettings : localSettings] *)
Definition prefer (localDbSettings : option Settings) (localSettings : Settings)
  : Settings :=
  match localDbSettings with
  | Some s => if decide (apiKey s = "") then localSettings else s
  | None => localSettings
  end.

(** [await supabase.from('user_settings').select('*').eq('user_id', userId)
    .maybeSingle()]; [supabase] is [null] when not configured. *)
Definition supabase_select (userId : string) : M SelectReply :=
  if negb (isSupabaseConfigured E)
  then throw (JsError "TypeError" (null_read_message E "from"))
  else
    emit (EvRemoteSelect userId) ;;;
    match remote_select E userId with
    | SelThrows e => throw e
    | reply => ret reply
    end.

Definition supabase_upsert (userId : string) (row : RemoteRow) : M UpsertReply :=
  if negb (isSupabaseConfigured E)
  then throw (JsError "TypeError" (null_read_message E "from"))
  else
    emit (EvRemoteUpsert userId row) ;;;
    match remote_upsert E userId row with
    | UpThrows e => throw e
    | reply => ret reply
    end.

Definition loadSettings : M unit :=
  finally
    (try_catch
       (userId <- getUserId E ;;
        (* Load from multiple sources in priority order *)
        localSettings <- loadLocalSettings ;;
        localDbSettings <- loadLocalDbSettings userId ;;
        (* Use the most recent/complete settings available *)
        let fallbackSettings := prefer localDbSettings localSettings in
        (if decide (apiKey localSettings = "") then ret tt
         else setSettings localSettings) ;;;
        reply <- supabase_select userId ;;
        match reply with
        | SelData (Some data) =>
            let dbSettings := {| apiKey := rr_api_key data;
                                 baseUrl := rr_base_url data;
                                 model := rr_model data |} in
            setSettings dbSettings ;;;
            (* Sync to both local storage options *)
            saveLocalSettings dbSettings ;;;
            saveLocalDbSettings userId dbSettings
        | SelData None => setSettings fallbackSettings
        | _ =>
            console_error "Error loading settings:" ;;;
            (* Use local storage fallback if database fails *)
            setSettings fallbackSettings
        end)
       (fun err =>
          console_error "Failed to load settings:" ;;;
          (* Use local storage fallback if everything fails *)
          localSettings <- loadLocalSettings ;;
          userId <- getUserId E ;;
          localDbSettings <- loadLocalDbSettings userId ;;
          setSettings (prefer localDbSettings localSettings)))
    (setIsLoading false).

Definition updateSettings (newSettings : Settings) : M unit :=
  userId <- getUserId E ;;
  (* Always save to local storage first for immediate persistence *)
  saveLocalSettings newSettings ;;;
  saveLocalDbSettings userId newSettings ;;;
  setSettings newSettings ;;;
  (* Only try database if Supabase is configured *)
  if negb (isSupabaseConfigured E) then ret tt
  else
    try_catch
      (reply <-
         supabase_upsert userId
           {| rr_api_key := apiKey newSettings;
              rr_base_url := baseUrl newSettings;
              rr_model := model newSettings |} ;;
       match reply with
       | UpDone => ret tt
       | _ => console_error "Error saving settings:"
       end ;;;
       (* the source repeats the test of the guard above, twice; the
          branches name variables that do not exist in this scope *)
       (if negb (isSupabaseConfigured E)
        then throw (JsError "ReferenceError" "fallbackSettings is not defined")
        else ret tt) ;;;
       (if negb (isSupabaseConfigured E)
        then throw (JsError "ReferenceError" "localSettings is not defined")
        else ret tt))
      (fun err => console_error "Failed to save settings:").
End WithEnv.
End useSettings.

(** ** [useMessages] (the message store accessor) *)

Module useMessages.
Section WithEnv.
Variable E : Env.

(** React's [setMessages] with the updater [prev => f prev]. *)
Definition setMessages (f : list Message -> list Message) : M unit :=
  w <- get_world ;;
  emit (EvSetMessages (f (ui_messages w))) ;;;
  modify (set_ui_messages (f (ui_messages w))).

Definition addMessage (message : Message) : M unit :=
  (* Add to state immediately for UI responsiveness *)
  setMessages (fun prev => prev ++ [message]) ;;;
  (* Save to local database *)
  if LocalDatabase.isSupported E then
    try_catch
      (userId <- getUserId E ;;
       LocalDatabase.saveMessage E userId
         {| msg_role := msg_role message;
            msg_content := msg_content message;
            msg_timestamp := msg_timestamp message;
            msg_attachments := msg_attachments message |})
      (fun error => console_error "Failed to save message to local database:")
  else ret tt.

(** [addMessage] handed a message whose [content] is not a string, carried
    as the text [String(content)]: the in-memory list takes it as it is,
    and the save is the one of [LocalDatabase.saveMessage_untyped]. *)
Definition addMessage_untyped (message : Message) : M unit :=
  setMessages (fun prev => prev ++ [message]) ;;;
  if LocalDatabase.isSupported E then
    try_catch
      (userId <- getUserId E ;;
       LocalDatabase.saveMessage_untyped E userId
         {| msg_role := msg_role message;
            msg_content := msg_content message;
            msg_timestamp := msg_timestamp message;
            msg_attachments := msg_attachments message |})
      (fun error => console_error "Failed to save message to local database:")
  else ret tt.

(** [messages] is the list the hook was rendered with. *)
Definition getMessageCount : M nat :=
  w <- get_world ;;
  let messages := ui_messages w in
  if negb (LocalDatabase.isSupported E) then ret (length messages)
  else
    try_catch
      (userId <- getUserId E ;;
       LocalDatabase.getMessageCount E userId)
      (fun error =>
         console_error "Failed to get message count from local database:" ;;;
         ret (length messages)).

(** [for (const message of newMessages) { await localDb.saveMessage(..) }] *)
Fixpoint save_each (userId : string) (newMessages : list Message) : M unit :=
  match newMessages with
  | [] => ret tt
  | message :: rest =>
      LocalDatabase.saveMessage E userId
        {| msg_role := msg_role message;
           msg_content := msg_content message;
           msg_timestamp := msg_timestamp message;
           msg_attachments := msg_attachments message |} ;;;
      save_each userId rest
  end.

Definition addMessages (newMessages : list Message) : M unit :=
  (* Add to state immediately *)
  setMessages (fun prev => prev ++ newMessages) ;;;
  (* Save each message to local database *)
  if LocalDatabase.isSupported E then
    try_catch
      (userId <- getUserId E ;;
       save_each userId newMessages)
      (fun error => console_error "Failed to save messages to local database:")
  else ret tt.

(** The hook's own [setIsLoading]. *)
Definition setIsLoading (b : bool) : P unit :=
  fun p => (Ok tt, set_messages_isLoading b p).

(** [loadMessages]. A stored record carries its attachments as text;
    [msg.attachments ? JSON.parse(msg.attachments) : undefined] gives back
    the list the text was made from. *)
Definition loadMessages : P unit :=
  (if negb (LocalDatabase.isSupported E) then setIsLoading false
   else
     finallyP
       (try_catchP
          (userId <- lift (getUserId E) ;;
           localMessages <- lift (LocalDatabase.loadMessages E userId None) ;;
           let convertedMessages :=
             map (fun msg => {| msg_role := lm_role msg;
                                msg_content := lm_content msg;
                                msg_timestamp := lm_timestamp msg;
                                msg_attachments := lm_attachments msg |})
                 localMessages in
           lift (setMessages (fun _ => convertedMessages)))
          (fun error => lift (console_error "Failed to load messages from local database:")))
       (setIsLoading false))%page.
End WithEnv.

Section Clearing.
Variable E : Env.
Variable delete_error : option exn.

Definition clearMessages : M unit :=
  setMessages (fun _ => []) ;;;
  if LocalDatabase.isSupported E then
    try_catch
      (userId <- getUserId E ;;
       LocalDatabase.deleteMessages E delete_error userId)
      (fun error => console_error "Failed to clear messages from local database:")
  else ret tt.
End Clearing.
End useMessages.

(** ** [App.sendMessage] *)

Module App.
Section WithEnv.
Variable E : Env.

Definition setError (e : option string) : M unit :=
  emit (EvSetError e) ;;; modify (set_ui_error e).

Definition setIsLoading (b : bool) : M unit := modify (set_ui_isLoading b).

Definition setIsSettingsOpen (b : bool) : M unit := modify (set_ui_isSettingsOpen b).

Definition newline : string := String (Ascii.ascii_of_nat 10) "".

Definition startsWith (s p : string) : bool := String.prefix p s.

Definition endsWith (s p : string) : bool :=
  String.prefix (String.rev p) (String.rev s).

(** The test that decides whether the content of a file is sent along. *)
Definition is_text_file (attachment : FileAttachment) : bool :=
  startsWith (att_type attachment) "text/" ||
  bool_decide (att_type attachment = "application/json") ||
  existsb (endsWith (att_name attachment))
    [".md"; ".txt"; ".js"; ".ts"; ".jsx"; ".tsx"; ".css"; ".html"; ".xml";
     ".yaml"; ".yml"].

(** One round of [attachments.forEach]: what it appends. *)
Definition describe (attachment : FileAttachment) : M string :=
  let line :=
    "- " +:+ att_name attachment +:+ " (" +:+ att_type attachment +:+ ", "
    +:+ pretty (att_size attachment) +:+ " bytes)" +:+ newline in
  if is_text_file attachment then
    match atob E (att_content attachment) with
    | Some textContent =>
        ret (line +:+ newline +:+ "Content of " +:+ att_name attachment +:+ ":"
             +:+ newline +:+ "```" +:+ newline +:+ textContent +:+ newline
             +:+ "```" +:+ newline)
    | None => console_error "Error decoding text file:" ;;; ret line
    end
  else ret line.

Fixpoint forEach (attachments : list FileAttachment) (acc : string) : M string :=
  match attachments with
  | [] => ret acc
  | attachment :: rest =>
      added <- describe attachment ;;
      forEach rest (acc +:+ added)
  end.

Definition currentMessageContent (content : string)
    (attachments : option (list FileAttachment)) : M string :=
  match attachments with
  | Some (a :: l) =>
      forEach (a :: l)
        (content +:+ newline +:+ newline +:+ "Attached files ("
         +:+ pretty (length (a :: l)) +:+ "):" +:+ newline)
  | _ => ret content
  end.

Definition do_fetch (req : Request) : M Response :=
  emit (EvFetch req) ;;;
  match fetch E req with
  | FetchRejects e => throw e
  | FetchResponse r => ret r
  end.

(** [await response.json()] *)
Definition json (r : Response) : M (Body Payload) :=
  match body r with
  | BodyInvalid e => throw e
  | b => ret b
  end.

(** [a || d] on a string that may be [undefined]. *)
Definition or_else (a : option string) (d : string) : string :=
  match a with
  | Some (String c s) => String c s
  | _ => d
  end.

(** [errorData.error?.message || errorData.message || response.statusText]:
    reading [.error] of [null] throws. *)
Definition errorMsg (errorData : Body Payload) (response : Response) : M string :=
  match errorData with
  | BodyObject o =>
      ret (or_else (err_error_message o) (or_else (err_message o) (statusText response)))
  | BodyNull => throw (JsError "TypeError" (null_read_message E "error"))
  | BodyInvalid e => throw e
  end.

(** [a || d] on a value that may be [undefined], and that need not be a
    string when it is truthy. *)
Definition content_or_else (a : option Content) (d : string) : Content :=
  match a with
  | Some (ContentText (String c s)) => ContentText (String c s)
  | Some (ContentOther shown) => ContentOther shown
  | _ => ContentText d
  end.

(** [data.choices?.[0]?.message?.content || 'No response from AI']:
    reading [.choices] of [null] throws. *)
Definition reply_content (data : Body Payload) : M Content :=
  match data with
  | BodyObject o => ret (content_or_else (choice0_content o) "No response from AI")
  | BodyNull => throw (JsError "TypeError" (null_read_message E "choices"))
  | BodyInvalid e => throw e
  end.

(** [settings] and [messages] are the values the component was
    rendered with. [data] is not typed: the content of [assistantMessage]
    is whatever the body holds, and [addMessage] is called with it. *)
Definition sendMessage (content : string) (attachments : option (list FileAttachment))
  : M unit :=
  w <- get_world ;;
  let settings := ui_settings w in
  let messages := ui_messages w in
  if decide (apiKey settings = "") then
    setError (Some "Please configure your API key in settings") ;;;
    setIsSettingsOpen true
  else
    timestamp <- Date_now E ;;
    let userMessage := {| msg_role := user;
                          msg_content := content;
                          msg_timestamp := timestamp;
                          msg_attachments := attachments |} in
    useMessages.addMessage E userMessage ;;;
    setIsLoading true ;;;
    setError None ;;;
    finally
      (try_catch
         (let apiUrl := baseUrl settings +:+ "/v1/chat/completions" in
          (* Auto-select best model if "auto" is chosen *)
          let modelToUse :=
            if decide (model settings = "auto") then "grok-2-latest"
            else model settings in
          (* Prepare messages for API *)
          let apiMessages := map (fun msg => (msg_role msg, msg_content msg)) messages in
          (* Add current message with attachments if any *)
          current <- currentMessageContent content attachments ;;
          response <-
            do_fetch {| req_url := apiUrl;
                        req_authorization := "Bearer " +:+ apiKey settings;
                        req_model := modelToUse;
                        req_messages := apiMessages ++ [(user, current)] |} ;;
          if negb (ok response) then
            (* response.json().catch(() => ({})) *)
            let errorData :=
              match body response with
              | BodyInvalid _ =>
                  BodyObject {| err_error_message := None;
                                err_message := None;
                                choice0_content := None |}
              | b => b
              end in
            console_error "API Error:" ;;;
            msg <- errorMsg errorData response ;;
            throw (JsError "Error" (pretty (status response) +:+ " Error: " +:+ msg))
          else
            data <- json response ;;
            content <- reply_content data ;;
            timestamp <- Date_now E ;;
            match content with
            | ContentText text =>
                useMessages.addMessage E
                  {| msg_role := assistant;
                     msg_content := text;
                     msg_timestamp := timestamp;
                     msg_attachments := None |}
            | ContentOther shown =>
                useMessages.addMessage_untyped E
                  {| msg_role := assistant;
                     msg_content := shown;
                     msg_timestamp := timestamp;
                     msg_attachments := None |}
            end)
         (fun err =>
            console_error "Request failed:" ;;;
            setError (Some (match err with
                            | JsError _ message => message
                            | JsThrown => "Failed to send message"
                            end))))
      (setIsLoading false).
End WithEnv.
End App.

(** ** [SettingsModal] ([src/components/SettingsModal.tsx]) *)

Module SettingsModal.
Section WithEnv.
Variable E : Env.

(** [ClearDataButton.handleClearData]. [confirmed] is the answer to
    [confirm(..)]; [onDataCleared] the optional callback. *)
Definition handleClearData (confirmed : bool) (onDataCleared : option (P unit)) : P unit :=
  (if negb confirmed then retP tt
   else
     try_catchP
       ((* Clear IndexedDB *)
        (if LocalDatabase.isSupported E then lift (LocalDatabase.clearAllData E)
         else retP tt) ;;;
        (* Clear localStorage *)
        lift (localStorage_removeItem "grok-chat-settings") ;;;
        lift (localStorage_removeItem "grok-user-id") ;;;
        (* Notify parent component *)
        match onDataCleared with
        | Some callback => callback
        | None => retP tt
        end ;;;
        alert "Local data cleared successfully. The page will reload." ;;;
        window_location_reload)
       (fun error =>
          lift (console_error "Error clearing local data:") ;;;
          alert "Failed to clear some local data. Check console for details."))%page.

(** [ClearDataButton.getStorageInfo] *)
Definition getStorageInfo : M string :=
  if negb (LocalDatabase.isSupported E) then ret "localStorage only"
  else
    try_catch
      (userId <- getUserId E ;;
       messageCount <- LocalDatabase.getMessageCount E userId ;;
       ret (pretty messageCount +:+ " messages stored"))
      (fun error => ret "IndexedDB + localStorage").
End WithEnv.

(** [handleSubmit], with the values of the three fields of the form. *)
Definition handleSubmit (onSave : Settings -> M unit) (onClose : M unit)
    (formApiKey formBaseUrl formModel : string) : M unit :=
  let newSettings := {| apiKey := formApiKey;
                        baseUrl := formBaseUrl;
                        model := formModel |} in
  try_catch
    (onSave newSettings ;;; onClose)
    (fun err =>
       console_error "Failed to save settings:" ;;;
       (* Still close the modal since localStorage backup was saved *)
       onClose).
End SettingsModal.

(** * Specification vocabulary *)

(** The object store works: IndexedDB exists, the database opens and no
    request fails. *)
Definition idb_healthy (E : Env) : Prop :=
  idb_supported E = true /\ idb_open_error E = None /\
  forall kind, idb_request_error E kind = None.

(** What IndexedDB maintains for the settings store: a record is filed
    under its own [id] (the key path), and the unique index ['user_id']
    holds at most one record per user. *)
Definition settings_wf (m : gmap string LocalSettings) : Prop :=
  (forall k r, m !! k = Some r -> ls_id r = k) /\
  (forall k1 k2 r1 r2, m !! k1 = Some r1 -> m !! k2 = Some r2 ->
     ls_user_id r1 = ls_user_id r2 -> k1 = k2).

(** The same for the messages store: the key path. *)
Definition messages_wf (m : gmap string LocalMessage) : Prop :=
  forall k r, m !! k = Some r -> lm_id r = k.

(** The three fields of a stored record that the caller chose. *)
Definition saved_fields (r : LocalSettings) : DbSettingsInput :=
  {| in_api_key := ls_api_key r; in_base_url := ls_base_url r; in_model := ls_model r |}.

(** A sequence of calls of [LocalDatabase.saveSettings] for one user, each
    in its own environment. *)
Fixpoint save_all (userId : string) (calls : list (Env * DbSettingsInput)) : M unit :=
  match calls with
  | [] => ret tt
  | (E, s) :: rest => LocalDatabase.saveSettings E userId s ;;; save_all userId rest
  end.

(** A sequence of calls of [LocalDatabase.saveMessage] for one user. *)
Fixpoint save_messages (E : Env) (userId : string) (ms : list Message) : M unit :=
  match ms with
  | [] => ret tt
  | m :: rest => LocalDatabase.saveMessage E userId m ;;; save_messages E userId rest
  end.

(** The message a stored record was made from. *)
Definition message_of (r : LocalMessage) : Message :=
  {| msg_role := lm_role r; msg_content := lm_content r;
     msg_timestamp := lm_timestamp r; msg_attachments := lm_attachments r |}.

(** [t] occurs in [s]. *)
Definition contains (s t : string) : Prop :=
  exists pre post, s = pre +:+ t +:+ post.

(** A test for [contains s t]. *)
Fixpoint occurs (t s : string) : bool :=
  String.prefix t s ||
  match s with
  | EmptyString => false
  | String _ s' => occurs t s'
  end.

(** The error message of a response that is not 2xx, as the endpoint
    contract words it: [error.message], else [message], else the status
    text. *)
Definition response_error_message (r : Response) : string :=
  match body r with
  | BodyObject o =>
      match err_error_message o with
      | Some m => m
      | None => match err_message o with
                | Some m => m
                | None => statusText r
                end
      end
  | _ => statusText r
  end.

(** The events a computation adds to the trace. *)
Definition events_since (w w' : World) : list Event :=
  drop (length (trace w)) (trace w').

(** [setError] called with a message. *)
Definition is_set_error (ev : Event) : bool :=
  match ev with EvSetError (Some _) => true | _ => false end.

(** [choices[0].message.content] of the body of a response; [None] when
    there is none. *)
Definition reply_value (r : Response) : option Content :=
  match body r with
  | BodyObject o => choice0_content o
  | _ => None
  end.

(** The same when it is text; [None] when it is not. *)
Definition reply_text (r : Response) : option string :=
  match reply_value r with
  | Some (ContentText s) => Some s
  | _ => None
  end.

(** The errors shown to the user among some events. *)
Definition errors_shown (evs : list Event) : list Event :=
  filter (fun ev => is_set_error ev = true) evs.

(** The message [sendMessage] builds from what the user typed at [now]. *)
Definition user_message (content : string) (attachments : option (list FileAttachment))
    (now : Z) : Message :=
  {| msg_role := user; msg_content := content; msg_timestamp := now;
     msg_attachments := attachments |}.

(** ** Sample environments and worlds *)

(** An environment in which every tier works as given; the remaining
    fields are the oracles: identifiers [id-0], [id-1], ..., a clock that
    starts at 1000 ms and advances by one per reading, the wording V8
    uses for a read of a property of [null]. *)
Definition make_env (supported : bool) (open_error : option exn)
    (request_error : IdbRequest -> option exn) (set_error : option exn)
    (configured : bool) (select : SelectReply) (upsert : UpsertReply)
    (reply : FetchReply) : Env :=
  {| idb_supported := supported;
     idb_open_error := open_error;
     idb_request_error := request_error;
     storage_set_error := set_error;
     isSupabaseConfigured := configured;
     remote_select := fun _ => select;
     remote_upsert := fun _ _ => upsert;
     fetch := fun _ => reply;
     randomUUID := fun n => "id-" +:+ pretty n;
     clock := fun n => 1000 + Z.of_nat n;
     toISOString := fun t => pretty t;
     null_read_message :=
       fun p => "Cannot read properties of null (reading '" +:+ p +:+ "')";
     atob := Some |}.

Definition no_reply : FetchReply := FetchRejects (JsError "TypeError" "Failed to fetch").

(** Everything works; the remote store has no row. *)
Definition env_ok : Env :=
  make_env true None (fun _ => None) None true (SelData None) UpDone no_reply.

(** The database cannot be opened. *)
Definition quota : exn := JsError "QuotaExceededError" "The quota has been exceeded.".
Definition env_open_fails : Env :=
  make_env true (Some quota) (fun _ => None) None true (SelData None) UpDone no_reply.

(** A browser without IndexedDB. *)
Definition env_no_idb : Env :=
  make_env false None (fun _ => None) None true (SelData None) UpDone no_reply.

(** The remote store answers with an error. *)
Definition env_remote_down : Env :=
  make_env true None (fun _ => None) None true SelError UpError no_reply.

(** The remote store holds a row with key ["C"]. *)
Definition remote_C : RemoteRow :=
  {| rr_api_key := "C"; rr_base_url := "https://api.x.ai"; rr_model := "grok-2" |}.
Definition env_remote_C : Env :=
  make_env true None (fun _ => None) None true (SelData (Some remote_C)) UpDone no_reply.

(** The completion endpoint answers [r]. *)
Definition env_endpoint (r : Response) : Env :=
  make_env true None (fun _ => None) None true (SelData None) UpDone (FetchResponse r).

(** A fresh browser profile. *)
Definition world_empty : World :=
  {| storage_user_id := None; storage_settings := None;
     db_settings := ∅; db_messages := ∅;
     ui_settings := useSettings.DEFAULT_SETTINGS; ui_settings_loading := true;
     ui_messages := []; ui_isLoading := false; ui_error := None;
     ui_isSettingsOpen := false;
     uuid_count := 0; clock_count := 0; console_errors := []; trace := [] |}.

Definition text_message (r : Role) (content : string) (timestamp : Z) : Message :=
  {| msg_role := r; msg_content := content; msg_timestamp := timestamp;
     msg_attachments := None |}.

(** The profile after two messages of user ["u"] were stored. *)
Definition world_two_messages : World :=
  (save_messages env_ok "u"
     [text_message user "hi" 10; text_message assistant "hello" 20] world_empty).2.

(** The same profile while the chat is on screen: the user identifier is
    cached and the two messages are in the in-memory list. *)
Definition world_chatting : World :=
  set_storage_user_id (Some "u")
    (set_ui_messages [text_message user "hi" 10; text_message assistant "hello" 20]
       world_two_messages).

Definition settings_A : Settings :=
  {| apiKey := "A"; baseUrl := "https://api.x.ai"; model := "auto" |}.

Definition settings_B : Settings :=
  {| apiKey := "B"; baseUrl := "https://api.x.ai"; model := "grok-2" |}.

(** The chat on screen, with an API key configured. *)
Definition world_ready : World := set_ui_settings settings_A world_chatting.

(** [HTTP/1.1 500 Internal Server Error] with the body [null]. *)
Definition response_500_null : Response :=
  {| status := 500; statusText := "Internal Server Error"; body := BodyNull |}.

(** [HTTP/1.1 401 Unauthorized] with the body
    [{"error": {"message": "Invalid API key"}}]. *)
Definition response_401 : Response :=
  {| status := 401; statusText := "Unauthorized";
     body := BodyObject {| err_error_message := Some "Invalid API key";
                           err_message := None;
                           choice0_content := None |} |}.

(** [HTTP/1.1 200 OK] with [choices[0].message.content] the empty string. *)
Definition response_200_empty : Response :=
  {| status := 200; statusText := "OK";
     body := BodyObject {| err_error_message := None;
                           err_message := None;
                           choice0_content := Some (ContentText "") |} |}.

Definition input_A : DbSettingsInput :=
  {| in_api_key := "A"; in_base_url := "https://api.x.ai"; in_model := "auto" |}.

Definition input_B : DbSettingsInput :=
  {| in_api_key := "B"; in_base_url := "https://api.x.ai"; in_model := "grok-2" |}.

(** User ["u"], whose flat backup holds the key ["A"] and whose record in
    the object store holds the key ["B"]. *)
Definition world_A_B : World :=
  (LocalDatabase.saveSettings env_ok "u" input_B
     (set_storage_settings
        (Some (FlatObject (Some "A") (Some "https://api.x.ai") (Some "auto")))
        (set_storage_user_id (Some "u") world_empty))).2.

(** [HTTP/1.1 200 OK] with the body [null]. *)
Definition response_200_null : Response :=
  {| status := 200; statusText := "OK"; body := BodyNull |}.

(** [localStorage] is full. *)
Definition env_storage_full : Env :=
  make_env true None (fun _ => None) (Some quota) true (SelData None) UpDone no_reply.

(** ** Histories and invariants *)

(** A computation keeps an invariant of the world, however it ends. *)
Definition preserves {A} (I : World -> Prop) (m : M A) : Prop :=
  forall w, I w -> I (m w).2.

Definition preservesP {A} (I : World -> Prop) (m : P A) : Prop :=
  forall p, I (page_world p) -> I (page_world (m p).2).

(** The two stores as IndexedDB maintains them. *)
Definition stores_wf (w : World) : Prop :=
  settings_wf (db_settings w) /\ messages_wf (db_messages w).

(** A call of one of the operations, by the application or by another
    user of [LocalDatabase]. *)
Inductive Call :=
  | CallSaveMessage (userId : string) (message : Message)
  | CallLoadMessages (userId : string) (limit : option Z)
  | CallDeleteMessages (delete_error : option exn) (userId : string)
  | CallGetMessageCount (userId : string)
  | CallSaveSettings (userId : string) (settings : DbSettingsInput)
  | CallLoadSettings (userId : string)
  | CallDeleteSettings (delete_error : option exn) (userId : string)
  | CallClearAllData
  | CallHookLoadSettings
  | CallUpdateSettings (newSettings : Settings)
  | CallHookLoadMessages
  | CallAddMessage (message : Message)
  | CallAddMessages (newMessages : list Message)
  | CallClearMessages (delete_error : option exn)
  | CallHookGetMessageCount
  | CallSendMessage (content : string) (attachments : option (list FileAttachment))
  | CallHandleClearData (confirmed : bool)
  | CallGetStorageInfo
  | CallHandleSubmit (formApiKey formBaseUrl formModel : string).

(** A computation run for its effect: the value it returns is dropped. *)
Definition void {A} (m : P A) : P unit :=
  fun p => match m p with
           | (Ok _, p') => (Ok tt, p')
           | (Throw e, p') => (Throw e, p')
           | (Never, p') => (Never, p')
           end.

(** A call made in environment [E]. [App] passes [updateSettings] and
    [() => setIsSettingsOpen(false)] to the modal; the modal passes no
    callback to [ClearDataButton]. *)
Definition perform (E : Env) (c : Call) : P unit :=
  match c with
  | CallSaveMessage userId message =>
      void (lift (LocalDatabase.saveMessage E userId message))
  | CallLoadMessages userId limit =>
      void (lift (LocalDatabase.loadMessages E userId limit))
  | CallDeleteMessages delete_error userId =>
      void (lift (LocalDatabase.deleteMessages E delete_error userId))
  | CallGetMessageCount userId =>
      void (lift (LocalDatabase.getMessageCount E userId))
  | CallSaveSettings userId settings =>
      void (lift (LocalDatabase.saveSettings E userId settings))
  | CallLoadSettings userId =>
      void (lift (LocalDatabase.loadSettings E userId))
  | CallDeleteSettings delete_error userId =>
      void (lift (LocalDatabase.deleteSettings E delete_error userId))
  | CallClearAllData => void (lift (LocalDatabase.clearAllData E))
  | CallHookLoadSettings => void (lift (useSettings.loadSettings E))
  | CallUpdateSettings newSettings =>
      void (lift (useSettings.updateSettings E newSettings))
  | CallHookLoadMessages => void (useMessages.loadMessages E)
  | CallAddMessage message => void (lift (useMessages.addMessage E message))
  | CallAddMessages newMessages =>
      void (lift (useMessages.addMessages E newMessages))
  | CallClearMessages delete_error =>
      void (lift (useMessages.clearMessages E delete_error))
  | CallHookGetMessageCount => void (lift (useMessages.getMessageCount E))
  | CallSendMessage content attachments =>
      void (lift (App.sendMessage E content attachments))
  | CallHandleClearData confirmed =>
      void (SettingsModal.handleClearData E confirmed None)
  | CallGetStorageInfo => void (lift (SettingsModal.getStorageInfo E))
  | CallHandleSubmit formApiKey formBaseUrl formModel =>
      void (lift (SettingsModal.handleSubmit (useSettings.updateSettings E)
                    (App.setIsSettingsOpen false)
                    formApiKey formBaseUrl formModel))
  end.

(** The page after the call. *)
Definition after (E : Env) (c : Call) (p : Page) : Page := (perform E c p).2.

(** A history: calls, each in the environment it meets. *)
Fixpoint run (calls : list (Env * Call)) (p : Page) : Page :=
  match calls with
  | [] => p
  | (E, c) :: rest => run rest (after E c p)
  end.

(** The page when the application starts in a fresh browser profile, and
    the page with the chat of user ["u"] on screen. *)
Definition page_start : Page :=
  {| page_world := world_empty; messages_isLoading := true;
     alerts := []; reloads := 0 |}.

Definition page_chatting : Page :=
  {| page_world := world_chatting; messages_isLoading := false;
     alerts := []; reloads := 0 |}.

(** The cached user identifier is [id], and usable. *)
Definition user_id_is (id : string) (w : World) : Prop :=
  storage_user_id w = Some id /\ id <> "".

(** What the settings side holds, and what the messages side holds. *)
Definition settings_side (w : World)
  : gmap string LocalSettings * option FlatItem * Settings :=
  (db_settings w, storage_settings w, ui_settings w).

Definition messages_side (w : World) : gmap string LocalMessage * list Message :=
  (db_messages w, ui_messages w).

Definition is_settings_call (c : Call) : bool :=
  match c with
  | CallSaveSettings _ _ | CallLoadSettings _ | CallDeleteSettings _ _
  | CallHookLoadSettings | CallUpdateSettings _ | CallHandleSubmit _ _ _ => true
  | _ => false
  end.

Definition is_messages_call (c : Call) : bool :=
  match c with
  | CallSaveMessage _ _ | CallLoadMessages _ _ | CallDeleteMessages _ _
  | CallGetMessageCount _ | CallHookLoadMessages | CallAddMessage _
  | CallAddMessages _ | CallClearMessages _ | CallHookGetMessageCount
  | CallSendMessage _ _ | CallGetStorageInfo => true
  | _ => false
  end.

(** A computation started in a world that satisfies [Q] returns, in a
    world that satisfies [Q]. *)
Definition resolves {A} (Q : World -> Prop) (m : M A) : Prop :=
  forall w, Q w -> exists a w', m w = (Ok a, w') /\ Q w'.

Definition resolvesP {A} (Q : World -> Prop) (m : P A) : Prop :=
  forall p, Q (page_world p) -> exists a p', m p = (Ok a, p') /\ Q (page_world p').

(** A computation settles, wherever it is started: it returns or it
    throws. *)
Definition settles {A} (m : M A) : Prop := forall w, (m w).1 <> Never.

Definition settlesP {A} (m : P A) : Prop := forall p, (m p).1 <> Never.

(** The endpoint keeps the one part of its contract that [sendMessage]
    relies on without a check: where a reply has a content, the content
    is text. *)
Definition text_replies (E : Env) : Prop :=
  forall req response shown,
    fetch E req = FetchResponse response ->
    reply_value response <> Some (ContentOther shown).

Definition is_send (c : Call) : bool :=
  match c with CallSendMessage _ _ => true | _ => false end.

(** The operations that catch whatever they await: those of the hook on
    messages, [sendMessage], and the handlers of the settings modal.
    [loadSettings] and [updateSettings] are not among them: they call
    [getUserId] outside their [try]. *)
Definition is_handler (c : Call) : bool :=
  match c with
  | CallHookLoadMessages | CallAddMessage _ | CallAddMessages _
  | CallClearMessages _ | CallHookGetMessageCount | CallSendMessage _ _
  | CallHandleClearData _ | CallGetStorageInfo | CallHandleSubmit _ _ _ => true
  | _ => false
  end.

(** ** Requests, and further samples *)

(** A profile in which the identifier ["u"] is cached and nothing is
    stored yet. *)
Definition page_new_user : Page :=
  {| page_world := set_storage_user_id (Some "u") world_empty;
     messages_isLoading := false; alerts := []; reloads := 0 |}.

Definition two_messages : list Message :=
  [text_message user "hi" 10; text_message assistant "hello" 20].

(** The requests sent to the completion endpoint among some events. *)
Definition fetches (evs : list Event) : list Request :=
  omap (fun ev => match ev with EvFetch req => Some req | _ => None end) evs.

(** [HTTP/1.1 200 OK] with [choices[0].message.content] = ["hello"]. *)
Definition response_200_hello : Response :=
  {| status := 200; statusText := "OK";
     body := BodyObject {| err_error_message := None;
                           err_message := None;
                           choice0_content := Some (ContentText "hello") |} |}.

(** [HTTP/1.1 200 OK] with [choices[0].message.content] the number [42]
    where the contract promises text. *)
Definition response_200_number : Response :=
  {| status := 200; statusText := "OK";
     body := BodyObject {| err_error_message := None;
                           err_message := None;
                           choice0_content := Some (ContentOther "42") |} |}.

(** The database cannot be opened and [localStorage] is full; the remote
    store holds the row with key ["C"]. *)
Definition env_remote_C_only : Env :=
  make_env true (Some quota) (fun _ => None) (Some quota) true
    (SelData (Some remote_C)) UpDone no_reply.

(** The working environment, with identifiers that come in descending
    order: [id-9], [id-8], ... *)
Definition env_descending_ids : Env :=
  {| idb_supported := true;
     idb_open_error := None;
     idb_request_error := fun _ => None;
     storage_set_error := None;
     isSupabaseConfigured := true;
     remote_select := fun _ => SelData None;
     remote_upsert := fun _ _ => UpDone;
     fetch := fun _ => no_reply;
     randomUUID := fun n => "id-" +:+ pretty (9 - n)%nat;
     clock := fun n => 1000 + Z.of_nat n;
     toISOString := fun t => pretty t;
     null_read_message :=
       fun p => "Cannot read properties of null (reading '" +:+ p +:+ "')";
     atob := Some |}.

(** * Properties *)

(** ** The monad *)

Lemma bind_ok {A B} (m : M A) (f : A -> M B) w a w' :
  m w = (Ok a, w') -> bind m f w = f a w'.
Proof. unfold bind. intros ->. reflexivity. Qed.

Lemma try_catch_ok {A} (m : M A) h w a w' :
  m w = (Ok a, w') -> try_catch m h w = (Ok a, w').
Proof. unfold try_catch. intros ->. reflexivity. Qed.

(** ** The settings store *)

Lemma filter_none {A} (P : A -> Prop) `{forall x, Decision (P x)} (l : list A) :
  (forall x, x ∈ l -> ~ P x) -> filter P l = [].
Proof.
  induction l as [|a l IH]; intros Hall; [done|].
  rewrite filter_cons_False by (apply Hall; left).
  apply IH. intros x Hx. apply Hall. by right.
Qed.

Lemma filter_all {A} (P : A -> Prop) `{forall x, Decision (P x)} (l : list A) :
  Forall P l -> filter P l = l.
Proof.
  induction 1 as [|a l Ha Hl IH]; [done|].
  by rewrite filter_cons_True, IH.
Qed.

Lemma elem_of_rows {A} (m : gmap string A) (r : A) :
  r ∈ rows m <-> exists k, m !! k = Some r.
Proof.
  unfold rows. rewrite list_elem_of_fmap. split.
  - intros [[k r'] [-> Hin]]. exists k. by apply elem_of_map_to_list.
  - intros [k Hk]. exists (k, r). split; [done|]. by apply elem_of_map_to_list.
Qed.

Lemma rows_empty {A} : rows (∅ : gmap string A) = [].
Proof. unfold rows. by rewrite map_to_list_empty. Qed.

Lemma rows_insert {A} (m : gmap string A) k (r : A) :
  rows (<[k := r]> m) ≡ₚ r :: rows (delete k m).
Proof.
  unfold rows. rewrite <- insert_delete_eq.
  rewrite map_to_list_insert by apply lookup_delete_eq. done.
Qed.

Lemma index_get_elem userId m r :
  index_get userId m = Some r -> r ∈ rows m /\ ls_user_id r = userId.
Proof.
  unfold index_get, settings_of_user. intros H%head_Some_elem_of.
  by apply list_elem_of_filter in H as [? ?].
Qed.

Lemma index_get_none userId m :
  index_get userId m = None <-> forall r, r ∈ rows m -> ls_user_id r <> userId.
Proof.
  unfold index_get, settings_of_user. rewrite head_None. split.
  - intros Hnil r Hr Hu.
    assert (r ∈ filter (fun r => ls_user_id r = userId) (rows m)) as Hin
      by (apply list_elem_of_filter; done).
    rewrite Hnil in Hin. by apply not_elem_of_nil in Hin.
  - intros Hall. by apply filter_none.
Qed.

Lemma settings_wf_empty : settings_wf ∅.
Proof. split; intros *; by rewrite lookup_empty. Qed.

(** Under the unique index, no other record of the store belongs to the
    user whose record is filed under [k]. *)
Lemma others_of_user_absent m k userId :
  settings_wf m ->
  (forall r, index_get userId m = Some r -> ls_id r = k) ->
  forall r, r ∈ rows (delete k m) -> ls_user_id r <> userId.
Proof.
  intros [Hkey Huniq] Hget r [k' Hk']%elem_of_rows Hu.
  apply lookup_delete_Some in Hk' as [Hne Hk'].
  destruct (index_get userId m) as [ex|] eqn:Hex.
  - destruct (index_get_elem _ _ _ Hex) as [[kx Hkx]%elem_of_rows Hux].
    specialize (Hget ex eq_refl). apply Hkey in Hkx as Hid.
    assert (k' = kx) by (eapply Huniq; eauto; congruence). congruence.
  - rewrite index_get_none in Hex. eapply Hex; [|done].
    apply elem_of_rows. eauto.
Qed.

Lemma settings_of_user_insert m k row userId :
  ls_user_id row = userId ->
  (forall r, r ∈ rows (delete k m) -> ls_user_id r <> userId) ->
  settings_of_user userId (<[k := row]> m) = [row].
Proof.
  intros Hu Hothers. unfold settings_of_user.
  apply Permutation_singleton_r.
  rewrite rows_insert, filter_cons_True by done.
  by rewrite filter_none.
Qed.

Lemma settings_wf_insert m row :
  settings_wf m ->
  (forall r, r ∈ rows (delete (ls_id row) m) -> ls_user_id r <> ls_user_id row) ->
  settings_wf (<[ls_id row := row]> m).
Proof.
  intros [Hkey Huniq] Hothers. split.
  - intros k r. rewrite lookup_insert. case_decide; naive_solver.
  - intros k1 k2 r1 r2. rewrite !lookup_insert.
    repeat case_decide; intros ? ? Hu; simplify_eq; try done.
    + exfalso. eapply (Hothers r2); [|done].
      apply elem_of_rows. exists k2. by rewrite lookup_delete_ne.
    + exfalso. eapply (Hothers r1); [|done].
      apply elem_of_rows. exists k1. by rewrite lookup_delete_ne.
    + eauto.
Qed.

Lemma openDB_healthy E w :
  idb_healthy E -> LocalDatabase.openDB E w = (Ok tt, w).
Proof.
  intros (Hs & Ho & _). unfold LocalDatabase.openDB. by rewrite Hs, Ho.
Qed.

Lemma request_healthy {A} E kind label (k : M A) :
  idb_healthy E -> LocalDatabase.request E kind label k = k.
Proof.
  intros (_ & _ & Hr). unfold LocalDatabase.request. by rewrite Hr.
Qed.

Lemma store_put_ok E row w :
  idb_healthy E ->
  (forall r, r ∈ rows (delete (ls_id row) (db_settings w)) ->
     ls_user_id r <> ls_user_id row) ->
  LocalDatabase.store_put E row w
  = (Ok tt, set_db_settings (<[ls_id row := row]> (db_settings w)) w).
Proof.
  intros HE Hothers. unfold LocalDatabase.store_put.
  rewrite request_healthy by done.
  unfold bind, get_world.
  by rewrite (proj2 (index_get_none _ _) Hothers).
Qed.

Lemma update_existing_fields existing fresh :
  saved_fields (LocalDatabase.update_existing existing fresh) = saved_fields fresh /\
  ls_user_id (LocalDatabase.update_existing existing fresh) = ls_user_id fresh.
Proof. by destruct existing. Qed.

(** [store.put] keeps what IndexedDB maintains, in every environment. *)
Lemma store_put_wf E row w r w' :
  settings_wf (db_settings w) ->
  LocalDatabase.store_put E row w = (r, w') ->
  settings_wf (db_settings w').
Proof.
  intros Hwf. unfold LocalDatabase.store_put, LocalDatabase.request.
  destruct (idb_request_error E ReqPut).
  { unfold bind, console_error, modify, throw. by intros [= <- <-]. }
  unfold bind, get_world.
  destruct (index_get _ _) eqn:Hget.
  { unfold bind, console_error, modify, throw. by intros [= <- <-]. }
  unfold modify. intros [= <- <-]. simpl.
  apply settings_wf_insert; [done|]. by apply index_get_none.
Qed.

(** One call of [saveSettings] on a working store: what it leaves. *)
Lemma saveSettings_spec E userId s w :
  idb_healthy E -> settings_wf (db_settings w) ->
  exists row w',
    LocalDatabase.saveSettings E userId s w = (Ok tt, w') /\
    db_settings w' = <[ls_id row := row]> (db_settings w) /\
    settings_of_user userId (db_settings w') = [row] /\
    settings_wf (db_settings w') /\
    saved_fields row = s /\ ls_user_id row = userId /\
    (forall ex, index_get userId (db_settings w) = Some ex ->
       ls_id row = ls_id ex /\ ls_created_at row = ls_created_at ex) /\
    storage_settings w' = storage_settings w /\
    storage_user_id w' = storage_user_id w /\
    ui_settings w' = ui_settings w.
Proof.
  intros HE Hwf.
  unfold LocalDatabase.saveSettings.
  unfold bind at 1. unfold emit at 1, modify at 1.
  set (w1 := set_trace _ w).
  unfold bind at 1.
  erewrite try_catch_ok; cycle 1.
  { erewrite bind_ok by (by apply openDB_healthy). reflexivity. }
  cbn beta iota. rewrite request_healthy by done.
  set (w2 := set_uuid_count _ _).
  set (fresh := Build_LocalSettings _ _ _ _ _ _ _).
  unfold bind at 1, get_world at 1.
  change (db_settings w2) with (db_settings w).
  set (row := LocalDatabase.update_existing _ fresh).
  destruct (update_existing_fields (index_get userId (db_settings w)) fresh)
    as [Hfields Huser].
  fold row in Hfields, Huser.
  assert (forall r, r ∈ rows (delete (ls_id row) (db_settings w)) ->
                    ls_user_id r <> userId) as Hothers.
  { apply others_of_user_absent; [done|]. intros ex Hex.
    subst row. by rewrite Hex. }
  exists row, (set_db_settings (<[ls_id row := row]> (db_settings w2)) w2).
  split; [|split; [done|]].
  { apply store_put_ok; [done|]. by rewrite Huser. }
  split; [by apply settings_of_user_insert|].
  split; [apply settings_wf_insert; [done|by rewrite Huser]|].
  split; [by destruct s|].
  split; [done|].
  split; [|done].
  intros ex Hex. subst row. by rewrite Hex.
Qed.

(** What a call of [LocalDatabase.loadSettings] returns depends on the
    environment and on the settings store only. *)
Lemma loadSettings_readable E userId w :
  idb_supported E = true -> idb_open_error E = None ->
  idb_request_error E ReqGet = None ->
  LocalDatabase.loadSettings E userId w
  = (Ok (index_get userId (db_settings w)), w).
Proof.
  intros Hs Ho Hr.
  unfold LocalDatabase.loadSettings, LocalDatabase.openDB, LocalDatabase.request.
  by rewrite Hs, Ho, Hr.
Qed.

Lemma loadSettings_healthy E userId w :
  idb_healthy E ->
  LocalDatabase.loadSettings E userId w
  = (Ok (index_get userId (db_settings w)), w).
Proof. intros (Hs & Ho & Hr). by apply loadSettings_readable. Qed.

(** A call that returns found a working store. *)
Lemma loadSettings_inv E userId w r :
  (LocalDatabase.loadSettings E userId w).1 = Ok r ->
  idb_supported E = true /\ idb_open_error E = None /\
  idb_request_error E ReqGet = None /\
  index_get userId (db_settings w) = r.
Proof.
  unfold LocalDatabase.loadSettings, LocalDatabase.openDB, LocalDatabase.request.
  destruct (idb_supported E); [|by intros [=]].
  destruct (idb_open_error E); [by intros [=]|].
  destruct (idb_request_error E ReqGet); [by intros [=]|].
  by intros [= <-].
Qed.

Lemma index_get_single userId m row :
  settings_of_user userId m = [row] -> index_get userId m = Some row.
Proof. unfold index_get. by intros ->. Qed.

(** Saving again for a user who has a record keeps that record's key and
    creation time, whatever the number of saves. *)
Lemma save_all_spec userId calls : forall w row s,
  Forall (fun c => idb_healthy c.1) calls ->
  settings_wf (db_settings w) ->
  settings_of_user userId (db_settings w) = [row] ->
  saved_fields row = s ->
  exists w' row',
    save_all userId calls w = (Ok tt, w') /\
    settings_wf (db_settings w') /\
    settings_of_user userId (db_settings w') = [row'] /\
    last (s :: calls.*2) = Some (saved_fields row') /\
    ls_id row' = ls_id row /\ ls_created_at row' = ls_created_at row.
Proof.
  induction calls as [|[E s'] calls IH]; intros w row s Hall Hwf Hrow Hs.
  - exists w, row. simpl. by rewrite Hs.
  - apply Forall_cons in Hall as [HE Hall]. simpl in HE.
    destruct (saveSettings_spec E userId s' w HE Hwf)
      as (r1 & w1 & Hsave & _ & Hone & Hwf1 & Hf1 & _ & Hkeep & _).
    destruct (Hkeep row (index_get_single _ _ _ Hrow)) as [Hid Hcr].
    destruct (IH w1 r1 s' Hall Hwf1 Hone Hf1)
      as (w' & row' & Hrest & Hwf' & Hone' & Hlast & Hid' & Hcr').
    exists w', row'.
    split; [simpl; by erewrite bind_ok by exact Hsave|].
    split; [done|]. split; [done|].
    split; [|split; congruence].
    rewrite <- Hlast. rewrite fmap_cons. cbn [snd].
    change (s :: s' :: calls.*2) with ([s] ++ (s' :: calls.*2)).
    by rewrite last_app_cons.
Qed.

(** C1. [saveSettings] then [loadSettings] on a working store returns a
    record with the [api_key], [base_url] and [model] that were saved; and
    however many times settings are saved for one [userId], the store
    holds exactly one record for it, whose primary key and [created_at]
    are those of the record that was there first. *)
Theorem saveSettings_loadSettings_roundtrip E E' userId s calls w :
  idb_healthy E -> idb_healthy E' ->
  Forall (fun c => idb_healthy c.1) calls ->
  settings_wf (db_settings w) ->
  exists w1 w2 row1 row2,
    LocalDatabase.saveSettings E userId s w = (Ok tt, w1) /\
    (LocalDatabase.loadSettings E' userId w1).1 = Ok (Some row1) /\
    saved_fields row1 = s /\
    settings_of_user userId (db_settings w1) = [row1] /\
    (forall ex, index_get userId (db_settings w) = Some ex ->
       ls_id row1 = ls_id ex /\ ls_created_at row1 = ls_created_at ex) /\
    save_all userId calls w1 = (Ok tt, w2) /\
    (LocalDatabase.loadSettings E' userId w2).1 = Ok (Some row2) /\
    last (s :: calls.*2) = Some (saved_fields row2) /\
    settings_of_user userId (db_settings w2) = [row2] /\
    ls_id row2 = ls_id row1 /\ ls_created_at row2 = ls_created_at row1.
Proof.
  intros HE HE' Hcalls Hwf.
  destruct (saveSettings_spec E userId s w HE Hwf)
    as (row1 & w1 & Hsave & _ & Hone & Hwf1 & Hf1 & _ & Hkeep & _).
  destruct (save_all_spec userId calls w1 row1 s Hcalls Hwf1 Hone Hf1)
    as (w2 & row2 & Hrest & _ & Hone2 & Hlast & Hid & Hcr).
  exists w1, w2, row1, row2.
  rewrite !loadSettings_healthy by done. simpl.
  rewrite (index_get_single _ _ _ Hone), (index_get_single _ _ _ Hone2).
  done.
Qed.

(** ** The messages store *)

Global Instance cursor_le_total : Total cursor_le.
Proof.
  intros a b. unfold cursor_le, str_lt, str_le.
  destruct (decide (lm_user_id a = lm_user_id b)) as [Hu|Hu].
  - destruct (Z.lt_trichotomy (lm_timestamp a) (lm_timestamp b)) as [?|[Ht|?]].
    + left. right. auto.
    + destruct (base.total String.le (lm_id a) (lm_id b)); [left|right]; right; auto.
    + right. right. auto.
  - destruct (base.total String.le (lm_user_id a) (lm_user_id b)); [left|right]; left; auto.
Qed.

Lemma str_lt_trans a b c : str_lt a b -> str_lt b c -> str_lt a c.
Proof.
  unfold str_lt, str_le. intros [Hab Hne] [Hbc _]. split.
  - by etrans.
  - intros ->. apply Hne. by apply (anti_symm String.le).
Qed.

Global Instance cursor_le_trans : Transitive cursor_le.
Proof.
  intros a b c. unfold cursor_le.
  intros [Hab|(Hab & Hab')] [Hbc|(Hbc & Hbc')].
  - left. by eapply str_lt_trans.
  - left. by rewrite <- Hbc.
  - left. by rewrite Hab.
  - right. split; [congruence|].
    destruct Hab' as [?|[? Hi]], Hbc' as [?|[? Hj]]; try (left; lia).
    right. split; [lia|]. unfold str_le in *. by etrans.
Qed.

(** The bounds [[userId, 0]] and [[userId, now]] select the records of
    [userId] whose timestamp lies between [0] and [now]. *)
Lemma in_bound_user userId now r :
  in_bound (userId, 0) (userId, now) (user_timestamp r) <->
  lm_user_id r = userId /\ 0 <= lm_timestamp r <= now.
Proof.
  unfold in_bound, key_le, user_timestamp, str_lt, str_le. simpl. split.
  - intros [[[Hlo Hne]|[Hu Ht]] [[Hhi Hne']|[Hu' Ht']]];
      try (exfalso; apply Hne; by apply (anti_symm String.le));
      try (by subst); split; auto; lia.
  - intros [-> ?]. split; right; split; auto; lia.
Qed.

Lemma open_cursor_perm userId now m :
  open_cursor userId now m ≡ₚ
  filter (fun r => lm_user_id r = userId /\ 0 <= lm_timestamp r <= now) (rows m).
Proof.
  unfold open_cursor. rewrite merge_sort_Permutation.
  induction (rows m) as [|r l IH]; [done|].
  destruct (decide (lm_user_id r = userId /\ 0 <= lm_timestamp r <= now)) as [H|H].
  - rewrite !filter_cons_True by (done || by apply in_bound_user). by rewrite IH.
  - rewrite !filter_cons_False by (done || by rewrite in_bound_user). done.
Qed.

Lemma open_cursor_sorted userId now m :
  StronglySorted cursor_le (open_cursor userId now m).
Proof. apply StronglySorted_merge_sort; apply _. Qed.

Lemma open_cursor_elem userId now m r :
  r ∈ open_cursor userId now m ->
  r ∈ rows m /\ lm_user_id r = userId /\ 0 <= lm_timestamp r <= now.
Proof.
  rewrite open_cursor_perm. rewrite list_elem_of_filter. tauto.
Qed.

(** Records of one user in cursor order have non-decreasing timestamps. *)
Lemma cursor_le_timestamps userId l :
  Forall (fun r => lm_user_id r = userId) l ->
  StronglySorted cursor_le l ->
  StronglySorted (fun a b => lm_timestamp a <= lm_timestamp b) l.
Proof.
  intros Hu Hs. induction Hs as [|a l Hs IH Ha]; [constructor|].
  apply Forall_cons in Hu as [Hua Hul].
  constructor; [by apply IH|].
  rewrite Forall_forall in *. intros b Hb.
  destruct (Ha b Hb) as [[_ Hne]|[_ [?|[? _]]]]; try lia.
  exfalso. apply Hne. rewrite Hua. symmetry. by apply Hul.
Qed.

Lemma open_cursor_timestamps userId now m :
  StronglySorted (fun a b => lm_timestamp a <= lm_timestamp b)
    (open_cursor userId now m).
Proof.
  apply (cursor_le_timestamps userId); [|apply open_cursor_sorted].
  apply Forall_forall. intros r Hr. by apply open_cursor_elem in Hr as (_ & ? & _).
Qed.

(** What the [onsuccess] handler collects. *)
Lemma cursor_loop_unlimited messages cursor :
  cursor_loop None messages cursor = messages ++ cursor.
Proof.
  revert messages. induction cursor as [|v rest IH]; intros messages; simpl.
  - by rewrite app_nil_r.
  - by rewrite IH, <- app_assoc.
Qed.

Lemma cursor_loop_zero messages cursor :
  cursor_loop (Some 0) messages cursor = messages ++ cursor.
Proof.
  revert messages. induction cursor as [|v rest IH]; intros messages; simpl.
  - by rewrite app_nil_r.
  - by rewrite IH, <- app_assoc.
Qed.

Lemma cursor_loop_positive n messages cursor :
  (length messages < Z.to_nat n)%nat ->
  cursor_loop (Some n) messages cursor
  = messages ++ take (Z.to_nat n - length messages) cursor.
Proof.
  revert messages. induction cursor as [|v rest IH]; intros messages Hlen; simpl.
  - by rewrite take_nil, app_nil_r.
  - assert ((n =? 0) = false) as -> by lia. simpl.
    destruct (Z.ltb_spec (Z.of_nat (length (messages ++ [v]))) n) as [Hlt|Hlt];
      rewrite length_app in Hlt; simpl in Hlt.
    + rewrite IH by (rewrite length_app; simpl; lia).
      rewrite length_app. simpl. rewrite <- app_assoc. simpl.
      replace (Z.to_nat n - length messages)%nat
        with (S (Z.to_nat n - (length messages + 1)))%nat by lia.
      done.
    + replace (Z.to_nat n - length messages)%nat with 1%nat by lia.
      simpl. by rewrite take_0.
Qed.

Lemma cursor_loop_negative n cursor :
  n < 0 -> cursor_loop (Some n) [] cursor = take 1 cursor.
Proof.
  intros Hn. destruct cursor as [|v rest]; [done|].
  cbn [cursor_loop app length].
  assert ((n =? 0) = false) as -> by lia.
  change (Z.of_nat 1) with 1.
  assert ((1 <? n) = false) as -> by lia. simpl. by rewrite take_0.
Qed.

Lemma loadMessages_healthy E userId limit w :
  idb_healthy E ->
  (LocalDatabase.loadMessages E userId limit w).1
  = Ok (cursor_loop limit []
          (open_cursor userId (clock E (clock_count w)) (db_messages w))).
Proof.
  intros HE. unfold LocalDatabase.loadMessages.
  erewrite bind_ok; cycle 1.
  { erewrite try_catch_ok by (by apply openDB_healthy). reflexivity. }
  unfold bind at 1, Date_now at 1.
  by rewrite request_healthy.
Qed.

Lemma saveMessage_inv E userId m w w' :
  idb_healthy E ->
  LocalDatabase.saveMessage E userId m w = (Ok tt, w') ->
  exists row,
    message_of row = m /\ lm_user_id row = userId /\
    db_messages w !! lm_id row = None /\
    db_messages w' = <[lm_id row := row]> (db_messages w).
Proof.
  intros HE. unfold LocalDatabase.saveMessage.
  unfold bind at 1. unfold emit at 1, modify at 1.
  set (w1 := set_trace _ w).
  unfold bind at 1.
  erewrite try_catch_ok; cycle 1.
  { erewrite bind_ok by (by apply openDB_healthy). reflexivity. }
  cbn beta iota. unfold LocalDatabase.store_add.
  rewrite request_healthy by done.
  set (w2 := set_clock_count _ _).
  set (row := Build_LocalMessage _ _ _ _ _ _ _).
  unfold bind at 1, get_world at 1.
  change (db_messages w2) with (db_messages w).
  destruct (db_messages w !! lm_id row) eqn:Hfree.
  - unfold bind, console_error, modify, throw. intros [=].
  - unfold modify. intros [= <-]. exists row.
    split; [by destruct m|]. done.
Qed.

Lemma save_messages_inv E userId ms : forall w w',
  idb_healthy E ->
  save_messages E userId ms w = (Ok tt, w') ->
  exists rs,
    message_of <$> rs = ms /\
    Forall (fun r => lm_user_id r = userId) rs /\
    rows (db_messages w') ≡ₚ rows (db_messages w) ++ rs.
Proof.
  induction ms as [|m ms IH]; intros w w' HE; simpl.
  - intros [= <-]. exists []. by rewrite app_nil_r.
  - unfold bind at 1.
    destruct (LocalDatabase.saveMessage E userId m w) as [[[]|e|] w1] eqn:Hsave;
      [|intros [=]..].
    intros Hrest.
    destruct (saveMessage_inv _ _ _ _ _ HE Hsave) as (row & Hm & Hu & Hfree & Hdb).
    destruct (IH _ _ HE Hrest) as (rs & Hrs & Hus & Hperm).
    exists (row :: rs). split; [by rewrite fmap_cons, Hm, Hrs|].
    split; [by constructor|].
    rewrite Hperm, Hdb. unfold rows at 1.
    rewrite map_to_list_insert by done. rewrite fmap_cons. simpl.
    by rewrite Permutation_middle.
Qed.

Lemma increasing_timestamps_of rs :
  StronglySorted (fun a b => msg_timestamp a < msg_timestamp b) (message_of <$> rs) ->
  StronglySorted (fun a b => lm_timestamp a < lm_timestamp b) rs.
Proof.
  induction rs as [|r rs IH]; [constructor|].
  rewrite fmap_cons, !StronglySorted_cons, Forall_fmap.
  intros [Hr Hs]. split; [|by apply IH].
  eapply Forall_impl; [exact Hr|]. by intros b.
Qed.

Lemma increasing_timestamps_inj rs a b :
  StronglySorted (fun a b => lm_timestamp a < lm_timestamp b) rs ->
  a ∈ rs -> b ∈ rs -> lm_timestamp a = lm_timestamp b -> a = b.
Proof.
  induction 1 as [|r rs Hs IH Hr]; [by intros ?%not_elem_of_nil|].
  rewrite Forall_forall in Hr.
  intros [->|Ha]%elem_of_cons [->|Hb]%elem_of_cons Ht; auto.
  - specialize (Hr _ Hb). lia.
  - specialize (Hr _ Ha). lia.
Qed.

Lemma increasing_timestamps_cursor userId rs :
  Forall (fun r => lm_user_id r = userId) rs ->
  StronglySorted (fun a b => lm_timestamp a < lm_timestamp b) rs ->
  StronglySorted cursor_le rs.
Proof.
  intros Hu Hs. induction Hs as [|r rs Hs IH Hr]; [constructor|].
  apply Forall_cons in Hu as [Hur Hus].
  constructor; [by apply IH|].
  rewrite Forall_forall in *. intros b Hb.
  right. split; [by rewrite Hur, (Hus b Hb)|]. left. by apply Hr.
Qed.

(** Messages saved with strictly increasing timestamps come back in the
    order they were saved. *)
Lemma loadMessages_save_order E E' userId ms w w' :
  idb_healthy E -> idb_healthy E' ->
  messages_of_user userId (db_messages w) = [] ->
  StronglySorted (fun a b => msg_timestamp a < msg_timestamp b) ms ->
  Forall (fun m => 0 <= msg_timestamp m <= clock E' (clock_count w')) ms ->
  save_messages E userId ms w = (Ok tt, w') ->
  exists rs,
    (LocalDatabase.loadMessages E' userId None w').1 = Ok rs /\
    message_of <$> rs = ms.
Proof.
  intros HE HE' Hnone Hinc Hbound Hsave.
  destruct (save_messages_inv _ _ _ _ _ HE Hsave) as (rs & Hrs & Hus & Hperm).
  exists rs. split; [|done].
  rewrite loadMessages_healthy by done.
  rewrite cursor_loop_unlimited. simpl. f_equal.
  subst ms. apply increasing_timestamps_of in Hinc.
  set (now := clock E' (clock_count w')) in *.
  assert (open_cursor userId now (db_messages w') ≡ₚ rs) as Hcur.
  { rewrite open_cursor_perm, Hperm, filter_app.
    rewrite (filter_none _ (rows (db_messages w))); cycle 1.
    { intros r Hr [Hu _].
      assert (r ∈ messages_of_user userId (db_messages w)) as Hin
        by (by apply list_elem_of_filter).
      rewrite Hnone in Hin. by apply not_elem_of_nil in Hin. }
    simpl. rewrite filter_all; [done|].
    rewrite Forall_fmap in Hbound. rewrite Forall_forall in *.
    intros r Hr. split; [by apply Hus|by apply Hbound]. }
  apply (StronglySorted_unique_strong cursor_le);
    [|apply open_cursor_sorted|by apply (increasing_timestamps_cursor userId)|done].
  intros x1 x2 Hx1 Hx2 H12 H21. rewrite Hcur in Hx1.
  apply (increasing_timestamps_inj rs); [done..|].
  rewrite Forall_forall in Hus.
  pose proof (Hus _ Hx1). pose proof (Hus _ Hx2).
  destruct H12 as [[_ ?]|[_ [?|[? _]]]]; [congruence| |done].
  destruct H21 as [[_ ?]|[_ [?|[? _]]]]; [congruence|lia|done].
Qed.

(** C5, as the code has it. On a working store [loadMessages(userId)]
    returns the records of [userId] with a timestamp between [0] and the
    time of the call, in non-decreasing timestamp order; with a limit
    [n >= 1] it returns the first [n] of them; a limit of [0] is no limit.
    Messages saved for the user with strictly increasing timestamps come
    back in the order they were saved. *)
Theorem loadMessages_order_and_limit E userId w :
  idb_healthy E ->
  exists all,
    (LocalDatabase.loadMessages E userId None w).1 = Ok all /\
    all ≡ₚ filter (fun r => lm_user_id r = userId /\
                            0 <= lm_timestamp r <= clock E (clock_count w))
             (rows (db_messages w)) /\
    StronglySorted (fun a b => lm_timestamp a <= lm_timestamp b) all /\
    (forall n, 1 <= n ->
       (LocalDatabase.loadMessages E userId (Some n) w).1
       = Ok (take (Z.to_nat n) all)) /\
    (LocalDatabase.loadMessages E userId (Some 0) w).1 = Ok all /\
    (forall E0 w0 ms,
       idb_healthy E0 ->
       messages_of_user userId (db_messages w0) = [] ->
       StronglySorted (fun a b => msg_timestamp a < msg_timestamp b) ms ->
       Forall (fun m => 0 <= msg_timestamp m <= clock E (clock_count w)) ms ->
       save_messages E0 userId ms w0 = (Ok tt, w) ->
       message_of <$> all = ms).
Proof.
  intros HE.
  exists (open_cursor userId (clock E (clock_count w)) (db_messages w)).
  rewrite !loadMessages_healthy by done.
  rewrite cursor_loop_unlimited, cursor_loop_zero. simpl.
  split; [done|]. split; [apply open_cursor_perm|].
  split; [apply open_cursor_timestamps|].
  split; [|split; [done|]].
  - intros n Hn. rewrite loadMessages_healthy by done.
    rewrite cursor_loop_positive by (simpl; lia).
    simpl. by rewrite Nat.sub_0_r.
  - intros E0 w0 ms HE0 Hnone Hinc Hbound Hsave.
    destruct (loadMessages_save_order E0 E userId ms w0 w HE0 HE Hnone Hinc Hbound Hsave)
      as (rs & Hload & Hrs).
    rewrite loadMessages_healthy, cursor_loop_unlimited in Hload by done.
    simpl in Hload. by injection Hload as ->.
Qed.

Lemma loadMessages_order_and_limit_witness :
  idb_healthy env_ok /\
  exists all,
    (LocalDatabase.loadMessages env_ok "u" (Some 1) world_two_messages).1
    = Ok (take 1 all) /\
    lm_content <$> all = ["hi"; "hello"].
Proof.
  assert (idb_healthy env_ok) as HE by (by repeat split).
  split; [exact HE|].
  destruct (loadMessages_order_and_limit env_ok "u" world_two_messages HE)
    as (all & Hall & _ & _ & Hlimit & _).
  exists all. split; [by apply (Hlimit 1)|].
  vm_compute in Hall. by injection Hall as <-.
Defined.

(** C5 as stated fails: with the limit [0] the call returns every
    message, two here, not at most zero. *)
Lemma loadMessages_limit_zero_returns_all :
  exists rs,
    (LocalDatabase.loadMessages env_ok "u" (Some 0) world_two_messages).1 = Ok rs /\
    ~ (Z.of_nat (length rs) <= 0).
Proof. eexists. split; [vm_compute; reflexivity|]. simpl. lia. Qed.

(** ** [clearAllData] *)

(** The promise resolves only once both requests have fired [onsuccess],
    whatever the order of the events; by then both stores are empty. *)
Lemma clear_resolved_after_both evs w :
  NoDup (event_request <$> evs) ->
  promise (run_handlers evs) = Resolved ->
  onsuccess SettingsRequest ∈ evs /\ onsuccess MessagesRequest ∈ evs /\
  db_settings (transaction_effect evs w) = ∅ /\
  db_messages (transaction_effect evs w) = ∅.
Proof.
  intros Hnd Hres.
  destruct evs as [|e1 [|e2 [|e3 evs]]].
  - discriminate Hres.
  - destruct e1 as [[]|[] ?]; discriminate Hres.
  - destruct e1 as [[]|[] ?], e2 as [[]|[] ?];
      try discriminate Hres;
      try (apply NoDup_cons in Hnd as [Hnd _]; exfalso; apply Hnd; left);
      (split; [set_solver|split; [set_solver|done]]).
  - exfalso. rewrite !fmap_cons in Hnd.
    apply NoDup_cons in Hnd as [H1 Hnd].
    apply NoDup_cons in Hnd as [H2 Hnd].
    apply NoDup_cons in Hnd as [H3 _].
    destruct (event_request e1), (event_request e2), (event_request e3); set_solver.
Qed.

(** Each request fires one event, so the promise of [clearAllData] is
    settled when both have fired. *)
Lemma clear_events_settle E :
  promise (run_handlers (LocalDatabase.clear_events E)) <> Pending.
Proof.
  unfold LocalDatabase.clear_events.
  by destruct (idb_request_error E ReqClearSettings),
              (idb_request_error E ReqClearMessages).
Qed.

Lemma clear_events_once E :
  NoDup (event_request <$> LocalDatabase.clear_events E).
Proof.
  unfold LocalDatabase.clear_events.
  assert (NoDup [SettingsRequest; MessagesRequest]) as Hnd.
  { apply NoDup_cons. split; [|apply NoDup_singleton].
    by intros ?%list_elem_of_singleton. }
  by destruct (idb_request_error E ReqClearSettings),
              (idb_request_error E ReqClearMessages).
Qed.

Lemma clearAllData_inv E w w' :
  LocalDatabase.clearAllData E w = (Ok tt, w') ->
  db_settings w' = ∅ /\ db_messages w' = ∅.
Proof.
  unfold LocalDatabase.clearAllData, LocalDatabase.openDB, LocalDatabase.clear_events.
  destruct (idb_supported E); [|intros [=]].
  destruct (idb_open_error E); [intros [=]|].
  destruct (idb_request_error E ReqClearSettings),
           (idb_request_error E ReqClearMessages); intros [=]. by subst.
Qed.

Lemma clearAllData_healthy E w :
  idb_healthy E -> exists w', LocalDatabase.clearAllData E w = (Ok tt, w').
Proof.
  intros (Hs & Ho & Hr).
  unfold LocalDatabase.clearAllData, LocalDatabase.openDB, LocalDatabase.clear_events.
  rewrite Hs, Ho, !Hr. by eexists.
Qed.

Lemma index_get_empty userId : index_get userId ∅ = None.
Proof. apply index_get_none. intros r. rewrite rows_empty. by intros ?%not_elem_of_nil. Qed.

Lemma open_cursor_empty userId now : open_cursor userId now ∅ = [].
Proof. unfold open_cursor. by rewrite rows_empty. Qed.

(** C7. Each of the two [clear()] requests of [clearAllData] fires one
    event, and the promise resolves only after both have succeeded, not
    after the first; when it resolves both stores are empty, so that
    [loadSettings] finds no record and [loadMessages] returns no message,
    for every user; and on a working store it does resolve. *)
Theorem clearAllData_clears_both E w :
  NoDup (event_request <$> LocalDatabase.clear_events E) /\
  (forall evs,
     NoDup (event_request <$> evs) ->
     promise (run_handlers evs) = Resolved ->
     onsuccess SettingsRequest ∈ evs /\ onsuccess MessagesRequest ∈ evs) /\
  (forall w',
     LocalDatabase.clearAllData E w = (Ok tt, w') ->
     db_settings w' = ∅ /\ db_messages w' = ∅ /\
     forall E' userId limit,
       idb_healthy E' ->
       (LocalDatabase.loadSettings E' userId w').1 = Ok None /\
       (LocalDatabase.loadMessages E' userId limit w').1 = Ok []) /\
  (idb_healthy E -> exists w', LocalDatabase.clearAllData E w = (Ok tt, w')).
Proof.
  split; [apply clear_events_once|]. split; [|split].
  - intros evs Hnd Hres.
    destruct (clear_resolved_after_both evs w Hnd Hres) as (? & ? & _). done.
  - intros w' Hclear.
    destruct (clearAllData_inv _ _ _ Hclear) as [Hs Hm].
    split; [done|]. split; [done|].
    intros E' userId limit HE'.
    rewrite loadSettings_healthy, loadMessages_healthy by done.
    rewrite Hs, Hm, index_get_empty, open_cursor_empty. simpl.
    split; [done|]. by destruct limit.
  - apply clearAllData_healthy.
Qed.

(** ** The message store accessor *)

(** Unfolds the monad and the platform layer. *)
Ltac unfold_js :=
  unfold useMessages.addMessage, useMessages.getMessageCount, useMessages.setMessages,
    LocalDatabase.saveMessage, LocalDatabase.getMessageCount,
    LocalDatabase.store_add, LocalDatabase.request, LocalDatabase.openDB,
    LocalDatabase.isSupported,
    getUserId, localStorage_setItem, crypto_randomUUID, new_Date_toISOString, Date_now,
    emit, console_error, modify, get_world, try_catch, finally, bind, ret, throw in *.

(** Reads a field of a world through the updates made to it. *)
Ltac simpl_world :=
  cbn [storage_user_id storage_settings db_settings db_messages ui_settings
       ui_settings_loading ui_messages ui_isLoading ui_error ui_isSettingsOpen
       uuid_count clock_count console_errors trace
       set_storage_user_id set_storage_settings set_db_settings set_db_messages
       set_ui_settings set_ui_settings_loading set_ui_messages set_ui_isLoading
       set_ui_error set_ui_isSettingsOpen set_uuid_count set_clock_count
       set_console_errors set_trace fst snd negb] in *.

(** Answers a test with what is already known of its subject. *)
Ltac use_known :=
  repeat match goal with
    | H : ?x = _ |- context [match ?x with _ => _ end] => rewrite H
    | H : ?x = _ |- context [if ?x then _ else _] => rewrite H
    | H : ?x = _ |- context [negb ?x] => rewrite H
    end.

(** Decides the next test of the environment or the world that blocks
    evaluation. *)
Ltac step_js :=
  simpl_world; use_known;
  match goal with
  | |- context [negb ?x] =>
      lazymatch x with
      | true => fail
      | false => fail
      | context [match _ with _ => _ end] => fail
      | _ => destruct x eqn:?
      end
  | |- context [match ?x with _ => _ end] =>
      lazymatch x with
      | context [match _ with _ => _ end] => fail
      | _ => destruct x eqn:?
      end
  | |- context [if ?x then _ else _] =>
      lazymatch x with
      | context [if _ then _ else _] => fail
      | context [match _ with _ => _ end] => fail
      | _ => destruct x eqn:?
      end
  end; simpl_world; try congruence.

Ltac not_in_trace :=
  let H := fresh in
  intros ? H;
  repeat (apply elem_of_cons in H as [H|H]; [discriminate H|]);
  by apply not_elem_of_nil in H.

(** C9. [addMessage] puts the message in the in-memory list first, then
    calls the store; whatever the store does, the call resolves and the
    list keeps the message. When the database cannot be opened or the
    write is rejected, nothing is stored and the failure is logged. *)
Theorem addMessage_keeps_message E message w :
  exists w' rest,
    useMessages.addMessage E message w = (Ok tt, w') /\
    ui_messages w' = ui_messages w ++ [message] /\
    trace w' = trace w ++ EvSetMessages (ui_messages w ++ [message]) :: rest /\
    (forall ms, EvSetMessages ms ∉ rest) /\
    (idb_supported E = true -> storage_set_error E = None ->
     exists userId, rest = [EvDbSaveMessage userId (msg_timestamp message)]
                    \/ rest = [EvStorageSet "grok-user-id";
                               EvDbSaveMessage userId (msg_timestamp message)]) /\
    (idb_supported E = true ->
     idb_open_error E <> None \/ idb_request_error E ReqAdd <> None ->
     db_messages w' = db_messages w /\
     last (console_errors w') = Some "Failed to save message to local database:").
Proof.
  unfold_js. cbn.
  repeat step_js; cbn; eexists _, _;
    (split; [reflexivity|]); (split; [reflexivity|]);
    (split; [rewrite <- ?app_assoc; reflexivity|]);
    (split; [not_in_trace|]);
    (split; [intros; try discriminate; eexists; eauto|]);
    intros ? [?|?]; try done; split; try done;
    cbn; by rewrite ?last_snoc.
Qed.



(** ** The settings reconciler *)

Ltac unfold_settings :=
  unfold useSettings.loadSettings, useSettings.updateSettings,
    useSettings.loadLocalDbSettings, useSettings.saveLocalDbSettings,
    useSettings.loadLocalSettings, useSettings.saveLocalSettings,
    useSettings.supabase_select, useSettings.supabase_upsert,
    useSettings.setSettings, useSettings.setIsLoading, useSettings.prefer,
    LocalDatabase.isSupported,
    getUserId, localStorage_setItem, crypto_randomUUID,
    emit, console_error, modify, get_world, try_catch, finally, bind, ret, throw in *.

(** C2. When the object store, read for the user, returns a record with
    a non-empty [api_key], and the remote store is not configured, or its
    query throws or answers with an error, [loadSettings] resolves to that
    record, whatever the flat backup holds. *)
Theorem loadSettings_object_store_first E w c u row :
  let userId := String c u in
  storage_user_id w = Some userId ->
  (LocalDatabase.loadSettings E userId w).1 = Ok (Some row) ->
  ls_api_key row <> "" ->
  (isSupabaseConfigured E = false \/
   (exists e, remote_select E userId = SelThrows e) \/
   remote_select E userId = SelError) ->
  exists w',
    useSettings.loadSettings E w = (Ok tt, w') /\
    ui_settings w' = {| apiKey := ls_api_key row;
                        baseUrl := ls_base_url row;
                        model := ls_model row |} /\
    ui_settings_loading w' = false.
Proof.
  intros userId Hid Hread Hkey Hremote. subst userId.
  apply loadSettings_inv in Hread as (Hs & Ho & Hr & Hrow).
  unfold_settings.
  repeat first [ rewrite loadSettings_readable by done; cbn [fst snd]
               | step_js ].
  all: destruct Hremote as [?|[[? ?]|?]]; simplify_eq/=.
  all: eexists; split; [reflexivity|]; simpl; split; [done|done].
Qed.

Ltac unfold_db :=
  unfold LocalDatabase.saveSettings, LocalDatabase.store_put, LocalDatabase.request,
    LocalDatabase.openDB, new_Date_toISOString, Date_now, crypto_randomUUID,
    emit, console_error, modify, get_world, try_catch, finally, bind, ret, throw in *.

(** Whatever the store does, a call of [saveSettings] settles, is one
    entry of the trace and leaves the rest of the browser alone. *)
Lemma saveSettings_any E userId s w :
  exists r w',
    LocalDatabase.saveSettings E userId s w = (r, w') /\
    trace w' = trace w ++ [EvDbSaveSettings userId s] /\
    ui_settings w' = ui_settings w /\
    storage_settings w' = storage_settings w /\
    storage_user_id w' = storage_user_id w /\
    r <> Never.
Proof.
  unfold_db. repeat step_js; by eexists _, _.
Qed.

(** [saveSettings] keeps what IndexedDB maintains, whether it succeeds or
    not. *)
Lemma saveSettings_wf E userId s w :
  settings_wf (db_settings w) ->
  settings_wf (db_settings (LocalDatabase.saveSettings E userId s w).2).
Proof.
  intros Hwf. unfold LocalDatabase.saveSettings.
  unfold LocalDatabase.request, LocalDatabase.openDB, new_Date_toISOString, Date_now,
    crypto_randomUUID, emit, console_error, modify, get_world, try_catch, bind, ret, throw.
  repeat match goal with
    | |- context [LocalDatabase.store_put E ?row ?W] =>
        let H := fresh "Hput" in
        destruct (LocalDatabase.store_put E row W) as [? ?] eqn:H;
        apply store_put_wf in H; [|exact Hwf]
    | _ => step_js
    end; done.
Qed.

(** [getUserId] leaves the settings alone. *)
Lemma getUserId_settings E w r w0 :
  getUserId E w = (r, w0) ->
  db_settings w0 = db_settings w /\ storage_settings w0 = storage_settings w /\
  ui_settings w0 = ui_settings w.
Proof.
  unfold getUserId, localStorage_setItem, crypto_randomUUID, emit, bind, get_world,
    ret, modify, throw.
  destruct (storage_user_id w) as [[|c u]|]; cbn;
    try destruct (storage_set_error E); cbn; by intros [= <- <-].
Qed.

(** What [updateSettings] leaves in the object store when the store
    works. *)
Lemma updateSettings_stores E newSettings w userId w0 :
  idb_healthy E -> settings_wf (db_settings w) ->
  getUserId E w = (Ok userId, w0) ->
  exists row,
    settings_of_user userId
      (db_settings (useSettings.updateSettings E newSettings w).2) = [row] /\
    saved_fields row = {| in_api_key := apiKey newSettings;
                          in_base_url := baseUrl newSettings;
                          in_model := model newSettings |}.
Proof.
  intros HE Hwf Hid. pose proof HE as (Hsup & _).
  destruct (getUserId_settings E w _ _ Hid) as (Hdb0 & _).
  unfold useSettings.updateSettings.
  erewrite bind_ok by exact Hid. clear Hid.
  unfold_settings.
  repeat first
    [ match goal with
      | |- context [LocalDatabase.saveSettings E ?u ?s ?W] =>
          let H := fresh "Hsave" in
          destruct (saveSettings_spec E u s W HE)
            as (saved & w2 & H & _ & Hone & _ & Hfields & _ & _ & _ & _ & Hui);
            [simpl_world; by rewrite Hdb0|];
          rewrite H; clear H
      end
    | step_js ].
  all: exists saved; simpl_world; done.
Qed.

(** C4, as the code has it. Once [getUserId] has returned, [updateSettings]
    writes the flat backup, then calls the object store if IndexedDB
    exists, then updates the in-memory settings, then upserts to the
    remote store if it is configured, in this order; and it resolves,
    whatever fails on the way. Afterwards the flat backup holds the new
    settings when localStorage took the write, and the object store
    holds one record for the user, with the new settings, when the
    store works. A full localStorage keeps the flat backup it had;
    without IndexedDB the object store is not written. *)
Theorem updateSettings_protocol E newSettings w userId w0 :
  getUserId E w = (Ok userId, w0) ->
  exists w',
    useSettings.updateSettings E newSettings w = (Ok tt, w') /\
    ui_settings w' = newSettings /\
    trace w' =
      trace w0
      ++ [EvStorageSet useSettings.LOCAL_STORAGE_KEY]
      ++ (if idb_supported E
          then [EvDbSaveSettings userId
                  {| in_api_key := apiKey newSettings;
                     in_base_url := baseUrl newSettings;
                     in_model := model newSettings |}]
          else [])
      ++ [EvSetSettings newSettings]
      ++ (if isSupabaseConfigured E
          then [EvRemoteUpsert userId
                  {| rr_api_key := apiKey newSettings;
                     rr_base_url := baseUrl newSettings;
                     rr_model := model newSettings |}]
          else []) /\
    (storage_set_error E = None ->
     storage_settings w' =
       Some (FlatObject (Some (apiKey newSettings)) (Some (baseUrl newSettings))
               (Some (model newSettings)))) /\
    (idb_healthy E -> settings_wf (db_settings w) ->
     exists row,
       settings_of_user userId (db_settings w') = [row] /\
       saved_fields row = {| in_api_key := apiKey newSettings;
                             in_base_url := baseUrl newSettings;
                             in_model := model newSettings |}) /\
    (storage_set_error E <> None -> storage_settings w' = storage_settings w) /\
    (idb_supported E = false -> db_settings w' = db_settings w).
Proof.
  intros Hid.
  destruct (getUserId_settings E w _ _ Hid) as (Hdb0 & Hflat0 & _).
  assert (forall w', useSettings.updateSettings E newSettings w = (Ok tt, w') ->
            idb_healthy E -> settings_wf (db_settings w) ->
            exists row,
              settings_of_user userId (db_settings w') = [row] /\
              saved_fields row = {| in_api_key := apiKey newSettings;
                                    in_base_url := baseUrl newSettings;
                                    in_model := model newSettings |}) as Hstore.
  { intros w' Hrun HE Hwf.
    destruct (updateSettings_stores E newSettings w userId w0 HE Hwf Hid)
      as (row & Hone & Hfields).
    rewrite Hrun in Hone. by exists row. }
  revert Hstore. unfold useSettings.updateSettings.
  erewrite bind_ok by exact Hid. clear Hid.
  unfold_settings.
  repeat first
    [ match goal with
      | |- context [LocalDatabase.saveSettings E ?u ?s ?W] =>
          let H := fresh "Hsave" in
          destruct (saveSettings_any E u s W)
            as (saved & w2 & H & Htrace & Hui & Hstored & _ & Hsettles);
          rewrite H; clear H
      end
    | step_js ].
  all: intros Hstore; eexists; (split; [reflexivity|]); simpl_world.
  all: split; [done|].
  all: split; [rewrite ?Htrace; simpl_world; rewrite <- ?app_assoc; done|].
  all: rewrite ?Hstored; simpl_world.
  all: split; [done || congruence|].
  all: split; [intros HE Hwf; by apply (Hstore _ eq_refl)|].
  all: split; [done || congruence|].
  all: done || congruence.
Qed.

(** C4 as stated fails: in a browser without IndexedDB the object store
    is not written; the call goes from the flat backup to the in-memory
    state. *)
Lemma updateSettings_without_idb_skips_store :
  let w' := (useSettings.updateSettings env_no_idb settings_B world_chatting).2 in
  events_since world_chatting w'
  = [EvStorageSet "grok-chat-settings"; EvSetSettings settings_B;
     EvRemoteUpsert "u" {| rr_api_key := "B"; rr_base_url := "https://api.x.ai";
                           rr_model := "grok-2" |}] /\
  (forall userId s, EvDbSaveSettings userId s ∉ events_since world_chatting w') /\
  db_settings w' = db_settings world_chatting.
Proof.
  cbv zeta.
  assert (events_since world_chatting
            (useSettings.updateSettings env_no_idb settings_B world_chatting).2
          = [EvStorageSet "grok-chat-settings"; EvSetSettings settings_B;
             EvRemoteUpsert "u" {| rr_api_key := "B"; rr_base_url := "https://api.x.ai";
                                   rr_model := "grok-2" |}]) as Hev
    by (vm_compute; reflexivity).
  rewrite Hev. split; [done|]. split; [|by vm_compute].
  intros userId s H.
  repeat (apply elem_of_cons in H as [H|H]; [discriminate H|]).
  by apply not_elem_of_nil in H.
Qed.

(** When [getUserId] cannot store a new identifier, [updateSettings]
    rejects before any tier is written. *)
Lemma updateSettings_rejects_without_user_id :
  let '(r, w') := useSettings.updateSettings env_storage_full settings_B world_empty in
  r = Throw quota /\
  storage_settings w' = None /\ db_settings w' = ∅ /\
  ui_settings w' = useSettings.DEFAULT_SETTINGS.
Proof. by vm_compute. Qed.

(** ** Sending a message *)

Lemma string_app_nil_r (s : string) : s +:+ "" = s.
Proof.
  induction s as [|a s IH]; [done|].
  change (String a (s +:+ "") = String a s). by rewrite IH.
Qed.

Lemma string_app_assoc (a b c : string) : (a +:+ b) +:+ c = a +:+ b +:+ c.
Proof.
  induction a as [|x a IH]; [done|].
  change (String x ((a +:+ b) +:+ c) = String x (a +:+ b +:+ c)). by rewrite IH.
Qed.

Lemma contains_empty s : contains s "".
Proof. exists s, "". by rewrite !string_app_nil_r. Qed.

Lemma contains_end pre t : contains (pre +:+ t) t.
Proof. exists pre, "". by rewrite string_app_nil_r. Qed.

Lemma prefix_app t post : String.prefix t (t +:+ post) = true.
Proof.
  induction t as [|a t IH]; [by destruct post|].
  change (String.prefix (String a t) (String a (t +:+ post)) = true).
  cbn. destruct (Ascii.ascii_dec a a); [done|congruence].
Qed.

Lemma contains_occurs s t : contains s t -> occurs t s = true.
Proof.
  intros (pre & post & ->). induction pre as [|a pre IH].
  - change ("" +:+ t +:+ post) with (t +:+ post).
    destruct (t +:+ post) eqn:Heq; cbn [occurs]; rewrite <- ?Heq, prefix_app; done.
  - change (String a pre +:+ t +:+ post) with (String a (pre +:+ t +:+ post)).
    cbn [occurs]. rewrite IH. by rewrite orb_true_r.
Qed.

Lemma set_console_errors_id w : set_console_errors (console_errors w) w = w.
Proof. by destruct w. Qed.

(** Describing the attachments only logs. *)
Lemma forEach_spec E attachments : forall acc w,
  exists s l, App.forEach E attachments acc w = (Ok s, set_console_errors l w).
Proof.
  induction attachments as [|a rest IH]; intros acc w; simpl.
  - exists acc, (console_errors w). by rewrite set_console_errors_id.
  - unfold bind at 1, App.describe.
    destruct (App.is_text_file a); [destruct (atob E (att_content a))|];
      unfold_db;
      match goal with
      | |- context [App.forEach E rest ?acc' ?W] =>
          destruct (IH acc' W) as (out & logs & ->)
      end; by eexists _, _.
Qed.

Lemma currentMessageContent_spec E content attachments w :
  exists s l,
    App.currentMessageContent E content attachments w = (Ok s, set_console_errors l w).
Proof.
  unfold App.currentMessageContent.
  destruct attachments as [[|a l]|]; try apply forEach_spec;
    exists content, (console_errors w); by rewrite set_console_errors_id.
Qed.

(** What [addMessage] does to the rest of the browser: it never rejects,
    sets no error, and stores at most the message it was given. *)
Lemma addMessage_spec E m w :
  exists w' rest,
    useMessages.addMessage E m w = (Ok tt, w') /\
    ui_messages w' = ui_messages w ++ [m] /\
    ui_error w' = ui_error w /\
    trace w' = trace w ++ rest /\
    (forall e, EvSetError e ∉ rest) /\
    (forall k r, db_messages w' !! k = Some r ->
                 db_messages w !! k = Some r \/ message_of r = m).
Proof.
  destruct m as [role content ts atts].
  unfold_js. cbn [msg_role msg_content msg_timestamp msg_attachments].
  repeat step_js; eexists _, _;
    (split; [reflexivity|]); simpl_world; (split; [reflexivity|]);
    (split; [reflexivity|]);
    (split; [rewrite <- ?app_assoc; reflexivity|]);
    (split; [not_in_trace|]);
    intros k r; rewrite ?lookup_insert; try case_decide; intros; simplify_eq; auto.
Qed.

Lemma events_since_app w w' l : trace w' = trace w ++ l -> events_since w w' = l.
Proof. unfold events_since. intros ->. by rewrite drop_app_length. Qed.

Lemma errors_shown_none rest :
  (forall e, EvSetError e ∉ rest) -> errors_shown rest = [].
Proof.
  intros Hno. apply filter_none. intros ev Hev.
  destruct ev as [| | | | |[e|]| | |]; try done. by specialize (Hno (Some e)).
Qed.

Ltac unfold_send :=
  unfold App.sendMessage, App.do_fetch, App.json, App.errorMsg, App.reply_content,
    App.content_or_else, App.setError, App.setIsLoading, App.setIsSettingsOpen, Date_now,
    emit, console_error, modify, get_world, try_catch, finally, bind, ret, throw in *.

(** Evaluates [sendMessage] up to the calls of [addMessage] and of
    [currentMessageContent], which are replaced by what they leave. *)
Ltac run_send E Hfetch :=
  unfold_send;
  repeat first
    [ rewrite Hfetch
    | match goal with
      | |- context [useMessages.addMessage E ?m ?W] =>
          let w' := fresh "w" in
          let rest := fresh "rest" in
          let H := fresh "Hadd" in
          let Hm := fresh "Hm" in
          let He := fresh "He" in
          let Ht := fresh "Ht" in
          let Hn := fresh "Hn" in
          let Hdb := fresh "Hdb" in
          destruct (addMessage_spec E m W) as (w' & rest & H & Hm & He & Ht & Hn & Hdb);
          rewrite H; clear H
      | |- context [App.currentMessageContent E ?c ?a ?W] =>
          let s := fresh "current" in
          let l := fresh "logs" in
          let H := fresh "Hcur" in
          destruct (currentMessageContent_spec E c a W) as (s & l & H);
          rewrite H; clear H
      end
    | step_js ].

Lemma or_else_contains pre a b d :
  contains (pre +:+ " Error: " +:+ App.or_else a (App.or_else b d))
    match a with
    | Some m => m
    | None => match b with Some m => m | None => d end
    end.
Proof.
  rewrite <- string_app_assoc.
  destruct a as [[|c s]|]; [apply contains_empty|apply contains_end|].
  destruct b as [[|c s]|]; [apply contains_empty|apply contains_end..].
Qed.

Lemma message_of_role r m : message_of r = m -> lm_role r = msg_role m.
Proof. by intros <-. Qed.

(** A response that is not 2xx, with a body other than [null]: one error is
    shown, its text ends with the error message of the response, and the
    only message added, in memory or in the store, is the user's. *)
Lemma sendMessage_http_error E w content attachments response :
  apiKey (ui_settings w) <> "" ->
  (forall req, fetch E req = FetchResponse response) ->
  ok response = false ->
  body response <> BodyNull ->
  exists w' text,
    App.sendMessage E content attachments w = (Ok tt, w') /\
    ui_error w' = Some text /\
    contains text (response_error_message response) /\
    errors_shown (events_since w w') = [EvSetError (Some text)] /\
    ui_messages w'
    = ui_messages w ++ [user_message content attachments (clock E (clock_count w))] /\
    (forall k r, db_messages w' !! k = Some r -> lm_role r = assistant ->
                 db_messages w !! k = Some r).
Proof.
  intros Hkey Hfetch Hok Hbody.
  run_send E Hfetch.
  all: eexists _, _; (split; [reflexivity|]); simpl_world.
  all: split; [reflexivity|].
  all: split;
    [unfold response_error_message; rewrite Heqb0; apply or_else_contains|].
  all: split;
    [erewrite events_since_app
       by (simpl_world; rewrite Ht, <- !app_assoc; reflexivity);
     unfold errors_shown; rewrite filter_app;
     fold (errors_shown rest); by rewrite errors_shown_none|].
  all: split; [exact Hm|].
  all: intros k r Hr Hrole; destruct (Hdb k r Hr) as [|Hmsg]; [done|].
  all: apply message_of_role in Hmsg; simpl in Hmsg; congruence.
Qed.

(** The usual case: [401 Unauthorized] with an [error.message]. *)
Example sendMessage_invalid_key :
  let w' := (App.sendMessage (env_endpoint response_401) "hi" None world_ready).2 in
  ui_error w' = Some "401 Error: Invalid API key" /\
  ui_messages w' = ui_messages world_ready ++ [user_message "hi" None 1002] /\
  db_messages w' = <["id-2" := {| lm_id := "id-2"; lm_user_id := "u"; lm_role := user;
                                  lm_content := "hi"; lm_timestamp := 1002;
                                  lm_attachments := None; lm_created_at := "1003" |}]>
                     (db_messages world_ready).
Proof. by vm_compute. Qed.

(** C8 fails on the code for one body. A response [500 Internal Server
    Error] whose body is the JSON literal [null] has no [error.message]
    and no [message], so the text should carry the status text; but
    reading [errorData.error] throws, and the error shown is the
    message of that [TypeError]. *)
Theorem sendMessage_null_error_body :
  let w' := (App.sendMessage (env_endpoint response_500_null) "hi" None world_ready).2 in
  ok response_500_null = false /\
  response_error_message response_500_null = "Internal Server Error" /\
  ui_error w' = Some "Cannot read properties of null (reading 'error')" /\
  ~ contains "Cannot read properties of null (reading 'error')"
             (response_error_message response_500_null).
Proof.
  cbv zeta. split; [done|]. split; [done|]. split; [by vm_compute|].
  intros H%contains_occurs. vm_compute in H. discriminate H.
Qed.

(** A 2xx response in which [choices[0].message.content] is absent or is
    the empty string: an assistant message added to the conversation has
    the content ['No response from AI']; one is added, right after the
    user's message, whenever the body is a JSON value other than
    [null]. *)
Lemma sendMessage_empty_reply E w content attachments response :
  apiKey (ui_settings w) <> "" ->
  (forall req, fetch E req = FetchResponse response) ->
  ok response = true ->
  reply_value response = None \/ reply_value response = Some (ContentText "") ->
  exists w' added,
    App.sendMessage E content attachments w = (Ok tt, w') /\
    ui_messages w'
    = ui_messages w
      ++ user_message content attachments (clock E (clock_count w)) :: added /\
    (forall m, m ∈ added ->
       msg_role m = assistant /\ msg_content m = "No response from AI") /\
    (forall o, body response = BodyObject o ->
       exists now,
         added = [{| msg_role := assistant;
                     msg_content := "No response from AI";
                     msg_timestamp := now;
                     msg_attachments := None |}] /\
         ui_error w' = None).
Proof.
  intros Hkey Hfetch Hok Hcontent. unfold reply_value in Hcontent.
  destruct (body response) as [e| |o] eqn:Hbody;
    [| |destruct (choice0_content o) as [[[|c s]|shown]|] eqn:Hvalue;
        [|by destruct Hcontent..|]].
  all: run_send E Hfetch.
  all: eexists _, _; (split; [reflexivity|]); simpl_world.
  all: rewrite ?Hm0, Hm, <- ?app_assoc.
  all: try (split; [reflexivity|];
            split; [by intros m ?%not_elem_of_nil|]; by intros o' [=]).
  all: split; [reflexivity|].
  all: split; [by intros m ->%list_elem_of_singleton|].
  all: intros o' [= <-]; eexists; split; [reflexivity|by rewrite He0].
Qed.

(** C10 fails on the code for one body. A response [200 OK] whose body is
    the JSON literal [null] has no [choices[0].message.content], so the
    assistant message ['No response from AI'] should be appended; but
    reading [data.choices] throws, the send appends the user's message
    only, and the message of that [TypeError] is shown. *)
Theorem sendMessage_null_reply_body :
  let w' := (App.sendMessage (env_endpoint response_200_null) "hi" None world_ready).2 in
  ok response_200_null = true /\
  reply_value response_200_null = None /\
  ui_messages w' = ui_messages world_ready ++ [user_message "hi" None 1002] /\
  (forall m, m ∈ ui_messages w' -> msg_content m <> "No response from AI") /\
  ui_error w' = Some "Cannot read properties of null (reading 'choices')".
Proof.
  cbv zeta.
  assert (ui_messages
            (App.sendMessage (env_endpoint response_200_null) "hi" None world_ready).2
          = [text_message user "hi" 10; text_message assistant "hello" 20;
             user_message "hi" None 1002]) as Hlist by (vm_compute; reflexivity).
  split; [done|]. split; [done|]. split; [by vm_compute|].
  split; [|by vm_compute].
  intros m Hm. rewrite Hlist in Hm.
  repeat (apply elem_of_cons in Hm as [->|Hm]; [discriminate|]).
  by apply not_elem_of_nil in Hm.
Qed.

(** ** Deleting records *)

Lemma lookup_foldr_delete {A} (l : list (string * A)) (m : gmap string A) k :
  foldr (fun entry m => delete entry.1 m) m l !! k =
  if decide (k ∈ l.*1) then None else m !! k.
Proof.
  induction l as [|[k' r] l IH]; cbn [foldr fmap list_fmap fst].
  - rewrite decide_False by apply not_elem_of_nil. reflexivity.
  - destruct (decide (k = k')) as [->|Hne].
    + rewrite lookup_delete_eq, decide_True by (apply elem_of_cons; by left). reflexivity.
    + rewrite lookup_delete_ne, IH by done.
      destruct (decide (k ∈ l.*1)) as [Hin|Hnin].
      * rewrite decide_True by (apply elem_of_cons; by right). reflexivity.
      * rewrite decide_False; [reflexivity|].
        intros [?|?]%elem_of_cons; done.
Qed.

Lemma deleted_entries userId (m : gmap string LocalMessage) :
  foldr (fun entry m => delete entry.1 m) m (entries_of_user userId m) =
  filter (fun entry => lm_user_id entry.2 <> userId) m.
Proof.
  apply map_eq. intros k. rewrite lookup_foldr_delete.
  destruct (decide (k ∈ (entries_of_user userId m).*1)) as [Hin|Hnin].
  - symmetry. apply map_lookup_filter_None. right. intros r Hr Hne.
    apply list_elem_of_fmap in Hin as ([k' r'] & -> & Hin).
    apply list_elem_of_filter in Hin as [Hu Hin].
    apply elem_of_map_to_list in Hin. cbn in *. congruence.
  - destruct (m !! k) as [r|] eqn:Hk.
    + symmetry. apply map_lookup_filter_Some. split; [done|].
      cbn. intros Hu. apply Hnin. apply list_elem_of_fmap.
      exists (k, r). split; [done|].
      apply list_elem_of_filter. split; [done|]. by apply elem_of_map_to_list.
    + symmetry. apply map_lookup_filter_None. by left.
Qed.

Lemma filter_fmap_snd {A} (P : A -> Prop) `{!forall x, Decision (P x)}
    (l : list (string * A)) :
  (filter (fun entry => P entry.2) l).*2 = filter P (l.*2).
Proof.
  induction l as [|[k r] l IH]; [reflexivity|].
  rewrite fmap_cons, !filter_cons. cbn [snd].
  destruct (decide (P r)); rewrite ?fmap_cons, IH; reflexivity.
Qed.

Lemma rows_filter {A} (P : A -> Prop) `{!forall x, Decision (P x)}
    (m : gmap string A) :
  rows (filter (fun entry => P entry.2) m) ≡ₚ filter P (rows m).
Proof.
  unfold rows. rewrite <- filter_fmap_snd. apply fmap_Permutation.
  apply NoDup_Permutation.
  - apply NoDup_map_to_list.
  - apply NoDup_filter, NoDup_map_to_list.
  - intros [k r]. rewrite list_elem_of_filter, !elem_of_map_to_list.
    rewrite map_lookup_filter_Some. cbn. tauto.
Qed.

Lemma rows_deleted userId (m : gmap string LocalMessage) :
  rows (filter (fun entry => lm_user_id entry.2 <> userId) m)
  ≡ₚ filter (fun r => lm_user_id r <> userId) (rows m).
Proof. exact (rows_filter (fun r => lm_user_id r <> userId) m). Qed.

Lemma filter_rows_frame (Q : LocalMessage -> Prop) `{!forall r, Decision (Q r)}
    userId (m : gmap string LocalMessage) :
  (forall r, Q r -> lm_user_id r <> userId) ->
  filter Q (rows (filter (fun entry => lm_user_id entry.2 <> userId) m))
  ≡ₚ filter Q (rows m).
Proof.
  intros HQ. rewrite rows_deleted, list_filter_filter.
  erewrite list_filter_iff; [reflexivity|].
  intros r. cbn. split; [tauto|]. intros Hr. split; [done|]. by apply HQ.
Qed.

Lemma messages_of_user_deleted userId (m : gmap string LocalMessage) :
  messages_of_user userId (filter (fun entry => lm_user_id entry.2 <> userId) m) = [].
Proof.
  apply filter_none. intros r Hr. rewrite rows_deleted in Hr.
  apply list_elem_of_filter in Hr as [Hne _]. done.
Qed.

Lemma open_cursor_deleted userId now (m : gmap string LocalMessage) :
  open_cursor userId now (filter (fun entry => lm_user_id entry.2 <> userId) m) = [].
Proof.
  unfold open_cursor. rewrite filter_none; [reflexivity|].
  intros r Hr [Hu _]%in_bound_user. rewrite rows_deleted in Hr.
  apply list_elem_of_filter in Hr as [Hne _]. done.
Qed.

Lemma cursor_le_antisymm (m : gmap string LocalMessage) a b :
  messages_wf m -> a ∈ rows m -> b ∈ rows m ->
  cursor_le a b -> cursor_le b a -> a = b.
Proof.
  intros Hwf [ka Ha]%elem_of_rows [kb Hb]%elem_of_rows Hab Hba.
  assert (lm_id a = lm_id b) as Hid.
  { unfold cursor_le, str_lt, str_le in *.
    destruct Hab as [[H1 H2]|[Hu [Ht|[Ht H1]]]], Hba as [[H3 H4]|[Hu' [Ht'|[Ht' H3]]]];
      try lia; try congruence.
    - exfalso. apply H2. by apply (anti_symm String.le).
    - by apply (anti_symm String.le). }
  rewrite (Hwf _ _ Ha), (Hwf _ _ Hb) in Hid. congruence.
Qed.

(** Two stores that hold the same records in range deliver them to a
    cursor in the same order. *)
Lemma open_cursor_perm_eq userId now (m1 m2 : gmap string LocalMessage) :
  messages_wf m2 ->
  filter (fun r => in_bound (userId, 0) (userId, now) (user_timestamp r)) (rows m1)
  ≡ₚ filter (fun r => in_bound (userId, 0) (userId, now) (user_timestamp r)) (rows m2) ->
  open_cursor userId now m1 = open_cursor userId now m2.
Proof.
  intros Hwf Hperm.
  apply (StronglySorted_unique_strong cursor_le); [|apply open_cursor_sorted..|].
  - intros a b Ha Hb. unfold open_cursor in Ha, Hb.
    rewrite merge_sort_Permutation in Ha, Hb. rewrite Hperm in Ha.
    apply list_elem_of_filter in Ha as [_ Ha].
    apply list_elem_of_filter in Hb as [_ Hb].
    by apply (cursor_le_antisymm m2).
  - unfold open_cursor. by rewrite !merge_sort_Permutation.
Qed.

Lemma deleteMessages_healthy E userId w :
  idb_healthy E ->
  LocalDatabase.deleteMessages E None userId w =
  (Ok tt, set_db_messages
            (filter (fun entry => lm_user_id entry.2 <> userId) (db_messages w)) w).
Proof.
  intros HE. unfold LocalDatabase.deleteMessages.
  rewrite request_healthy by done. unfold bind, try_catch.
  rewrite openDB_healthy by done. cbn.
  rewrite deleted_entries. by destruct (entries_of_user _ _).
Qed.

(** X1. In every environment, and whatever happens to the delete
    requests, [deleteMessages(userId)] either resolves, and then the
    messages store holds exactly the records it held for the other users,
    or rejects, and then the messages store is as it was. The settings
    store, localStorage and the in-memory list are left alone. *)
Theorem deleteMessages_all_or_nothing E delete_error userId w :
  let '(r, w') := LocalDatabase.deleteMessages E delete_error userId w in
  match r with
  | Ok _ => db_messages w' =
            filter (fun entry => lm_user_id entry.2 <> userId) (db_messages w)
  | Throw _ => db_messages w' = db_messages w
  | Never => False
  end /\
  db_settings w' = db_settings w /\
  storage_settings w' = storage_settings w /\
  storage_user_id w' = storage_user_id w /\
  ui_messages w' = ui_messages w.
Proof.
  unfold LocalDatabase.deleteMessages, LocalDatabase.openDB, LocalDatabase.request,
    bind, try_catch, throw, ret, console_error, modify, get_world.
  destruct (idb_supported E), (idb_open_error E), (idb_request_error E ReqCursor);
    cbn; try done.
  pose proof (deleted_entries userId (db_messages w)) as Hdel.
  destruct (entries_of_user userId (db_messages w)) as [|entry cursor], delete_error;
    cbn; rewrite <- ?Hdel; done.
Qed.

(** X2. On a working store [deleteMessages(userId)] resolves; afterwards
    [loadMessages] returns no message and [getMessageCount] returns [0]
    for that user, and both return for every other user what they
    returned before. *)
Theorem deleteMessages_removes_only_that_user E E' userId w :
  idb_healthy E -> idb_healthy E' -> messages_wf (db_messages w) ->
  exists w',
    LocalDatabase.deleteMessages E None userId w = (Ok tt, w') /\
    (forall limit, (LocalDatabase.loadMessages E' userId limit w').1 = Ok []) /\
    (LocalDatabase.getMessageCount E' userId w').1 = Ok 0%nat /\
    forall other, other <> userId ->
      (forall limit, (LocalDatabase.loadMessages E' other limit w').1 =
                     (LocalDatabase.loadMessages E' other limit w).1) /\
      (LocalDatabase.getMessageCount E' other w').1 =
      (LocalDatabase.getMessageCount E' other w).1.
Proof.
  intros HE HE' Hwf. eexists. split; [by apply deleteMessages_healthy|].
  split; [|split].
  - intros limit. rewrite loadMessages_healthy by done. cbn.
    rewrite open_cursor_deleted. by destruct limit.
  - unfold LocalDatabase.getMessageCount.
    rewrite request_healthy by done. unfold bind, try_catch.
    rewrite openDB_healthy by done. cbn. by rewrite messages_of_user_deleted.
  - intros other Hne. split.
    + intros limit. rewrite !loadMessages_healthy by done. cbn.
      f_equal. f_equal. apply open_cursor_perm_eq; [done|].
      apply filter_rows_frame. intros r [Hu _]%in_bound_user. congruence.
    + unfold LocalDatabase.getMessageCount.
      rewrite !request_healthy by done. unfold bind, try_catch.
      rewrite !openDB_healthy by done. cbn. f_equal.
      unfold messages_of_user. rewrite filter_rows_frame; [done|].
      intros r. congruence.
Qed.

Lemma index_get_wf userId (m : gmap string LocalSettings) r :
  settings_wf m ->
  index_get userId m = Some r <-> r ∈ rows m /\ ls_user_id r = userId.
Proof.
  intros [Hkey Huniq]. split; [apply index_get_elem|]. intros [Hr Hu].
  destruct (index_get userId m) as [r'|] eqn:Hget.
  - apply index_get_elem in Hget as [Hr' Hu'].
    apply elem_of_rows in Hr as [k Hk]. apply elem_of_rows in Hr' as [k' Hk'].
    assert (k' = k) as -> by (eapply Huniq; [done..|congruence]).
    congruence.
  - exfalso. by eapply index_get_none in Hget.
Qed.

Lemma index_get_ext userId (m1 m2 : gmap string LocalSettings) :
  settings_wf m1 -> settings_wf m2 ->
  (forall r, ls_user_id r = userId -> r ∈ rows m1 <-> r ∈ rows m2) ->
  index_get userId m1 = index_get userId m2.
Proof.
  intros Hwf1 Hwf2 Hsame.
  destruct (index_get userId m1) as [r|] eqn:H1.
  - symmetry. apply index_get_wf in H1 as [Hr Hu]; [|done].
    apply index_get_wf; [done|]. split; [by apply Hsame|done].
  - destruct (index_get userId m2) as [r|] eqn:H2; [|done].
    apply index_get_wf in H2 as [Hr Hu]; [|done].
    exfalso. eapply index_get_none in H1; [done|by apply Hsame].
Qed.

Lemma settings_wf_delete k (m : gmap string LocalSettings) :
  settings_wf m -> settings_wf (delete k m).
Proof.
  intros [Hkey Huniq]. split.
  - intros k' r [_ Hr]%lookup_delete_Some. by apply Hkey.
  - intros k1 k2 r1 r2 [_ H1]%lookup_delete_Some [_ H2]%lookup_delete_Some.
    by apply Huniq.
Qed.

Ltac split_goal := repeat match goal with |- _ /\ _ => split end.

Ltac not_healthy :=
  let H := fresh in
  intros (? & ? & H); try rewrite H in *; congruence.

(** X3. [deleteSettings(userId)] on a store that keeps its index: when it
    resolves, [loadSettings] finds nothing for that user and finds for
    every other user what it found before; when it rejects, the settings
    store is as it was. On a working store it resolves, also when the
    user has no record. The messages store and localStorage are left
    alone. *)
Theorem deleteSettings_removes_only_that_user E delete_error userId w :
  settings_wf (db_settings w) ->
  let '(r, w') := LocalDatabase.deleteSettings E delete_error userId w in
  match r with
  | Ok _ =>
      forall E', idb_healthy E' ->
        (LocalDatabase.loadSettings E' userId w').1 = Ok None /\
        forall other, other <> userId ->
          (LocalDatabase.loadSettings E' other w').1 =
          (LocalDatabase.loadSettings E' other w).1
  | Throw _ => db_settings w' = db_settings w
  | Never => False
  end /\
  (idb_healthy E -> delete_error = None -> r = Ok tt) /\
  settings_wf (db_settings w') /\
  db_messages w' = db_messages w /\
  storage_settings w' = storage_settings w /\
  storage_user_id w' = storage_user_id w.
Proof.
  intros Hwf.
  unfold LocalDatabase.deleteSettings, LocalDatabase.openDB, LocalDatabase.request,
    bind, try_catch, throw, ret, console_error, modify, get_world.
  destruct (idb_supported E) eqn:Hsup, (idb_open_error E) eqn:Hopen,
    (idb_request_error E ReqGet) eqn:Hreq; cbn;
    try (split_goal; solve [done|not_healthy]).
  destruct (index_get userId (db_settings w)) as [result|] eqn:Hget.
  - destruct delete_error as [de|]; cbn; [by split_goal|].
    split_goal; try done; [|by apply settings_wf_delete].
    intros E' HE'. split; [|intros other Hne];
      rewrite !loadSettings_healthy by done; cbn; f_equal.
    + apply index_get_none.
      apply (others_of_user_absent _ _ _ Hwf). intros r Hr. congruence.
    + apply index_get_ext; [by apply settings_wf_delete|done|].
      intros r Hu. rewrite !elem_of_rows.
      apply index_get_elem in Hget as [[kr Hkr]%elem_of_rows Hres].
      split.
      * intros [k [_ Hk]%lookup_delete_Some]. eauto.
      * intros [k Hk]. exists k. apply lookup_delete_Some. split; [|done].
        intros <-. destruct Hwf as [Hkey Huniq].
        rewrite (Hkey _ _ Hkr) in Hk. congruence.
  - cbn. split_goal; try done. intros E' HE'.
    rewrite loadSettings_healthy by done. by cbn; rewrite Hget.
Qed.


Lemma messages_of_user_insert userId (m : gmap string LocalMessage) k row :
  m !! k = None -> lm_user_id row = userId ->
  messages_of_user userId (<[k := row]> m) ≡ₚ row :: messages_of_user userId m.
Proof.
  intros Hk Hu. unfold messages_of_user.
  rewrite rows_insert, delete_id by done.
  rewrite filter_cons, decide_True by done. reflexivity.
Qed.

(** X4. [saveMessage] never replaces or removes a record. In every
    environment it either resolves, having added one record for the user
    under a key that was free (the user's count grows by one), or rejects
    and leaves the messages store as it was. On a working store it
    rejects exactly when the generated identifier is already a key of the
    store. The settings store is left alone. *)
Theorem saveMessage_adds_one_or_nothing E userId message w :
  let '(r, w') := LocalDatabase.saveMessage E userId message w in
  match r with
  | Ok _ =>
      exists row,
        db_messages w !! lm_id row = None /\
        db_messages w' = <[lm_id row := row]> (db_messages w) /\
        message_of row = message /\ lm_user_id row = userId /\
        length (messages_of_user userId (db_messages w')) =
        S (length (messages_of_user userId (db_messages w)))
  | Throw _ => db_messages w' = db_messages w
  | Never => False
  end /\
  (idb_healthy E ->
   r = Ok tt <-> db_messages w !! randomUUID E (uuid_count w) = None) /\
  db_settings w' = db_settings w.
Proof.
  unfold LocalDatabase.saveMessage, LocalDatabase.store_add, LocalDatabase.openDB,
    LocalDatabase.request, new_Date_toISOString, Date_now, crypto_randomUUID,
    emit, bind, try_catch, throw, ret, console_error, modify, get_world.
  destruct (idb_supported E) eqn:Hsup, (idb_open_error E) eqn:Hopen,
    (idb_request_error E ReqAdd) eqn:Hreq; cbn;
    try (split_goal; solve [done|not_healthy]).
  destruct (db_messages w !! randomUUID E (uuid_count w)) eqn:Hk; cbn.
  - by split_goal.
  - split_goal; try done.
    exists {| lm_id := randomUUID E (uuid_count w);
              lm_user_id := userId;
              lm_role := msg_role message;
              lm_content := msg_content message;
              lm_timestamp := msg_timestamp message;
              lm_attachments := msg_attachments message;
              lm_created_at := toISOString E (clock E (clock_count w)) |}.
    split_goal; [exact Hk|reflexivity|by destruct message|done|].
    by rewrite messages_of_user_insert.
Qed.

(** X5. The user identifier is generated once: after a call of
    [getUserId] has returned a non-empty identifier, every later call, in
    any environment, returns the same identifier and changes nothing. *)
Theorem getUserId_stable E E' w userId w1 :
  getUserId E w = (Ok userId, w1) -> userId <> "" ->
  getUserId E' w1 = (Ok userId, w1).
Proof.
  unfold getUserId, localStorage_setItem, crypto_randomUUID, emit,
    bind, throw, ret, modify, get_world.
  intros Hid Hne.
  destruct (storage_user_id w) as [[|c u]|] eqn:Hw; cbn in Hid;
    try (destruct (storage_set_error E); cbn in Hid);
    simplify_eq; cbn; try rewrite Hw; try done;
    by destruct (randomUUID E (uuid_count w)).
Qed.

Lemma cursor_loop_any limit cursor :
  cursor_loop limit [] cursor =
  match limit with
  | None => cursor
  | Some n => if n =? 0 then cursor else take (Z.to_nat (Z.max 1 n)) cursor
  end.
Proof.
  destruct limit as [n|]; [|by rewrite cursor_loop_unlimited].
  destruct (Z.eqb_spec n 0) as [->|Hn0]; [by rewrite cursor_loop_zero|].
  destruct (Z.ltb_spec n 0).
  - rewrite cursor_loop_negative by done. by rewrite Z.max_l by lia.
  - rewrite cursor_loop_positive by (simpl; lia). simpl.
    by rewrite Z.max_r, Nat.sub_0_r by lia.
Qed.

(** X6. Whatever the limit, [loadMessages] returns a prefix of what it
    returns without a limit, and never an empty list when there is a
    message to return; a negative limit gives the first message alone. *)
Theorem loadMessages_any_limit E userId limit w :
  idb_healthy E ->
  exists all result,
    (LocalDatabase.loadMessages E userId None w).1 = Ok all /\
    (LocalDatabase.loadMessages E userId limit w).1 = Ok result /\
    result `prefix_of` all /\
    (all <> [] -> result <> []) /\
    forall n, limit = Some n -> n < 0 -> result = take 1 all.
Proof.
  intros HE. do 2 eexists. rewrite !loadMessages_healthy by done. cbn.
  split; [reflexivity|]. split; [reflexivity|].
  rewrite !cursor_loop_any.
  set (all := open_cursor _ _ _).
  split; [|split].
  - destruct limit as [n|]; [|done]. destruct (n =? 0); [done|apply prefix_take].
  - destruct limit as [n|]; [|done]. destruct (n =? 0); [done|].
    destruct all; [done|]. intros _.
    destruct (Z.to_nat (Z.max 1 n)) eqn:Hk; [lia|done].
  - intros n -> Hn. destruct (Z.eqb_spec n 0); [lia|]. by rewrite Z.max_l by lia.
Qed.

(** X7. [saveSettings] for one user does not change what [loadSettings]
    finds for any other user, in whatever environment the save runs,
    provided that the identifier generated for a user without a record is
    not yet a key of the store. *)
Theorem saveSettings_other_users E userId settings w :
  settings_wf (db_settings w) ->
  (index_get userId (db_settings w) = None ->
   db_settings w !! randomUUID E (uuid_count w) = None) ->
  forall E' other, idb_healthy E' -> other <> userId ->
    (LocalDatabase.loadSettings E' other
       (LocalDatabase.saveSettings E userId settings w).2).1 =
    (LocalDatabase.loadSettings E' other w).1.
Proof.
  intros Hwf Hfresh E' other HE' Hne.
  rewrite !loadSettings_healthy by done. cbn [fst]. f_equal.
  unfold LocalDatabase.saveSettings, LocalDatabase.store_put, LocalDatabase.openDB,
    LocalDatabase.request, new_Date_toISOString, Date_now, crypto_randomUUID,
    emit, bind, try_catch, throw, ret, console_error, modify, get_world.
  destruct (idb_supported E), (idb_open_error E), (idb_request_error E ReqGet),
    (idb_request_error E ReqPut); cbn; try done.
  match goal with
  | |- context [index_get (ls_user_id ?row) (delete (ls_id ?row) _)] =>
      set (settingsData := row)
  end.
  destruct (index_get (ls_user_id settingsData) (delete (ls_id settingsData) _))
    eqn:Hcheck; cbn; [done|].
  assert (ls_user_id settingsData = userId) as Huser
    by (subst settingsData; by destruct (index_get userId _)).
  apply index_get_ext; [|done|].
  { apply settings_wf_insert; [done|]. by apply index_get_none. }
  intros r Hr. rewrite !elem_of_rows. split.
  - intros [k [[_ <-]|[_ Hk]]%lookup_insert_Some]; [congruence|eauto].
  - intros [k Hk]. exists k. apply lookup_insert_Some. right. split; [|done].
    intros <-. subst settingsData.
    destruct (index_get userId (db_settings w)) as [existing|] eqn:Hget; cbn in Hk.
    + apply index_get_elem in Hget as [[ke Hke]%elem_of_rows Hue].
      destruct Hwf as [Hkey _]. rewrite (Hkey _ _ Hke) in Hk. congruence.
    + rewrite Hfresh in Hk; done.
Qed.

(** The proviso is needed: a generated identifier that is the key of
    another user's record replaces that record. *)
Example saveSettings_key_collision :
  let w := set_uuid_count 0 world_A_B in
  (LocalDatabase.loadSettings env_ok "u" w).1 <> Ok None /\
  (LocalDatabase.loadSettings env_ok "u"
     (LocalDatabase.saveSettings env_ok "v" input_A w).2).1 = Ok None.
Proof. split; [by vm_compute|by vm_compute]. Qed.

(** ** Invariants *)

Section Preserves.
Context (I : World -> Prop).

Lemma preserves_ret {A} (a : A) : preserves I (ret a).
Proof. by intros w Hw. Qed.

Lemma preserves_throw {A} e : preserves I (@throw A e).
Proof. by intros w Hw. Qed.

Lemma preserves_never {A} : preserves I (@never A).
Proof. by intros w Hw. Qed.

Lemma preserves_get_world : preserves I get_world.
Proof. by intros w Hw. Qed.

Lemma preserves_bind {A B} (m : M A) (f : A -> M B) :
  preserves I m -> (forall a, preserves I (f a)) -> preserves I (bind m f).
Proof.
  intros Hm Hf w Hw. unfold bind. specialize (Hm w Hw).
  destruct (m w) as [[a|e|] w']; [by apply Hf|done..].
Qed.

Lemma preserves_try_catch {A} (m : M A) h :
  preserves I m -> (forall e, preserves I (h e)) -> preserves I (try_catch m h).
Proof.
  intros Hm Hh w Hw. unfold try_catch. specialize (Hm w Hw).
  destruct (m w) as [[a|e|] w']; [done|by apply Hh|done].
Qed.

Lemma preserves_finally {A} (m : M A) f :
  preserves I m -> preserves I f -> preserves I (finally m f).
Proof.
  intros Hm Hf w Hw. unfold finally. specialize (Hm w Hw).
  destruct (m w) as [[a|e|] w']; [| |done]; specialize (Hf w' Hm);
    by destruct (f w') as [[[]|e'|] w''].
Qed.

Lemma preserves_modify f :
  (forall w, I w -> I (f w)) -> preserves I (modify f).
Proof. intros Hf w Hw. by apply Hf. Qed.

Lemma preservesP_ret {A} (a : A) : preservesP I (retP a).
Proof. by intros p Hp. Qed.

Lemma preservesP_bind {A B} (m : P A) (f : A -> P B) :
  preservesP I m -> (forall a, preservesP I (f a)) -> preservesP I (bindP m f).
Proof.
  intros Hm Hf p Hp. unfold bindP. specialize (Hm p Hp).
  destruct (m p) as [[a|e|] p']; [by apply Hf|done..].
Qed.

Lemma preservesP_try_catch {A} (m : P A) h :
  preservesP I m -> (forall e, preservesP I (h e)) -> preservesP I (try_catchP m h).
Proof.
  intros Hm Hh p Hp. unfold try_catchP. specialize (Hm p Hp).
  destruct (m p) as [[a|e|] p']; [done|by apply Hh|done].
Qed.

Lemma preservesP_finally {A} (m : P A) f :
  preservesP I m -> preservesP I f -> preservesP I (finallyP m f).
Proof.
  intros Hm Hf p Hp. unfold finallyP. specialize (Hm p Hp).
  destruct (m p) as [[a|e|] p']; [| |done]; specialize (Hf p' Hm);
    by destruct (f p') as [[[]|e'|] p''].
Qed.

Lemma preservesP_lift {A} (m : M A) : preserves I m -> preservesP I (lift m).
Proof.
  intros Hm p Hp. unfold lift. specialize (Hm _ Hp).
  by destruct (m (page_world p)) as [r w'].
Qed.

Lemma preservesP_void {A} (m : P A) : preservesP I m -> preservesP I (void m).
Proof.
  intros Hm p Hp. unfold void. specialize (Hm p Hp).
  by destruct (m p) as [[a|e|] p'].
Qed.

Lemma preservesP_alert text : preservesP I (alert text).
Proof. by intros p Hp. Qed.

Lemma preservesP_reload : preservesP I window_location_reload.
Proof. by intros p Hp. Qed.

Lemma preservesP_setIsLoading b : preservesP I (useMessages.setIsLoading b).
Proof. by intros p Hp. Qed.
End Preserves.

(** One step of a proof that a computation preserves an invariant: the
    shape of the computation decides; [solve_modify] shows that a write
    of world fields keeps the invariant. *)
Ltac preserves_step solve_primitive :=
  lazymatch goal with
  | |- preserves _ (bind _ _) => apply preserves_bind; [|intros ?; cbn beta]
  | |- preserves _ (try_catch _ _) => apply preserves_try_catch; [|intros ?; cbn beta]
  | |- preserves _ (finally _ _) => apply preserves_finally
  | |- preserves _ (ret _) => apply preserves_ret
  | |- preserves _ (throw _) => apply preserves_throw
  | |- preserves _ never => apply preserves_never
  | |- preserves _ get_world => apply preserves_get_world
  | |- preserves _ (if ?b then _ else _) => destruct b
  | |- preserves _ (match ?x with _ => _ end) => destruct x
  | |- preservesP _ (bindP _ _) => apply preservesP_bind; [|intros ?; cbn beta]
  | |- preservesP _ (try_catchP _ _) => apply preservesP_try_catch; [|intros ?; cbn beta]
  | |- preservesP _ (finallyP _ _) => apply preservesP_finally
  | |- preservesP _ (retP _) => apply preservesP_ret
  | |- preservesP _ (lift _) => apply preservesP_lift
  | |- preservesP _ (void _) => apply preservesP_void
  | |- preservesP _ (alert _) => apply preservesP_alert
  | |- preservesP _ window_location_reload => apply preservesP_reload
  | |- preservesP _ (useMessages.setIsLoading _) => apply preservesP_setIsLoading
  | |- preservesP _ (if ?b then _ else _) => destruct b
  | |- preservesP _ (match ?x with _ => _ end) => destruct x
  | |- _ => solve_primitive
  end.


(** *** The stores keep their indexes *)

Ltac wf_primitive :=
  first [ solve [auto with wf]
        | let w := fresh "w" in let Hw := fresh "Hw" in intros w Hw; exact Hw ].

Ltac wf_steps := repeat preserves_step wf_primitive.

Lemma messages_wf_insert (m : gmap string LocalMessage) row :
  messages_wf m -> messages_wf (<[lm_id row := row]> m).
Proof.
  intros Hwf k r [[<- <-]|[_ Hk]]%lookup_insert_Some; [done|by apply Hwf].
Qed.

Lemma messages_wf_foldr_delete (l : list (string * LocalMessage))
    (m : gmap string LocalMessage) :
  messages_wf m -> messages_wf (foldr (fun entry m => delete entry.1 m) m l).
Proof.
  intros Hwf. induction l as [|entry l IH]; [done|].
  cbn [foldr]. intros k r [_ Hk]%lookup_delete_Some. by apply IH.
Qed.

Lemma store_add_wf E row : preserves stores_wf (LocalDatabase.store_add E row).
Proof.
  intros w [Hs Hm].
  unfold LocalDatabase.store_add, LocalDatabase.request,
    bind, throw, ret, console_error, modify, get_world.
  destruct (idb_request_error E ReqAdd); cbn; [done|].
  destruct (db_messages w !! lm_id row); cbn; [done|].
  split; [done|by apply messages_wf_insert].
Qed.

Lemma store_put_stores_wf E row : preserves stores_wf (LocalDatabase.store_put E row).
Proof.
  intros w [Hs Hm].
  destruct (LocalDatabase.store_put E row w) as [r w'] eqn:Hput.
  split; [by eapply store_put_wf|]. revert Hput.
  unfold LocalDatabase.store_put, LocalDatabase.request,
    bind, throw, ret, console_error, modify, get_world.
  destruct (idb_request_error E ReqPut); cbn; [by intros [= <- <-]|].
  destruct (index_get _ _); cbn; by intros [= <- <-].
Qed.

Lemma transaction_effect_wf evs w : stores_wf w -> stores_wf (transaction_effect evs w).
Proof.
  intros [Hs Hm]. unfold transaction_effect.
  destruct (existsb is_failure evs); [done|].
  destruct (cleared SettingsRequest evs), (cleared MessagesRequest evs);
    split; cbn; try done; try apply settings_wf_empty; by intros k r.
Qed.

Lemma deleteMessages_wf E delete_error userId :
  preserves stores_wf (LocalDatabase.deleteMessages E delete_error userId).
Proof.
  intros w [Hs Hm].
  unfold LocalDatabase.deleteMessages, LocalDatabase.openDB, LocalDatabase.request,
    bind, try_catch, throw, ret, console_error, modify, get_world.
  destruct (idb_supported E), (idb_open_error E), (idb_request_error E ReqCursor);
    cbn; try done.
  destruct (entries_of_user userId (db_messages w)) as [|entry cursor], delete_error;
    cbn; try done.
  split; [done|]. by apply (messages_wf_foldr_delete (entry :: cursor)).
Qed.

Lemma deleteSettings_wf E delete_error userId :
  preserves stores_wf (LocalDatabase.deleteSettings E delete_error userId).
Proof.
  intros w [Hs Hm].
  unfold LocalDatabase.deleteSettings, LocalDatabase.openDB, LocalDatabase.request,
    bind, try_catch, throw, ret, console_error, modify, get_world.
  destruct (idb_supported E), (idb_open_error E), (idb_request_error E ReqGet);
    cbn; try done.
  destruct (index_get userId (db_settings w)), delete_error; cbn; try done.
  split; [by apply settings_wf_delete|done].
Qed.

Create HintDb wf.
#[export] Hint Resolve store_add_wf store_put_stores_wf deleteMessages_wf
  deleteSettings_wf : wf.

Lemma openDB_wf E : preserves stores_wf (LocalDatabase.openDB E).
Proof. unfold LocalDatabase.openDB. wf_steps. Qed.
#[export] Hint Resolve openDB_wf : wf.

Lemma getUserId_wf E : preserves stores_wf (getUserId E).
Proof. unfold getUserId, localStorage_setItem. wf_steps. Qed.
#[export] Hint Resolve getUserId_wf : wf.

Lemma saveMessage_wf E userId message :
  preserves stores_wf (LocalDatabase.saveMessage E userId message).
Proof. unfold LocalDatabase.saveMessage, new_Date_toISOString. wf_steps. Qed.

Lemma saveMessage_untyped_wf E userId message :
  preserves stores_wf (LocalDatabase.saveMessage_untyped E userId message).
Proof.
  unfold LocalDatabase.saveMessage_untyped, LocalDatabase.request, new_Date_toISOString.
  wf_steps.
Qed.
#[export] Hint Resolve saveMessage_untyped_wf : wf.

Lemma loadMessages_wf E userId limit :
  preserves stores_wf (LocalDatabase.loadMessages E userId limit).
Proof. unfold LocalDatabase.loadMessages, LocalDatabase.request. wf_steps. Qed.

Lemma getMessageCount_wf E userId :
  preserves stores_wf (LocalDatabase.getMessageCount E userId).
Proof. unfold LocalDatabase.getMessageCount, LocalDatabase.request. wf_steps. Qed.

Lemma saveSettings_stores_wf E userId settings :
  preserves stores_wf (LocalDatabase.saveSettings E userId settings).
Proof.
  unfold LocalDatabase.saveSettings, new_Date_toISOString, LocalDatabase.request.
  wf_steps.
Qed.

Lemma loadSettings_wf E userId :
  preserves stores_wf (LocalDatabase.loadSettings E userId).
Proof. unfold LocalDatabase.loadSettings, LocalDatabase.request. wf_steps. Qed.

Lemma clearAllData_wf E : preserves stores_wf (LocalDatabase.clearAllData E).
Proof.
  unfold LocalDatabase.clearAllData. wf_steps.
  - apply preserves_modify. intros w. apply transaction_effect_wf.
  - induction (LocalDatabase.clear_events E) as [|ev evs IH]; cbn [foldr].
    + wf_steps.
    + unfold LocalDatabase.clear_log. wf_steps; exact IH.
Qed.
#[export] Hint Resolve saveMessage_wf loadMessages_wf getMessageCount_wf
  saveSettings_stores_wf loadSettings_wf clearAllData_wf : wf.

Lemma loadLocalSettings_wf : preserves stores_wf useSettings.loadLocalSettings.
Proof. unfold useSettings.loadLocalSettings. wf_steps. Qed.

Lemma saveLocalSettings_wf E s : preserves stores_wf (useSettings.saveLocalSettings E s).
Proof. unfold useSettings.saveLocalSettings, localStorage_setItem. wf_steps. Qed.

Lemma saveLocalDbSettings_wf E userId s :
  preserves stores_wf (useSettings.saveLocalDbSettings E userId s).
Proof. unfold useSettings.saveLocalDbSettings. wf_steps. Qed.

Lemma loadLocalDbSettings_wf E userId :
  preserves stores_wf (useSettings.loadLocalDbSettings E userId).
Proof. unfold useSettings.loadLocalDbSettings. wf_steps. Qed.

Lemma setSettings_wf s : preserves stores_wf (useSettings.setSettings s).
Proof. unfold useSettings.setSettings. wf_steps. Qed.

Lemma supabase_select_wf E userId : preserves stores_wf (useSettings.supabase_select E userId).
Proof. unfold useSettings.supabase_select. wf_steps. Qed.

Lemma supabase_upsert_wf E userId row :
  preserves stores_wf (useSettings.supabase_upsert E userId row).
Proof. unfold useSettings.supabase_upsert. wf_steps. Qed.
#[export] Hint Resolve loadLocalSettings_wf saveLocalSettings_wf saveLocalDbSettings_wf
  loadLocalDbSettings_wf setSettings_wf supabase_select_wf supabase_upsert_wf : wf.

Lemma hook_loadSettings_wf E : preserves stores_wf (useSettings.loadSettings E).
Proof. unfold useSettings.loadSettings. wf_steps. Qed.

Lemma updateSettings_wf E s : preserves stores_wf (useSettings.updateSettings E s).
Proof. unfold useSettings.updateSettings. wf_steps. Qed.

Lemma setMessages_wf f : preserves stores_wf (useMessages.setMessages f).
Proof. unfold useMessages.setMessages. wf_steps. Qed.
#[export] Hint Resolve hook_loadSettings_wf updateSettings_wf setMessages_wf : wf.

Lemma addMessage_wf E message : preserves stores_wf (useMessages.addMessage E message).
Proof. unfold useMessages.addMessage, LocalDatabase.isSupported. wf_steps. Qed.

Lemma addMessage_untyped_wf E message :
  preserves stores_wf (useMessages.addMessage_untyped E message).
Proof. unfold useMessages.addMessage_untyped, LocalDatabase.isSupported. wf_steps. Qed.
#[export] Hint Resolve addMessage_untyped_wf : wf.

Lemma save_each_wf E userId newMessages :
  preserves stores_wf (useMessages.save_each E userId newMessages).
Proof. induction newMessages; cbn [useMessages.save_each]; wf_steps. Qed.
#[export] Hint Resolve addMessage_wf save_each_wf : wf.

Lemma addMessages_wf E newMessages :
  preserves stores_wf (useMessages.addMessages E newMessages).
Proof. unfold useMessages.addMessages, LocalDatabase.isSupported. wf_steps. Qed.

Lemma clearMessages_wf E delete_error :
  preserves stores_wf (useMessages.clearMessages E delete_error).
Proof. unfold useMessages.clearMessages, LocalDatabase.isSupported. wf_steps. Qed.

Lemma hook_getMessageCount_wf E : preserves stores_wf (useMessages.getMessageCount E).
Proof. unfold useMessages.getMessageCount. wf_steps. Qed.

Lemma hook_loadMessages_wf E : preservesP stores_wf (useMessages.loadMessages E).
Proof. unfold useMessages.loadMessages. wf_steps. Qed.

Lemma forEach_wf E attachments acc :
  preserves stores_wf (App.forEach E attachments acc).
Proof.
  revert acc. induction attachments; intros acc; cbn [App.forEach]; [wf_steps|].
  unfold App.describe. wf_steps; apply IHattachments.
Qed.
#[export] Hint Resolve forEach_wf : wf.

Lemma sendMessage_wf E content attachments :
  preserves stores_wf (App.sendMessage E content attachments).
Proof.
  unfold App.sendMessage, App.setError, App.setIsSettingsOpen, App.setIsLoading,
    App.currentMessageContent, App.do_fetch, App.json, App.errorMsg, App.reply_content.
  wf_steps.
Qed.

Lemma handleClearData_wf E confirmed :
  preservesP stores_wf (SettingsModal.handleClearData E confirmed None).
Proof.
  unfold SettingsModal.handleClearData, LocalDatabase.isSupported. wf_steps.
Qed.

Lemma getStorageInfo_wf E : preserves stores_wf (SettingsModal.getStorageInfo E).
Proof. unfold SettingsModal.getStorageInfo. wf_steps. Qed.

Lemma handleSubmit_wf E a b m :
  preserves stores_wf
    (SettingsModal.handleSubmit (useSettings.updateSettings E)
       (App.setIsSettingsOpen false) a b m).
Proof. unfold SettingsModal.handleSubmit, App.setIsSettingsOpen. wf_steps. Qed.
#[export] Hint Resolve addMessages_wf clearMessages_wf hook_getMessageCount_wf
  sendMessage_wf getStorageInfo_wf handleSubmit_wf : wf.

Lemma after_wf E c p : stores_wf (page_world p) -> stores_wf (page_world (after E c p)).
Proof.
  revert p. change (preservesP stores_wf (perform E c)).
  destruct c; cbn [perform]; apply preservesP_void;
    first [ apply hook_loadMessages_wf
          | apply handleClearData_wf
          | apply preservesP_lift; auto with wf ].
Qed.

Lemma settings_wf_one_row userId (m : gmap string LocalSettings) :
  settings_wf m -> (length (settings_of_user userId m) <= 1)%nat.
Proof.
  intros [Hkey Huniq]. unfold settings_of_user, rows.
  rewrite <- (filter_fmap_snd (fun r => ls_user_id r = userId)), length_fmap.
  assert (NoDup (filter (fun entry : string * LocalSettings => ls_user_id entry.2 = userId)
                   (map_to_list m))) as Hnd
    by apply NoDup_filter, NoDup_map_to_list.
  destruct (filter _ (map_to_list m)) as [|[k1 r1] [|[k2 r2] l]] eqn:Hl; cbn; [lia..|].
  exfalso.
  assert ((k1, r1) ∈ filter (fun entry : string * LocalSettings => ls_user_id entry.2 = userId)
                        (map_to_list m)) as H1 by (rewrite Hl; set_solver).
  assert ((k2, r2) ∈ filter (fun entry : string * LocalSettings => ls_user_id entry.2 = userId)
                        (map_to_list m)) as H2 by (rewrite Hl; set_solver).
  apply list_elem_of_filter in H1 as [Hu1 H1%elem_of_map_to_list].
  apply list_elem_of_filter in H2 as [Hu2 H2%elem_of_map_to_list].
  cbn in Hu1, Hu2.
  assert (k1 = k2) as -> by (eapply Huniq; [done..|congruence]).
  assert (r1 = r2) as -> by congruence.
  apply NoDup_cons in Hnd as [Hnotin _]. apply Hnotin. set_solver.
Qed.

(** X8. In every state the application can reach from a fresh browser
    profile, by any history of calls of the operations in any
    environments, the settings store holds at most one record for each
    user, and each record of the two stores is filed under its own
    [id]. *)
Theorem reachable_stores_wf calls :
  let w := page_world (run calls page_start) in
  stores_wf w /\
  forall userId, (length (settings_of_user userId (db_settings w)) <= 1)%nat.
Proof.
  cbv zeta.
  cut (stores_wf (page_world (run calls page_start))).
  { intros Hwf. split; [done|]. intros userId. by apply settings_wf_one_row, Hwf. }
  assert (forall p, stores_wf (page_world p) -> stores_wf (page_world (run calls p)))
    as Hrun.
  { induction calls as [|[E c] calls IH]; intros p Hp; [done|].
    cbn [run]. by apply IH, after_wf. }
  apply Hrun. split; [exact settings_wf_empty|by intros k r].
Qed.


(** *** What a call leaves alone *)

Ltac unfold_app :=
  unfold SettingsModal.handleSubmit, SettingsModal.getStorageInfo,
    SettingsModal.handleClearData,
    App.sendMessage, App.setError, App.setIsSettingsOpen, App.setIsLoading,
    App.currentMessageContent, App.do_fetch, App.json, App.errorMsg, App.reply_content,
    useMessages.loadMessages, useMessages.clearMessages, useMessages.addMessages,
    useMessages.getMessageCount, useMessages.addMessage,
    useMessages.addMessage_untyped, useMessages.setMessages,
    useSettings.updateSettings, useSettings.loadSettings, useSettings.supabase_upsert,
    useSettings.supabase_select, useSettings.loadLocalDbSettings,
    useSettings.saveLocalDbSettings, useSettings.saveLocalSettings,
    useSettings.loadLocalSettings, useSettings.setSettings, useSettings.setIsLoading,
    LocalDatabase.deleteSettings, LocalDatabase.deleteMessages,
    LocalDatabase.loadSettings, LocalDatabase.saveSettings,
    LocalDatabase.getMessageCount, LocalDatabase.loadMessages, LocalDatabase.saveMessage,
    LocalDatabase.saveMessage_untyped, LocalDatabase.store_put,
    LocalDatabase.store_add, LocalDatabase.request,
    LocalDatabase.openDB, LocalDatabase.isSupported,
    localStorage_setItem, new_Date_toISOString.

Ltac frame_primitive db :=
  first [ solve [auto with db]
        | let w := fresh "w" in let Hw := fresh "Hw" in intros w Hw; exact Hw ].

Lemma getUserId_keeps id E : preserves (user_id_is id) (getUserId E).
Proof.
  intros w [Hid Hne]. unfold getUserId, bind, get_world, ret.
  rewrite Hid. by destruct id.
Qed.

Create HintDb user_id.
#[export] Hint Resolve getUserId_keeps : user_id.

Ltac frame db := unfold_app; repeat preserves_step ltac:(frame_primitive db).

Lemma save_each_keeps id E userId newMessages :
  preserves (user_id_is id) (useMessages.save_each E userId newMessages).
Proof. induction newMessages; cbn [useMessages.save_each]; frame user_id. Qed.

Lemma forEach_keeps id E attachments acc :
  preserves (user_id_is id) (App.forEach E attachments acc).
Proof.
  revert acc. induction attachments; intros acc; cbn [App.forEach];
    unfold App.describe; frame user_id.
Qed.

Lemma clearAllData_keeps id E : preserves (user_id_is id) (LocalDatabase.clearAllData E).
Proof.
  unfold LocalDatabase.clearAllData. frame user_id.
  - intros w Hw. unfold modify, transaction_effect. cbn.
    destruct (existsb is_failure _); [done|].
    by destruct (cleared SettingsRequest _), (cleared MessagesRequest _).
  - induction (LocalDatabase.clear_events E) as [|ev evs IH]; cbn [foldr];
      unfold LocalDatabase.clear_log; frame user_id.
Qed.
#[export] Hint Resolve save_each_keeps forEach_keeps clearAllData_keeps : user_id.

Lemma after_keeps_user_id id E c p :
  c <> CallHandleClearData true ->
  user_id_is id (page_world p) -> user_id_is id (page_world (after E c p)).
Proof.
  intros Hc. revert p. change (preservesP (user_id_is id) (perform E c)).
  destruct c; cbn [perform]; apply preservesP_void;
    try (apply preservesP_lift; frame user_id).
  - frame user_id.
  - destruct confirmed; [done|].
    unfold SettingsModal.handleClearData. cbn [negb]. frame user_id.
Qed.

(** X9. Once a user identifier is cached, no history of calls changes it,
    unless the user confirms [Clear All Local Data]: after the history
    [getUserId] still returns that identifier, in any environment, and
    generates nothing. *)
Theorem user_id_persists calls p id :
  user_id_is id (page_world p) ->
  Forall (fun call => call.2 <> CallHandleClearData true) calls ->
  user_id_is id (page_world (run calls p)) /\
  forall E, getUserId E (page_world (run calls p)) = (Ok id, page_world (run calls p)).
Proof.
  intros Hp Hcalls.
  cut (user_id_is id (page_world (run calls p))).
  { intros [Hid Hne]. split; [done|]. intros E.
    unfold getUserId, bind, get_world, ret. rewrite Hid. by destruct id. }
  revert p Hp. induction Hcalls as [|[E c] calls Hc _ IH]; intros p Hp; [done|].
  cbn [run]. by apply IH, after_keeps_user_id.
Qed.

Create HintDb settings_frame.
Create HintDb messages_frame.

Lemma getUserId_settings_side sv E :
  preserves (fun w => settings_side w = sv) (getUserId E).
Proof. unfold getUserId. frame settings_frame. Qed.

Lemma getUserId_messages_side mv E :
  preserves (fun w => messages_side w = mv) (getUserId E).
Proof. unfold getUserId. frame messages_frame. Qed.
#[export] Hint Resolve getUserId_settings_side : settings_frame.
#[export] Hint Resolve getUserId_messages_side : messages_frame.

Lemma save_each_settings_side sv E userId newMessages :
  preserves (fun w => settings_side w = sv) (useMessages.save_each E userId newMessages).
Proof. induction newMessages; cbn [useMessages.save_each]; frame settings_frame. Qed.

Lemma forEach_settings_side sv E attachments acc :
  preserves (fun w => settings_side w = sv) (App.forEach E attachments acc).
Proof.
  revert acc. induction attachments; intros acc; cbn [App.forEach];
    unfold App.describe; frame settings_frame.
Qed.
#[export] Hint Resolve save_each_settings_side forEach_settings_side : settings_frame.

(** X10. The two sides do not interfere. A call on the messages side
    ([sendMessage] included) changes neither of the two stores of
    settings nor the in-memory settings; a call on the settings side
    changes neither the messages store nor the in-memory list. *)
Theorem settings_and_messages_are_separate E c p :
  (is_messages_call c = true ->
   settings_side (page_world (after E c p)) = settings_side (page_world p)) /\
  (is_settings_call c = true ->
   messages_side (page_world (after E c p)) = messages_side (page_world p)).
Proof.
  split; intros Hc.
  - assert (forall sv, settings_side (page_world p) = sv ->
                       settings_side (page_world (after E c p)) = sv) as Hsame;
      [|by apply Hsame].
    intros sv. revert p.
    change (preservesP (fun w => settings_side w = sv) (perform E c)).
    destruct c; try discriminate Hc; cbn [perform]; frame settings_frame.
  - assert (forall mv, messages_side (page_world p) = mv ->
                       messages_side (page_world (after E c p)) = mv) as Hsame;
      [|by apply Hsame].
    intros mv. revert p.
    change (preservesP (fun w => messages_side w = mv) (perform E c)).
    destruct c; try discriminate Hc; cbn [perform]; frame messages_frame.
Qed.

(** ** Calls that settle *)

Lemma settles_ret {A} (a : A) : settles (ret a).
Proof. by intros w. Qed.

Lemma settles_throw {A} e : settles (@throw A e).
Proof. by intros w. Qed.

Lemma settles_get_world : settles get_world.
Proof. by intros w. Qed.

Lemma settles_modify f : settles (modify f).
Proof. by intros w. Qed.

Lemma settles_bind {A B} (m : M A) (f : A -> M B) :
  settles m -> (forall a, settles (f a)) -> settles (bind m f).
Proof.
  intros Hm Hf w. unfold bind. specialize (Hm w).
  destruct (m w) as [[a|e|] w']; [apply Hf|done..].
Qed.

Lemma settles_try_catch {A} (m : M A) h :
  settles m -> (forall e, settles (h e)) -> settles (try_catch m h).
Proof.
  intros Hm Hh w. unfold try_catch. specialize (Hm w).
  destruct (m w) as [[a|e|] w']; [done|apply Hh|done].
Qed.

Lemma settles_finally {A} (m : M A) f :
  settles m -> settles f -> settles (finally m f).
Proof.
  intros Hm Hf w. unfold finally. specialize (Hm w).
  destruct (m w) as [[a|e|] w']; [| |done]; specialize (Hf w');
    by destruct (f w') as [[[]|e'|] w''].
Qed.

Lemma settlesP_ret {A} (a : A) : settlesP (retP a).
Proof. by intros p. Qed.

Lemma settlesP_bind {A B} (m : P A) (f : A -> P B) :
  settlesP m -> (forall a, settlesP (f a)) -> settlesP (bindP m f).
Proof.
  intros Hm Hf p. unfold bindP. specialize (Hm p).
  destruct (m p) as [[a|e|] p']; [apply Hf|done..].
Qed.

Lemma settlesP_try_catch {A} (m : P A) h :
  settlesP m -> (forall e, settlesP (h e)) -> settlesP (try_catchP m h).
Proof.
  intros Hm Hh p. unfold try_catchP. specialize (Hm p).
  destruct (m p) as [[a|e|] p']; [done|apply Hh|done].
Qed.

Lemma settlesP_finally {A} (m : P A) f :
  settlesP m -> settlesP f -> settlesP (finallyP m f).
Proof.
  intros Hm Hf p. unfold finallyP. specialize (Hm p).
  destruct (m p) as [[a|e|] p']; [| |done]; specialize (Hf p');
    by destruct (f p') as [[[]|e'|] p''].
Qed.

Lemma settlesP_lift {A} (m : M A) : settles m -> settlesP (lift m).
Proof.
  intros Hm p. unfold lift. specialize (Hm (page_world p)).
  by destruct (m (page_world p)) as [r w'].
Qed.

Lemma settlesP_void {A} (m : P A) : settlesP m -> settlesP (void m).
Proof.
  intros Hm p. unfold void. specialize (Hm p).
  by destruct (m p) as [[a|e|] p'].
Qed.

Lemma settlesP_alert text : settlesP (alert text).
Proof. by intros p. Qed.

Lemma settlesP_reload : settlesP window_location_reload.
Proof. by intros p. Qed.

Lemma settlesP_setIsLoading b : settlesP (useMessages.setIsLoading b).
Proof. by intros p. Qed.

Lemma settles_emit ev : settles (emit ev).
Proof. by intros w. Qed.

Lemma settles_console_error label : settles (console_error label).
Proof. by intros w. Qed.

Lemma settles_crypto_randomUUID E : settles (crypto_randomUUID E).
Proof. by intros w. Qed.

Lemma settles_Date_now E : settles (Date_now E).
Proof. by intros w. Qed.

Create HintDb settling.
#[export] Hint Resolve settles_ret settles_throw settles_get_world settles_modify
  settles_emit settles_console_error settles_crypto_randomUUID settles_Date_now
  settlesP_ret settlesP_alert settlesP_reload settlesP_setIsLoading : settling.

(** One step of a proof that a computation settles: every part of it
    does. The one computation that does not is [never]. *)
Ltac settles_step :=
  lazymatch goal with
  | |- settles (bind _ _) => apply settles_bind; [|intros ?; cbn beta]
  | |- settles (try_catch _ _) => apply settles_try_catch; [|intros ?; cbn beta]
  | |- settles (finally _ _) => apply settles_finally
  | |- settles (if ?b then _ else _) => destruct b
  | |- settles (match ?x with _ => _ end) => destruct x
  | |- settlesP (bindP _ _) => apply settlesP_bind; [|intros ?; cbn beta]
  | |- settlesP (try_catchP _ _) => apply settlesP_try_catch; [|intros ?; cbn beta]
  | |- settlesP (finallyP _ _) => apply settlesP_finally
  | |- settlesP (lift _) => apply settlesP_lift
  | |- settlesP (void _) => apply settlesP_void
  | |- settlesP (if ?b then _ else _) => destruct b
  | |- settlesP (match ?x with _ => _ end) => destruct x
  | |- _ => solve [auto with settling]
  end.

Ltac settles_steps := unfold_app; repeat settles_step.

Lemma getUserId_settles E : settles (getUserId E).
Proof. unfold getUserId. settles_steps. Qed.

Lemma localStorage_removeItem_settles key : settles (localStorage_removeItem key).
Proof. unfold localStorage_removeItem. settles_steps. Qed.

Lemma save_each_settles E userId newMessages :
  settles (useMessages.save_each E userId newMessages).
Proof. induction newMessages; cbn [useMessages.save_each]; settles_steps. Qed.

Lemma describe_settles E attachment : settles (App.describe E attachment).
Proof. unfold App.describe. settles_steps. Qed.
#[export] Hint Resolve getUserId_settles localStorage_removeItem_settles
  save_each_settles describe_settles : settling.

Lemma forEach_settles E attachments acc : settles (App.forEach E attachments acc).
Proof.
  revert acc. induction attachments; intros acc; cbn [App.forEach]; settles_steps.
Qed.

Lemma clearAllData_settles E : settles (LocalDatabase.clearAllData E).
Proof.
  unfold LocalDatabase.clearAllData. settles_steps.
  induction (LocalDatabase.clear_events E) as [|ev evs IH]; cbn [foldr];
    unfold LocalDatabase.clear_log; settles_steps.
Qed.
#[export] Hint Resolve forEach_settles clearAllData_settles : settling.

(** The methods of [LocalDatabase] settle when they are handed what their
    signatures declare. *)
Lemma saveMessage_settles E userId message :
  settles (LocalDatabase.saveMessage E userId message).
Proof. settles_steps. Qed.

Lemma loadMessages_settles E userId limit :
  settles (LocalDatabase.loadMessages E userId limit).
Proof. settles_steps. Qed.

Lemma deleteMessages_settles E delete_error userId :
  settles (LocalDatabase.deleteMessages E delete_error userId).
Proof. settles_steps. Qed.

Lemma getMessageCount_settles E userId :
  settles (LocalDatabase.getMessageCount E userId).
Proof. settles_steps. Qed.

Lemma saveSettings_settles E userId settings :
  settles (LocalDatabase.saveSettings E userId settings).
Proof. settles_steps. Qed.

Lemma store_loadSettings_settles E userId :
  settles (LocalDatabase.loadSettings E userId).
Proof. settles_steps. Qed.

Lemma deleteSettings_settles E delete_error userId :
  settles (LocalDatabase.deleteSettings E delete_error userId).
Proof. settles_steps. Qed.

Lemma updateSettings_settles E newSettings :
  settles (useSettings.updateSettings E newSettings).
Proof. settles_steps. Qed.

Lemma hook_loadSettings_settles E : settles (useSettings.loadSettings E).
Proof. settles_steps. Qed.

Lemma addMessage_settles E message : settles (useMessages.addMessage E message).
Proof. settles_steps. Qed.

(** The [finally] block runs after a [try] block that settles. *)
Lemma finally_runs {A} (m : M A) f w :
  settles m -> (finally m f w).2 = (f (m w).2).2.
Proof.
  intros Hm. unfold finally. specialize (Hm w).
  destruct (m w) as [[a|e|] w']; cbn [fst snd] in *; [| |done];
    by destruct (f w') as [[[]|e'|] w''].
Qed.

Lemma finallyP_runs {A} (m : P A) f p :
  settlesP m -> (finallyP m f p).2 = (f (m p).2).2.
Proof.
  intros Hm. unfold finallyP. specialize (Hm p).
  destruct (m p) as [[a|e|] p']; cbn [fst snd] in *; [| |done];
    by destruct (f p') as [[[]|e'|] p''].
Qed.

(** ** Calls that cannot reject *)

Section Resolves.
Context (Q : World -> Prop).

Lemma resolves_ret {A} (a : A) : resolves Q (ret a).
Proof. intros w Hw. by exists a, w. Qed.

Lemma resolves_get_world : resolves Q get_world.
Proof. intros w Hw. by exists w, w. Qed.

Lemma resolves_bind {A B} (m : M A) (f : A -> M B) :
  resolves Q m -> (forall a, resolves Q (f a)) -> resolves Q (bind m f).
Proof.
  intros Hm Hf w Hw. unfold bind.
  destruct (Hm w Hw) as (a & w' & -> & Hw'). by apply Hf.
Qed.

Lemma resolves_try_catch {A} (m : M A) h :
  preserves Q m -> settles m -> (forall e, resolves Q (h e)) ->
  resolves Q (try_catch m h).
Proof.
  intros Hm Hs Hh w Hw. unfold try_catch. specialize (Hm w Hw). specialize (Hs w).
  destruct (m w) as [[a|e|] w']; [by exists a, w'|by apply Hh|done].
Qed.

Lemma resolves_finally {A} (m : M A) f :
  resolves Q m -> resolves Q f -> resolves Q (finally m f).
Proof.
  intros Hm Hf w Hw. unfold finally.
  destruct (Hm w Hw) as (a & w' & -> & Hw').
  destruct (Hf w' Hw') as ([] & w'' & -> & Hw''). by exists a, w''.
Qed.

Lemma resolves_modify f : (forall w, Q w -> Q (f w)) -> resolves Q (modify f).
Proof. intros Hf w Hw. exists tt, (f w). split; [done|by apply Hf]. Qed.

Lemma resolvesP_ret {A} (a : A) : resolvesP Q (retP a).
Proof. intros p Hp. by exists a, p. Qed.

Lemma resolvesP_bind {A B} (m : P A) (f : A -> P B) :
  resolvesP Q m -> (forall a, resolvesP Q (f a)) -> resolvesP Q (bindP m f).
Proof.
  intros Hm Hf p Hp. unfold bindP.
  destruct (Hm p Hp) as (a & p' & -> & Hp'). by apply Hf.
Qed.

Lemma resolvesP_try_catch {A} (m : P A) h :
  preservesP Q m -> settlesP m -> (forall e, resolvesP Q (h e)) ->
  resolvesP Q (try_catchP m h).
Proof.
  intros Hm Hs Hh p Hp. unfold try_catchP. specialize (Hm p Hp). specialize (Hs p).
  destruct (m p) as [[a|e|] p']; [by exists a, p'|by apply Hh|done].
Qed.

Lemma resolvesP_finally {A} (m : P A) f :
  resolvesP Q m -> resolvesP Q f -> resolvesP Q (finallyP m f).
Proof.
  intros Hm Hf p Hp. unfold finallyP.
  destruct (Hm p Hp) as (a & p' & -> & Hp').
  destruct (Hf p' Hp') as ([] & p'' & -> & Hp''). by exists a, p''.
Qed.

Lemma resolvesP_lift {A} (m : M A) : resolves Q m -> resolvesP Q (lift m).
Proof.
  intros Hm p Hp. unfold lift.
  destruct (Hm _ Hp) as (a & w' & -> & Hw'). by eexists a, _.
Qed.

Lemma resolvesP_void {A} (m : P A) : resolvesP Q m -> resolvesP Q (void m).
Proof.
  intros Hm p Hp. unfold void.
  destruct (Hm _ Hp) as (a & p' & -> & Hp'). by exists tt, p'.
Qed.

Lemma resolvesP_alert text : resolvesP Q (alert text).
Proof. intros p Hp. by eexists tt, _. Qed.

Lemma resolvesP_reload : resolvesP Q window_location_reload.
Proof. intros p Hp. by eexists tt, _. Qed.

Lemma resolvesP_setIsLoading b : resolvesP Q (useMessages.setIsLoading b).
Proof. intros p Hp. by eexists tt, _. Qed.
End Resolves.

Lemma preserves_True {A} (m : M A) : preserves (fun _ => True) m.
Proof. by intros w _. Qed.

Lemma preservesP_True {A} (m : P A) : preservesP (fun _ => True) m.
Proof. by intros p _. Qed.

(** One step of a proof that a computation returns. What stands in a
    [try] only has to keep [Q]; [keeps] shows that it does. *)
Ltac resolves_step keeps primitive :=
  lazymatch goal with
  | |- resolves _ (bind _ _) => apply resolves_bind; [|intros ?; cbn beta]
  | |- resolves _ (try_catch _ _) =>
      apply resolves_try_catch; [keeps|settles_steps|intros ?; cbn beta]
  | |- resolves _ (finally _ _) => apply resolves_finally
  | |- resolves _ (ret _) => apply resolves_ret
  | |- resolves _ get_world => apply resolves_get_world
  | |- resolves _ (if ?b then _ else _) => destruct b
  | |- resolves _ (match ?x with _ => _ end) => destruct x
  | |- resolvesP _ (bindP _ _) => apply resolvesP_bind; [|intros ?; cbn beta]
  | |- resolvesP _ (try_catchP _ _) =>
      apply resolvesP_try_catch; [keeps|settles_steps|intros ?; cbn beta]
  | |- resolvesP _ (finallyP _ _) => apply resolvesP_finally
  | |- resolvesP _ (retP _) => apply resolvesP_ret
  | |- resolvesP _ (lift _) => apply resolvesP_lift
  | |- resolvesP _ (void _) => apply resolvesP_void
  | |- resolvesP _ (alert _) => apply resolvesP_alert
  | |- resolvesP _ window_location_reload => apply resolvesP_reload
  | |- resolvesP _ (useMessages.setIsLoading _) => apply resolvesP_setIsLoading
  | |- resolvesP _ (if ?b then _ else _) => destruct b
  | |- resolvesP _ (match ?x with _ => _ end) => destruct x
  | |- _ => primitive
  end.

(** A primitive that returns without a test: it is evaluated. *)
Ltac resolves_primitive :=
  let w := fresh "w" in let Hw := fresh "Hw" in
  intros w Hw; do 2 eexists; split; [reflexivity|exact Hw].

Ltac always_keeps := first [apply preserves_True | apply preservesP_True].

Ltac never_rejects :=
  unfold_app; repeat resolves_step always_keeps resolves_primitive.

(** The handlers other than [sendMessage] resolve, in every environment
    and from every state. *)
Lemma handlers_resolve E c p :
  is_handler c = true -> is_send c = false -> (perform E c p).1 = Ok tt.
Proof.
  intros Hc Hsend.
  assert (resolvesP (fun _ => True) (perform E c)) as Htotal.
  { destruct c; try discriminate Hc; try discriminate Hsend; cbn [perform];
      never_rejects. }
  destruct (Htotal p I) as ([] & p' & -> & _). reflexivity.
Qed.

Lemma getUserId_resolves_cached id E : resolves (user_id_is id) (getUserId E).
Proof.
  intros w [Hid Hne]. exists id, w. split; [|done].
  unfold getUserId, bind, get_world, ret. rewrite Hid. by destruct id.
Qed.

Lemma getUserId_resolves_writable E :
  storage_set_error E = None -> resolves (fun _ => True) (getUserId E).
Proof.
  intros Hset w _.
  unfold getUserId, localStorage_setItem, crypto_randomUUID, emit, bind, get_world,
    ret, modify.
  destruct (storage_user_id w) as [[|c u]|]; cbn; rewrite ?Hset; by do 2 eexists.
Qed.

Lemma loadSettings_resolves_cached id E :
  resolves (user_id_is id) (useSettings.loadSettings E).
Proof.
  unfold_app.
  repeat resolves_step ltac:(repeat preserves_step ltac:(frame_primitive user_id))
    ltac:(first [apply getUserId_resolves_cached | resolves_primitive]).
Qed.

Lemma loadSettings_resolves_writable E :
  storage_set_error E = None -> resolves (fun _ => True) (useSettings.loadSettings E).
Proof.
  intros Hset. unfold_app.
  repeat resolves_step always_keeps
    ltac:(first [by apply getUserId_resolves_writable | resolves_primitive]).
Qed.


(** ** Saving and loading settings through the hook *)

(** What [loadLocalDbSettings] returns depends on the environment and on
    the settings store alone, and it changes at most the console. *)
Lemma loadLocalDbSettings_reads E userId w :
  exists l,
    useSettings.loadLocalDbSettings E userId w =
    ((useSettings.loadLocalDbSettings E userId w).1, set_console_errors l w).
Proof.
  unfold useSettings.loadLocalDbSettings, LocalDatabase.loadSettings,
    LocalDatabase.isSupported, LocalDatabase.request, LocalDatabase.openDB,
    console_error, modify, get_world, try_catch, bind, ret, throw.
  destruct (idb_supported E), (idb_open_error E), (idb_request_error E ReqGet); cbn;
    try destruct (index_get userId (db_settings w)); cbn;
    first [ by exists (console_errors w); rewrite set_console_errors_id
          | by eexists ].
Qed.

Lemma loadLocalDbSettings_console E userId l w :
  (useSettings.loadLocalDbSettings E userId (set_console_errors l w)).1 =
  (useSettings.loadLocalDbSettings E userId w).1.
Proof.
  unfold useSettings.loadLocalDbSettings, LocalDatabase.loadSettings,
    LocalDatabase.isSupported, LocalDatabase.request, LocalDatabase.openDB,
    console_error, modify, get_world, try_catch, bind, ret, throw.
  destruct (idb_supported E), (idb_open_error E), (idb_request_error E ReqGet); cbn;
    try destruct (index_get userId (db_settings w)); done.
Qed.

Lemma loadLocalSettings_reads w :
  exists l,
    useSettings.loadLocalSettings w =
    ((useSettings.loadLocalSettings w).1, set_console_errors l w).
Proof.
  unfold useSettings.loadLocalSettings, console_error, modify, get_world, bind, ret.
  destruct (storage_settings w) as [[]|]; cbn;
    first [ by exists (console_errors w); rewrite set_console_errors_id
          | by eexists ].
Qed.

Lemma loadLocalSettings_console l w :
  (useSettings.loadLocalSettings (set_console_errors l w)).1 =
  (useSettings.loadLocalSettings w).1.
Proof.
  unfold useSettings.loadLocalSettings, console_error, modify, get_world, bind, ret.
  cbn. by destruct (storage_settings w) as [[]|].
Qed.

Lemma loadLocalSettings_at w W :
  storage_settings W = storage_settings w ->
  exists l,
    useSettings.loadLocalSettings W =
    ((useSettings.loadLocalSettings w).1, set_console_errors l W).
Proof.
  intros Hsame. destruct (loadLocalSettings_reads W) as (l & Hl).
  exists l. rewrite Hl. f_equal.
  unfold useSettings.loadLocalSettings, console_error, modify, get_world, bind, ret.
  rewrite Hsame. by destruct (storage_settings w) as [[]|].
Qed.

Lemma loadLocalDbSettings_at E userId w W :
  db_settings W = db_settings w ->
  exists l,
    useSettings.loadLocalDbSettings E userId W =
    ((useSettings.loadLocalDbSettings E userId w).1, set_console_errors l W).
Proof.
  intros Hsame. destruct (loadLocalDbSettings_reads E userId W) as (l & Hl).
  exists l. rewrite Hl. f_equal.
  unfold useSettings.loadLocalDbSettings, LocalDatabase.loadSettings,
    LocalDatabase.isSupported, LocalDatabase.request, LocalDatabase.openDB,
    console_error, modify, get_world, try_catch, bind, ret, throw.
  destruct (idb_supported E), (idb_open_error E), (idb_request_error E ReqGet); cbn;
    rewrite ?Hsame; try destruct (index_get userId (db_settings w)); done.
Qed.

Lemma getUserId_cached E id W :
  storage_user_id W = Some id -> id <> "" -> getUserId E W = (Ok id, W).
Proof.
  intros Hid Hne. unfold getUserId, bind, get_world, ret. rewrite Hid. by destruct id.
Qed.

(** Evaluates the hook's [loadSettings] for a cached user [id], from
    what the two local readers return in [w]. *)
Ltac run_load E id w Hid Hne Hflat Hdb :=
  repeat first
    [ rewrite (getUserId_cached E id) by (simpl_world; done)
    | match goal with
      | |- context [useSettings.loadLocalSettings ?W] =>
          let l := fresh "l" in
          let H := fresh "H" in
          destruct (loadLocalSettings_at w W) as (l & H); [simpl_world; done|];
          rewrite H, Hflat; clear H
      | |- context [useSettings.loadLocalDbSettings E id ?W] =>
          let l := fresh "l" in
          let H := fresh "H" in
          destruct (loadLocalDbSettings_at E id w W) as (l & H); [simpl_world; done|];
          rewrite H, Hdb; clear H
      end
    | step_js ].

Lemma loadSettings_fallback E w id flat db :
  user_id_is id w ->
  (useSettings.loadLocalSettings w).1 = Ok flat ->
  (useSettings.loadLocalDbSettings E id w).1 = Ok db ->
  (isSupabaseConfigured E = false \/
   (exists e, remote_select E id = SelThrows e) \/
   remote_select E id = SelError \/
   remote_select E id = SelData None) ->
  exists w',
    useSettings.loadSettings E w = (Ok tt, w') /\
    ui_settings w' = useSettings.prefer db flat /\
    storage_settings w' = storage_settings w /\
    db_settings w' = db_settings w /\
    storage_user_id w' = storage_user_id w.
Proof.
  intros [Hid Hne] Hflat Hdb Hremote.
  unfold useSettings.loadSettings, useSettings.supabase_select, useSettings.setSettings,
    useSettings.setIsLoading, emit, console_error, modify, finally, try_catch, bind,
    ret, throw.
  run_load E id w Hid Hne Hflat Hdb.
  all: destruct Hremote as [?|[[? ?]|[?|?]]]; simplify_eq/=.
  all: eexists; split; [reflexivity|]; simpl_world; done.
Qed.

Lemma loadLocalSettings_flat s w :
  storage_settings w =
    Some (FlatObject (Some (apiKey s)) (Some (baseUrl s)) (Some (model s))) ->
  (useSettings.loadLocalSettings w).1 = Ok s.
Proof.
  intros Hflat. unfold useSettings.loadLocalSettings, bind, get_world, ret.
  rewrite Hflat. by destruct s.
Qed.

(** The part of [updateSettings] that follows the local writes. *)
Ltac run_upsert :=
  unfold useSettings.supabase_upsert, useSettings.setSettings, emit, console_error,
    modify, try_catch, bind, ret, throw;
  repeat step_js.

(** [updateSettings] for a cached user when both local tiers work. *)
Lemma updateSettings_saves E s w id :
  user_id_is id w -> storage_set_error E = None -> idb_healthy E ->
  settings_wf (db_settings w) ->
  exists w1 row,
    useSettings.updateSettings E s w = (Ok tt, w1) /\
    user_id_is id w1 /\
    (useSettings.loadLocalSettings w1).1 = Ok s /\
    index_get id (db_settings w1) = Some row /\
    saved_fields row =
      {| in_api_key := apiKey s; in_base_url := baseUrl s; in_model := model s |} /\
    settings_wf (db_settings w1).
Proof.
  intros [Hid Hne] Hset HE Hwf. pose proof HE as (Hsup & _).
  unfold useSettings.updateSettings, useSettings.saveLocalSettings,
    useSettings.saveLocalDbSettings, LocalDatabase.isSupported, localStorage_setItem.
  unfold bind at 1. rewrite (getUserId_cached E id) by done.
  rewrite Hset, Hsup. cbn [negb].
  unfold bind at 1. unfold try_catch at 1. unfold emit, modify, bind at 1. cbn.
  unfold bind at 1. unfold try_catch at 1.
  match goal with
  | |- context [LocalDatabase.saveSettings E ?u ?i ?W] =>
      destruct (saveSettings_spec E u i W HE Hwf)
        as (row & w2 & Hsave & _ & Hone & Hwf2 & Hfields & _ & _ & Hflat & Huser & _);
      rewrite Hsave
  end.
  cbn in Hflat, Huser.
  run_upsert.
  all: eexists _, row; split; [reflexivity|].
  all: split; [split; [simpl_world; congruence|done]|].
  all: split; [by apply loadLocalSettings_flat|].
  all: split; [by apply index_get_single|done].
Qed.

(** [loadLocalDbSettings] through [LocalDatabase.loadSettings]. *)
Lemma loadLocalDbSettings_value E userId w :
  (useSettings.loadLocalDbSettings E userId w).1 =
  Ok (if idb_supported E then
        match (LocalDatabase.loadSettings E userId w).1 with
        | Ok (Some data) => Some {| apiKey := ls_api_key data;
                                    baseUrl := ls_base_url data;
                                    model := ls_model data |}
        | _ => None
        end
      else None).
Proof.
  unfold useSettings.loadLocalDbSettings, LocalDatabase.isSupported, try_catch, bind.
  destruct (idb_supported E); [|done]. cbn [negb].
  pose proof (store_loadSettings_settles E userId w) as Hsettles.
  destruct (LocalDatabase.loadSettings E userId w) as [[[data|]|e|] w']; done.
Qed.

(** X13. Which local tier wins when the remote store gives no row (it is
    not configured, its query throws or answers with an error, or it
    has no row for the user): the record of the object store if there is
    one with a non-empty [api_key]; the flat backup in every other case:
    a record with an empty [api_key], no record, a read that fails, no
    IndexedDB. The load resolves and writes to neither local tier. *)
Theorem loadSettings_local_precedence E w id flat :
  user_id_is id w ->
  (useSettings.loadLocalSettings w).1 = Ok flat ->
  (isSupabaseConfigured E = false \/
   (exists e, remote_select E id = SelThrows e) \/
   remote_select E id = SelError \/
   remote_select E id = SelData None) ->
  exists w',
    useSettings.loadSettings E w = (Ok tt, w') /\
    (forall row,
       idb_supported E = true ->
       (LocalDatabase.loadSettings E id w).1 = Ok (Some row) ->
       ui_settings w' =
         if decide (ls_api_key row = "") then flat
         else {| apiKey := ls_api_key row;
                 baseUrl := ls_base_url row;
                 model := ls_model row |}) /\
    (idb_supported E = false \/
     (LocalDatabase.loadSettings E id w).1 = Ok None \/
     (exists e, (LocalDatabase.loadSettings E id w).1 = Throw e) ->
     ui_settings w' = flat) /\
    storage_settings w' = storage_settings w /\
    db_settings w' = db_settings w /\
    storage_user_id w' = storage_user_id w.
Proof.
  intros Hid Hflat Hremote.
  destruct (loadSettings_fallback E w id flat _ Hid Hflat
              (loadLocalDbSettings_value E id w) Hremote)
    as (w' & Hload & Hui & Hrest).
  exists w'. split; [done|]. split; [|split; [|done]].
  - intros row Hsup Hrow. rewrite Hui, Hsup, Hrow. reflexivity.
  - intros Hnone. rewrite Hui.
    destruct (idb_supported E); [|done].
    destruct Hnone as [?|[->|[e ->]]]; done.
Qed.

(** X14. What [updateSettings] saved is what [loadSettings] shows after a
    reload: with a cached user and both local tiers working during the
    save, a later load in which the remote store gives no row sets the
    in-memory settings to the saved ones, whatever the state of the
    object store during the load. *)
Theorem updateSettings_then_loadSettings E1 E2 s w id :
  user_id_is id w -> storage_set_error E1 = None -> idb_healthy E1 ->
  settings_wf (db_settings w) ->
  (isSupabaseConfigured E2 = false \/
   (exists e, remote_select E2 id = SelThrows e) \/
   remote_select E2 id = SelError \/
   remote_select E2 id = SelData None) ->
  exists w1 w2,
    useSettings.updateSettings E1 s w = (Ok tt, w1) /\
    useSettings.loadSettings E2 w1 = (Ok tt, w2) /\
    ui_settings w2 = s.
Proof.
  intros Hid Hset HE Hwf Hremote.
  destruct (updateSettings_saves E1 s w id Hid Hset HE Hwf)
    as (w1 & row & Hupd & Hid1 & Hflat & Hrow & Hfields & _).
  destruct (loadSettings_fallback E2 w1 id s _ Hid1 Hflat
              (loadLocalDbSettings_value E2 id w1) Hremote)
    as (w2 & Hload & Hui & _).
  exists w1, w2. split; [done|]. split; [done|]. rewrite Hui.
  destruct (idb_supported E2); [|done].
  destruct (LocalDatabase.loadSettings E2 id w1).1 as [[data|]|e|] eqn:Hread; [|done..].
  apply loadSettings_inv in Hread as (_ & _ & _ & Hdata).
  assert (data = row) as -> by congruence.
  injection Hfields as Hk Hb Hm. rewrite Hk, Hb, Hm.
  unfold useSettings.prefer. destruct s; cbn. by destruct (decide _).
Qed.

Lemma saveSettings_open_fails E userId input w e :
  idb_supported E = true -> idb_open_error E = Some e ->
  exists w',
    LocalDatabase.saveSettings E userId input w = (Throw e, w') /\
    db_settings w' = db_settings w /\
    storage_settings w' = storage_settings w /\
    storage_user_id w' = storage_user_id w /\
    ui_settings w' = ui_settings w.
Proof.
  intros Hsup Hopen. unfold_db. rewrite Hsup, Hopen. cbn. by eexists.
Qed.

(** X15. A save that could not reach the object store is undone by the
    next reload. When the database does not open during
    [updateSettings], the call still resolves, and the in-memory settings
    and the flat backup hold the new values; but if the object store
    holds an older record with a non-empty [api_key] and can be read
    again at the next [loadSettings] (the remote store giving no row),
    the in-memory settings go back to the older record. *)
Theorem failed_store_write_resurfaces_old_settings E1 E2 s w id old e :
  user_id_is id w -> storage_set_error E1 = None ->
  idb_supported E1 = true -> idb_open_error E1 = Some e ->
  idb_supported E2 = true ->
  (LocalDatabase.loadSettings E2 id w).1 = Ok (Some old) ->
  ls_api_key old <> "" ->
  (isSupabaseConfigured E2 = false \/
   (exists e, remote_select E2 id = SelThrows e) \/
   remote_select E2 id = SelError \/
   remote_select E2 id = SelData None) ->
  exists w1 w2,
    useSettings.updateSettings E1 s w = (Ok tt, w1) /\
    ui_settings w1 = s /\
    (useSettings.loadLocalSettings w1).1 = Ok s /\
    useSettings.loadSettings E2 w1 = (Ok tt, w2) /\
    ui_settings w2 = {| apiKey := ls_api_key old;
                        baseUrl := ls_base_url old;
                        model := ls_model old |}.
Proof.
  intros [Hid Hne] Hset Hsup Hopen Hsup2 Hold Hkey Hremote.
  apply loadSettings_inv in Hold as (_ & Ho2 & Hr2 & Hold).
  assert (exists w1,
            useSettings.updateSettings E1 s w = (Ok tt, w1) /\
            ui_settings w1 = s /\
            storage_user_id w1 = Some id /\
            storage_settings w1 =
              Some (FlatObject (Some (apiKey s)) (Some (baseUrl s)) (Some (model s))) /\
            db_settings w1 = db_settings w) as (w1 & Hupd & Hui1 & Hid1 & Hflat1 & Hdb1).
  { unfold useSettings.updateSettings, useSettings.saveLocalSettings,
      useSettings.saveLocalDbSettings, LocalDatabase.isSupported, localStorage_setItem.
    unfold bind at 1. rewrite (getUserId_cached E1 id) by done.
    rewrite Hset, Hsup. cbn [negb].
    unfold bind at 1. unfold try_catch at 1. unfold emit, modify, bind at 1. cbn.
    unfold bind at 1. unfold try_catch at 1.
    match goal with
    | |- context [LocalDatabase.saveSettings E1 ?u ?i ?W] =>
        destruct (saveSettings_open_fails E1 u i W e Hsup Hopen)
          as (w2 & Hsave & Hdb & Hflat & Huser & _);
        rewrite Hsave
    end.
    cbn in Hdb, Hflat, Huser.
    run_upsert.
    all: eexists; split; [reflexivity|]; simpl_world.
    all: repeat split; congruence. }
  destruct (loadSettings_fallback E2 w1 id s _ (conj Hid1 Hne)
              (loadLocalSettings_flat s w1 Hflat1)
              (loadLocalDbSettings_value E2 id w1) Hremote)
    as (w2 & Hload & Hui & _).
  exists w1, w2. split; [done|]. split; [done|].
  split; [by apply loadLocalSettings_flat|]. split; [done|].
  rewrite Hui, Hsup2, loadSettings_readable by done. cbn [fst].
  rewrite Hdb1, Hold. unfold useSettings.prefer. cbn. by destruct (decide _).
Qed.

Lemma getUserId_throws E w e w' :
  getUserId E w = (Throw e, w') ->
  storage_set_error E = Some e /\
  w' = set_trace (trace w ++ [EvStorageSet "grok-user-id"])
         (set_uuid_count (S (uuid_count w)) w).
Proof.
  unfold getUserId, localStorage_setItem, crypto_randomUUID, emit, bind, get_world,
    ret, modify, throw.
  destruct (storage_user_id w) as [[|c u]|]; cbn;
    destruct (storage_set_error E); cbn; intros [= <- <-] || intros [=]; done.
Qed.

(** Once [getUserId] has returned, [updateSettings] resolves. *)
Lemma updateSettings_after_id E s userId :
  resolves (fun _ => True)
    (useSettings.saveLocalSettings E s ;;;
     useSettings.saveLocalDbSettings E userId s ;;;
     useSettings.setSettings s ;;;
     if negb (isSupabaseConfigured E) then ret tt
     else
       try_catch
         (reply <-
            useSettings.supabase_upsert E userId
              {| rr_api_key := apiKey s; rr_base_url := baseUrl s; rr_model := model s |} ;;
          match reply with
          | UpDone => ret tt
          | _ => console_error "Error saving settings:"
          end ;;;
          (if negb (isSupabaseConfigured E)
           then throw (JsError "ReferenceError" "fallbackSettings is not defined")
           else ret tt) ;;;
          (if negb (isSupabaseConfigured E)
           then throw (JsError "ReferenceError" "localSettings is not defined")
           else ret tt))
         (fun err => console_error "Failed to save settings:")).
Proof. never_rejects. Qed.

(** X16. [updateSettings] rejects only before it has saved anything: when
    it rejects, it is [getUserId] that threw (localStorage refused the
    new identifier), and neither the flat backup, nor the object store,
    nor the in-memory settings have changed. *)
Theorem updateSettings_rejects_before_saving E s w e :
  (useSettings.updateSettings E s w).1 = Throw e ->
  let w' := (useSettings.updateSettings E s w).2 in
  (getUserId E w).1 = Throw e /\
  storage_set_error E = Some e /\
  settings_side w' = settings_side w /\
  storage_user_id w' = storage_user_id w /\
  events_since w w' = [EvStorageSet "grok-user-id"].
Proof.
  remember (useSettings.updateSettings E s w) as outcome eqn:Hrun.
  unfold useSettings.updateSettings in Hrun. unfold bind at 1 in Hrun.
  destruct (getUserId E w) as [[userId|e'|] w0] eqn:Hid; cbn beta iota in Hrun.
  - destruct (updateSettings_after_id E s userId w0 I) as ([] & w1 & Hrest & _).
    rewrite Hrest in Hrun. by subst outcome.
  - subst outcome. cbn. intros [= ->]. apply getUserId_throws in Hid as [Hset ->].
    split; [done|]. split; [done|]. split; [done|]. split; [done|].
    by apply events_since_app.
  - by subst outcome.
Qed.

Lemma updateSettings_outcome E s w :
  match useSettings.updateSettings E s w with
  | (Ok _, w') => ui_settings w' = s /\ exists id w0, getUserId E w = (Ok id, w0)
  | (Throw e, w') => getUserId E w = (Throw e, w')
  | (Never, _) => False
  end.
Proof.
  unfold useSettings.updateSettings. unfold bind at 1.
  pose proof (getUserId_settles E w) as Hsettles.
  destruct (getUserId E w) as [[userId|e|] w0]; [|done..].
  unfold useSettings.saveLocalDbSettings, useSettings.saveLocalSettings,
    useSettings.supabase_upsert, useSettings.setSettings, LocalDatabase.isSupported,
    localStorage_setItem, emit, console_error, modify, try_catch, bind, ret, throw.
  repeat first
    [ match goal with
      | |- context [LocalDatabase.saveSettings E ?u ?i ?W] =>
          let H := fresh "Hsave" in
          destruct (saveSettings_any E u i W)
            as (saved & w2 & H & _ & _ & _ & _ & Hsaved);
          rewrite H; clear H
      end
    | step_js ].
  all: split; [simpl_world; done|by eexists _, _].
Qed.


(** ** The message list and the store behind it *)

(** A call of [saveMessage], in any environment: what it stores, and
    that a failure is logged. *)
Lemma saveMessage_outcome E userId message w :
  exists r w',
    LocalDatabase.saveMessage E userId message w = (r, w') /\
    ui_messages w' = ui_messages w /\
    storage_user_id w' = storage_user_id w /\
    match r with
    | Ok _ =>
        exists row,
          message_of row = message /\ lm_user_id row = userId /\
          db_messages w !! lm_id row = None /\
          db_messages w' = <[lm_id row := row]> (db_messages w) /\
          console_errors w' = console_errors w
    | Throw _ =>
        db_messages w' = db_messages w /\
        exists l, l <> [] /\ console_errors w' = console_errors w ++ l
    | Never => False
    end.
Proof.
  unfold LocalDatabase.saveMessage, LocalDatabase.store_add, LocalDatabase.openDB,
    LocalDatabase.request, new_Date_toISOString, Date_now, crypto_randomUUID,
    emit, bind, try_catch, throw, ret, console_error, modify, get_world.
  destruct (idb_supported E), (idb_open_error E), (idb_request_error E ReqAdd); cbn;
    try (eexists _, _; split; [reflexivity|]; cbn; split_goal; try done;
         eexists; split; [|rewrite <- ?app_assoc; reflexivity]; done).
  destruct (db_messages w !! randomUUID E (uuid_count w)) eqn:Hk; cbn.
  - eexists _, _; split; [reflexivity|]; cbn; split_goal; try done.
    eexists; split; [|reflexivity]; done.
  - eexists _, _; split; [reflexivity|]; cbn; split_goal; try done.
    eexists {| lm_id := _ |}. cbn. split_goal; try done. by destruct message.
Qed.

Lemma save_each_spec E userId newMessages w :
  exists r w' stored,
    useMessages.save_each E userId newMessages w = (r, w') /\
    ui_messages w' = ui_messages w /\
    storage_user_id w' = storage_user_id w /\
    rows (db_messages w') ≡ₚ rows (db_messages w) ++ stored /\
    Forall (fun row => lm_user_id row = userId) stored /\
    match r with
    | Ok _ =>
        message_of <$> stored = newMessages /\
        console_errors w' = console_errors w
    | Throw _ =>
        message_of <$> stored `prefix_of` newMessages /\
        exists l, l <> [] /\ console_errors w' = console_errors w ++ l
    | Never => False
    end.
Proof.
  revert w. induction newMessages as [|message rest IH]; intros w.
  - exists (Ok tt), w, []. cbn. split_goal; try done. by rewrite app_nil_r.
  - cbn [useMessages.save_each]. unfold bind.
    destruct (saveMessage_outcome E userId
                {| msg_role := msg_role message; msg_content := msg_content message;
                   msg_timestamp := msg_timestamp message;
                   msg_attachments := msg_attachments message |} w)
      as (r & w1 & -> & Hui & Hid & Hr).
    destruct r as [[]|e|]; [| |done].
    + destruct Hr as (row & Hrow & Hu & Hk & Hdb & Hlog).
      destruct (IH w1) as (r2 & w2 & stored & -> & Hui2 & Hid2 & Hrows & Hus & Hr2).
      exists r2, w2, (row :: stored).
      split; [done|]. split; [congruence|]. split; [congruence|].
      split.
      { rewrite Hrows, Hdb, rows_insert, delete_id by done.
        by rewrite <- Permutation_middle. }
      split; [by constructor|].
      assert (message_of row = message) as Hrow' by (by destruct message).
      destruct r2 as [[]|e2|]; [| |done].
      * destruct Hr2 as [Hall Hlog2]. split; [|congruence].
        by rewrite fmap_cons, Hrow', Hall.
      * destruct Hr2 as (Hpre & l & Hl & Hlog2). split.
        { rewrite fmap_cons, Hrow'. by apply prefix_cons. }
        exists l. split; [done|congruence].
    + destruct Hr as (Hdb & l & Hl & Hlog).
      exists (Throw e), w1, []. split; [done|]. split; [done|]. split; [done|].
      split; [by rewrite Hdb, app_nil_r|]. split; [done|].
      split; [apply prefix_nil|]. by exists l.
Qed.

Lemma getUserId_frame E w :
  let '(r, w') := getUserId E w in
  db_messages w' = db_messages w /\ ui_messages w' = ui_messages w /\
  console_errors w' = console_errors w /\ clock_count w' = clock_count w.
Proof.
  unfold getUserId, localStorage_setItem, crypto_randomUUID, emit, bind, get_world,
    ret, modify, throw.
  destruct (storage_user_id w) as [[|c u]|] eqn:Hw; cbn;
    try destruct (storage_set_error E); cbn; by split_goal.
Qed.


Lemma deleteMessages_outcome E delete_error userId w :
  exists r w',
    LocalDatabase.deleteMessages E delete_error userId w = (r, w') /\
    ui_messages w' = ui_messages w /\
    match r with
    | Ok _ =>
        db_messages w' =
          filter (fun entry => lm_user_id entry.2 <> userId) (db_messages w) /\
        console_errors w' = console_errors w
    | Throw _ =>
        db_messages w' = db_messages w /\
        exists l, l <> [] /\ console_errors w' = console_errors w ++ l
    | Never => False
    end.
Proof.
  unfold LocalDatabase.deleteMessages, LocalDatabase.openDB, LocalDatabase.request,
    bind, try_catch, throw, ret, console_error, modify, get_world.
  destruct (idb_supported E), (idb_open_error E), (idb_request_error E ReqCursor); cbn;
    try (eexists _, _; split; [reflexivity|]; cbn; split_goal; try done;
         eexists; split; [|rewrite <- ?app_assoc; reflexivity]; done).
  pose proof (deleted_entries userId (db_messages w)) as Hdel.
  destruct (entries_of_user userId (db_messages w)) as [|entry cursor], delete_error;
    cbn; eexists _, _; (split; [reflexivity|]); cbn; rewrite <- ?Hdel;
    split_goal; try done; eexists; (split; [|reflexivity]); done.
Qed.

(** The identifier [getUserId] returns does not depend on the in-memory
    list or on the trace. *)
Lemma getUserId_result E w l t :
  (getUserId E (set_ui_messages l (set_trace t w))).1 = (getUserId E w).1.
Proof.
  unfold getUserId, localStorage_setItem, crypto_randomUUID, emit, bind, get_world,
    ret, modify, throw. cbn.
  destruct (storage_user_id w) as [[|c u]|]; cbn;
    try destruct (storage_set_error E); done.
Qed.


(** A call of [loadMessages] on the store, in any environment. *)
Lemma loadMessages_outcome E userId limit w :
  exists r w',
    LocalDatabase.loadMessages E userId limit w = (r, w') /\
    ui_messages w' = ui_messages w /\ db_messages w' = db_messages w /\
    (idb_supported E = true -> idb_open_error E = None ->
     idb_request_error E ReqCursor = None ->
     r = Ok (cursor_loop limit []
               (open_cursor userId (clock E (clock_count w)) (db_messages w)))) /\
    (idb_supported E = false \/ idb_open_error E <> None \/
     idb_request_error E ReqCursor <> None ->
     exists e, r = Throw e) /\
    r <> Never.
Proof.
  unfold LocalDatabase.loadMessages, LocalDatabase.openDB, LocalDatabase.request,
    Date_now, bind, try_catch, throw, ret, console_error, modify, get_world.
  destruct (idb_supported E), (idb_open_error E), (idb_request_error E ReqCursor); cbn;
    eexists _, _; (split; [reflexivity|]); cbn; split_goal; try done;
    try (intros [?|[?|?]]; done); try (intros; by eexists).
Qed.


Lemma save_each_eq E userId newMessages w :
  useMessages.save_each E userId newMessages w = save_messages E userId newMessages w.
Proof.
  revert w. induction newMessages as [|message rest IH]; intros w; [done|].
  cbn [useMessages.save_each save_messages]. unfold bind.
  destruct message as [role content ts atts].
  cbn [msg_role msg_content msg_timestamp msg_attachments].
  destruct (LocalDatabase.saveMessage E userId _ w) as [[[]|e|] w']; [apply IH|done..].
Qed.

Lemma page_world_void_lift {A} (m : M A) p :
  page_world (void (lift m) p).2 = (m (page_world p)).2.
Proof. unfold void, lift. by destruct (m (page_world p)) as [[a|e|] w']. Qed.

(** [addMessages] for a cached user: the in-memory list is extended, then
    the loop runs. *)
Lemma addMessages_cached E newMessages w id :
  user_id_is id w -> idb_supported E = true ->
  (useMessages.addMessages E newMessages w).2 =
  let w0 := set_ui_messages (ui_messages w ++ newMessages)
              (set_trace (trace w ++ [EvSetMessages (ui_messages w ++ newMessages)]) w) in
  match save_messages E id newMessages w0 with
  | (Ok _, w1) => w1
  | (Throw _, w1) =>
      set_console_errors
        (console_errors w1 ++ ["Failed to save messages to local database:"]) w1
  | (Never, w1) => w1
  end.
Proof.
  intros [Hid Hne] Hsup.
  unfold useMessages.addMessages, useMessages.setMessages, LocalDatabase.isSupported,
    emit, modify, get_world.
  unfold bind at 1 2 3. cbn [fst snd]. rewrite Hsup.
  unfold try_catch, bind. cbn zeta.
  rewrite (getUserId_cached E id) by done.
  rewrite save_each_eq.
  by destruct (save_messages E id newMessages _) as [[[]|e|] w1].
Qed.

(** X21. Messages survive a reload. For a cached user without stored
    messages, after [addMessages] has stored messages with strictly
    increasing timestamps (nothing was logged), a later [loadMessages]
    of the hook, at a time not before the timestamps, sets the in-memory
    list to exactly these messages, in the order they were added. *)
Theorem messages_survive_reload E E' newMessages p id :
  let w := page_world p in
  let p1 := after E (CallAddMessages newMessages) p in
  user_id_is id w -> idb_healthy E -> idb_healthy E' ->
  messages_of_user id (db_messages w) = [] ->
  StronglySorted (fun a b => msg_timestamp a < msg_timestamp b) newMessages ->
  Forall (fun m => 0 <= msg_timestamp m <= clock E' (clock_count (page_world p1)))
    newMessages ->
  console_errors (page_world p1) = console_errors w ->
  ui_messages (page_world (after E' CallHookLoadMessages p1)) = newMessages.
Proof.
  cbv zeta. intros Hcached HE HE' Hnone Hsorted.
  pose proof Hcached as [Hid Hne].
  pose proof HE as (Hsup & _). pose proof HE' as (Hsup' & _).
  remember (after E (CallAddMessages newMessages) p) as p1 eqn:Hp1.
  assert (page_world p1 = (useMessages.addMessages E newMessages (page_world p)).2)
    as Hw1 by (subst p1; apply page_world_void_lift).
  rewrite (addMessages_cached E newMessages _ id Hcached Hsup) in Hw1. cbv zeta in Hw1.
  clear Hp1. revert Hw1.
  match goal with |- context [save_messages E id newMessages ?W] => set (w0 := W) end.
  destruct (save_each_spec E id newMessages w0)
    as (r & w1 & stored & Hrun & _ & Hid1 & _ & _ & Hr).
  rewrite save_each_eq in Hrun. rewrite Hrun.
  destruct r as [[]|e|]; [| |done]; intros Hw1; rewrite Hw1.
  2: { destruct Hr as (_ & l & Hl & Hlog). intros _ Hsame. exfalso.
       cbn in Hsame. rewrite Hlog, <- app_assoc in Hsame. subst w0. cbn in Hsame.
       apply (f_equal length) in Hsame. rewrite !length_app in Hsame.
       cbn in Hsame. lia. }
  intros Hbound _.
  destruct (loadMessages_save_order E E' id newMessages w0 w1 HE HE' Hnone Hsorted
              Hbound Hrun) as (rs & Hload & Hrs).
  unfold after. cbn [perform].
  unfold void, useMessages.loadMessages, LocalDatabase.isSupported.
  rewrite Hsup'. cbn [negb].
  unfold finallyP, try_catchP, bindP, lift, useMessages.setIsLoading.
  rewrite Hw1. rewrite (getUserId_cached E' id w1) by first [done | by rewrite Hid1].
  cbn [page_world set_page_world].
  destruct (LocalDatabase.loadMessages E' id None w1) as [r2 w2].
  cbn in Hload. subst r2. cbn. exact Hrs.
Qed.

(** ** What [sendMessage] sends, and what comes of it *)

Lemma fetches_app l1 l2 : fetches (l1 ++ l2) = fetches l1 ++ fetches l2.
Proof. unfold fetches. apply omap_app. Qed.

(** [addMessage] talks to the store only: no request, no error shown,
    and the settings, the flags of [App] and the clock readings of the
    caller are not its business. *)
Lemma addMessage_events E m w :
  exists w' rest,
    useMessages.addMessage E m w = (Ok tt, w') /\
    ui_messages w' = ui_messages w ++ [m] /\
    ui_error w' = ui_error w /\
    ui_isSettingsOpen w' = ui_isSettingsOpen w /\
    trace w' = trace w ++ rest /\
    fetches rest = [] /\
    errors_shown rest = [] /\
    (forall k r, db_messages w' !! k = Some r ->
                 db_messages w !! k = Some r \/ message_of r = m).
Proof.
  destruct m as [role content ts atts].
  unfold_js. cbn [msg_role msg_content msg_timestamp msg_attachments].
  repeat step_js; eexists _, _;
    (split; [reflexivity|]); simpl_world; (split; [reflexivity|]);
    (split; [reflexivity|]); (split; [reflexivity|]);
    (split; [rewrite <- ?app_assoc; reflexivity|]);
    (split; [reflexivity|]); (split; [reflexivity|]);
    intros k r; rewrite ?lookup_insert; try case_decide; intros; simplify_eq; auto.
Qed.

(** [addMessage] on a content that is not text: it returns, or it waits
    for ever on the save; the store is as it was in both cases. *)
Lemma addMessage_untyped_events E m w :
  exists r w' rest,
    useMessages.addMessage_untyped E m w = (r, w') /\
    (r = Ok tt \/ r = Never) /\
    ui_messages w' = ui_messages w ++ [m] /\
    ui_error w' = ui_error w /\
    ui_isSettingsOpen w' = ui_isSettingsOpen w /\
    ui_isLoading w' = ui_isLoading w /\
    trace w' = trace w ++ rest /\
    fetches rest = [] /\
    errors_shown rest = [] /\
    db_messages w' = db_messages w.
Proof.
  destruct m as [role content ts atts].
  unfold useMessages.addMessage_untyped, LocalDatabase.saveMessage_untyped, never.
  unfold_js. cbn [msg_role msg_content msg_timestamp msg_attachments].
  repeat step_js; eexists _, _, _;
    (split; [reflexivity|]); simpl_world; (split; [by auto|]);
    (split; [reflexivity|]); (split; [reflexivity|]); (split; [reflexivity|]);
    (split; [reflexivity|]);
    (split; [rewrite <- ?app_assoc; reflexivity|]);
    (split; [reflexivity|]); (split; [reflexivity|]); reflexivity.
Qed.

Lemma forEach_extends E attachments : forall acc w,
  exists added l,
    App.forEach E attachments acc w = (Ok (acc +:+ added), set_console_errors l w).
Proof.
  induction attachments as [|a rest IH]; intros acc w; simpl.
  - exists "", (console_errors w). by rewrite set_console_errors_id, string_app_nil_r.
  - unfold bind at 1, App.describe.
    destruct (App.is_text_file a); [destruct (atob E (att_content a))|];
      unfold_db;
      match goal with
      | |- context [App.forEach E rest ?acc' ?W] =>
          destruct (IH acc' W) as (out & logs & ->)
      end; rewrite string_app_assoc; by eexists _, _.
Qed.

Lemma currentMessageContent_extends E content attachments w :
  exists added l,
    App.currentMessageContent E content attachments w
    = (Ok (content +:+ added), set_console_errors l w) /\
    (attachments = None \/ attachments = Some [] -> added = "").
Proof.
  unfold App.currentMessageContent.
  destruct attachments as [[|a l]|].
  - exists "", (console_errors w).
    by rewrite set_console_errors_id, string_app_nil_r.
  - match goal with
    | |- context [App.forEach E ?atts (content +:+ ?head) w] =>
        destruct (forEach_extends E atts (content +:+ head) w) as (added & logs & ->)
    end.
    rewrite string_app_assoc. eexists _, _. split; [reflexivity|].
    by intros [|].
  - exists "", (console_errors w).
    by rewrite set_console_errors_id, string_app_nil_r.
Qed.

(** Evaluates [sendMessage] like [run_send], keeping what the calls of
    [addMessage] and [currentMessageContent] put in the trace and in the
    text. *)
Ltac run_send_events E Hfetch :=
  unfold_send;
  repeat first
    [ rewrite Hfetch
    | match goal with
      | |- context [useMessages.addMessage E ?m ?W] =>
          let w' := fresh "w" in
          let rest := fresh "rest" in
          let H := fresh "Hadd" in
          let Hm := fresh "Hm" in
          let He := fresh "He" in
          let Ho := fresh "Ho" in
          let Ht := fresh "Ht" in
          let Hf := fresh "Hf" in
          let Hn := fresh "Hn" in
          let Hdb := fresh "Hdb" in
          destruct (addMessage_events E m W)
            as (w' & rest & H & Hm & He & Ho & Ht & Hf & Hn & Hdb);
          rewrite H; clear H
      | |- context [useMessages.addMessage_untyped E ?m ?W] =>
          let w' := fresh "w" in
          let rest := fresh "rest" in
          let r := fresh "r" in
          let H := fresh "Hadd" in
          let Hm := fresh "Hm" in
          let He := fresh "He" in
          let Ho := fresh "Ho" in
          let Hl := fresh "Hl" in
          let Ht := fresh "Ht" in
          let Hf := fresh "Hf" in
          let Hn := fresh "Hn" in
          let Hdb := fresh "Hdb" in
          destruct (addMessage_untyped_events E m W)
            as (r & w' & rest & H & [-> | ->] & Hm & He & Ho & Hl & Ht & Hf & Hn & Hdb);
          rewrite H; clear H
      | |- context [App.currentMessageContent E ?c ?a ?W] =>
          let s := fresh "added" in
          let l := fresh "logs" in
          let H := fresh "Hcur" in
          let Hs := fresh "Hplain" in
          destruct (currentMessageContent_extends E c a W) as (s & l & H & Hs);
          rewrite H; clear H
      end
    | step_js ].


(** A reply whose content is the number [42]: the send never settles.
    The loader stays, no error is shown, the in-memory list has gained
    both messages and the store the user's message only. *)
Example sendMessage_waits_for_ever :
  let '(r, w') :=
    App.sendMessage (env_endpoint response_200_number) "hi" None world_ready in
  r = Never /\
  ui_isLoading w' = true /\
  ui_error w' = None /\
  ui_messages w' = ui_messages world_ready
                   ++ [user_message "hi" None 1002; text_message assistant "42" 1004] /\
  db_messages w' = <["id-2" := {| lm_id := "id-2"; lm_user_id := "u"; lm_role := user;
                                  lm_content := "hi"; lm_timestamp := 1002;
                                  lm_attachments := None; lm_created_at := "1003" |}]>
                     (db_messages world_ready).
Proof. by vm_compute. Qed.

(** X23. A 2xx response with a non-empty [choices[0].message.content]:
    [sendMessage] resolves, the in-memory list gains the user's message
    and then an assistant message with exactly that content, no error is
    shown, [isLoading] is false, and every record added to the store is
    one of these two messages. *)
Theorem sendMessage_reply E w content attachments response c s :
  apiKey (ui_settings w) <> "" ->
  (forall req, fetch E req = FetchResponse response) ->
  ok response = true ->
  reply_text response = Some (String c s) ->
  exists w' now,
    App.sendMessage E content attachments w = (Ok tt, w') /\
    ui_messages w'
    = ui_messages w
      ++ [user_message content attachments (clock E (clock_count w));
          {| msg_role := assistant; msg_content := String c s;
             msg_timestamp := now; msg_attachments := None |}] /\
    ui_error w' = None /\
    ui_isLoading w' = false /\
    errors_shown (events_since w w') = [] /\
    (forall k r, db_messages w' !! k = Some r ->
       db_messages w !! k = Some r \/
       message_of r = user_message content attachments (clock E (clock_count w)) \/
       message_of r = {| msg_role := assistant; msg_content := String c s;
                         msg_timestamp := now; msg_attachments := None |}).
Proof.
  intros Hkey Hfetch Hok Hcontent. unfold reply_text, reply_value in Hcontent.
  destruct (body response) as [e| |o] eqn:Hbody; try done.
  destruct (choice0_content o) as [[text|shown]|] eqn:Hvalue; try done.
  injection Hcontent as ->.
  run_send_events E Hfetch.
  all: eexists _, _; (split; [reflexivity|]); simpl_world.
  all: split; [rewrite Hm0, Hm, <- app_assoc; reflexivity|].
  all: split; [done|].
  all: split; [done|].
  all: split.
  all: try (intros k r Hr; destruct (Hdb0 k r Hr) as [Hold|?]; [|by auto];
            destruct (Hdb k r Hold); by auto).
  all: unfold events_since; simpl_world; rewrite Ht0, Ht, <- !app_assoc, drop_app_length.
  all: unfold errors_shown in *; rewrite !filter_app, Hn, Hn0; reflexivity.
Qed.

(** X24. No reply. When [fetch] rejects, or a 2xx response has a body
    that is not JSON, [sendMessage] still resolves: the user's message
    stays in the in-memory list, no assistant message is added or
    stored, [isLoading] is false, and the error shown is the message of
    the error, or ['Failed to send message'] when what was thrown is not
    an [Error]. *)
Theorem sendMessage_no_reply E w content attachments e :
  apiKey (ui_settings w) <> "" ->
  (forall req, fetch E req = FetchRejects e) \/
  (exists response,
     (forall req, fetch E req = FetchResponse response) /\
     ok response = true /\ body response = BodyInvalid e) ->
  exists w',
    App.sendMessage E content attachments w = (Ok tt, w') /\
    ui_messages w'
    = ui_messages w ++ [user_message content attachments (clock E (clock_count w))] /\
    ui_error w' = Some (match e with
                        | JsError _ message => message
                        | JsThrown => "Failed to send message"
                        end) /\
    ui_isLoading w' = false /\
    (forall k r, db_messages w' !! k = Some r -> lm_role r = assistant ->
                 db_messages w !! k = Some r).
Proof.
  intros Hkey [Hfetch|(response & Hfetch & Hok & Hbody)].
  all: run_send_events E Hfetch.
  all: eexists; (split; [reflexivity|]); simpl_world.
  all: split; [exact Hm|]. 
  all: split; [done|].
  all: split; [done|].
  all: intros k r Hr Hrole; destruct (Hdb k r Hr) as [|Hmsg]; [done|].
  all: apply message_of_role in Hmsg; simpl in Hmsg; congruence.
Qed.

(** How a send ends: it resolves, or it waits for ever after a reply
    whose content is not text. *)
Lemma sendMessage_outcome E content attachments w :
  (App.sendMessage E content attachments w).1 = Ok tt \/
  ((App.sendMessage E content attachments w).1 = Never /\
   exists req response shown,
     fetch E req = FetchResponse response /\
     reply_value response = Some (ContentOther shown)).
Proof.
  run_send_events E (eq_refl tt).
  all: cbn [fst snd]; try (by left).
  all: right; split; [done|].
  all: match goal with
       | Hfetch : fetch _ ?req = FetchResponse ?response,
         Hbody : body ?response = BodyObject ?o,
         Hvalue : choice0_content ?o = Some (ContentOther ?shown) |- _ =>
           exists req, response, shown; unfold reply_value; rewrite Hbody; done
       end.
Qed.


(** ** The buttons of the settings modal *)

(** [clearAllData] in any environment: both stores are emptied, or
    neither is touched. *)
Lemma clearAllData_outcome E w :
  exists r w',
    LocalDatabase.clearAllData E w = (r, w') /\
    storage_settings w' = storage_settings w /\
    storage_user_id w' = storage_user_id w /\
    match r with
    | Ok _ => db_settings w' = ∅ /\ db_messages w' = ∅
    | Throw _ => db_settings w' = db_settings w /\ db_messages w' = db_messages w
    | Never => False
    end /\
    (idb_healthy E -> r = Ok tt).
Proof.
  unfold LocalDatabase.clearAllData, LocalDatabase.openDB, LocalDatabase.clear_events,
    LocalDatabase.clear_log, bind, try_catch, throw, ret, console_error, modify.
  destruct (idb_supported E) eqn:Hsup, (idb_open_error E) eqn:Hopen; cbn;
    try (eexists _, _; split; [reflexivity|]; cbn; split_goal; try done; not_healthy).
  destruct (idb_request_error E ReqClearSettings) eqn:Hs; cbn.
  { eexists _, _; split; [reflexivity|]; cbn; split_goal; try done; not_healthy. }
  destruct (idb_request_error E ReqClearMessages) eqn:Hm; cbn.
  { eexists _, _; split; [reflexivity|]; cbn; split_goal; try done; not_healthy. }
  eexists _, _; split; [reflexivity|]; cbn; split_goal; done.
Qed.


Lemma getMessageCount_outcome E userId w :
  exists r w',
    LocalDatabase.getMessageCount E userId w = (r, w') /\
    db_messages w' = db_messages w /\ db_settings w' = db_settings w /\
    (idb_supported E = true -> idb_open_error E = None ->
     idb_request_error E ReqCount = None ->
     r = Ok (length (messages_of_user userId (db_messages w)))) /\
    (idb_supported E = false \/ idb_open_error E <> None \/
     idb_request_error E ReqCount <> None ->
     exists e, r = Throw e) /\
    r <> Never.
Proof.
  unfold LocalDatabase.getMessageCount, LocalDatabase.openDB, LocalDatabase.request,
    bind, try_catch, throw, ret, console_error, modify, get_world.
  destruct (idb_supported E), (idb_open_error E), (idb_request_error E ReqCount); cbn;
    eexists _, _; (split; [reflexivity|]); cbn; split_goal; try done;
    try (intros [?|[?|?]]; done); try (intros; by eexists).
Qed.


(** ** Messages with the same timestamp *)

(** A save that succeeds on a working store files the record under the
    next identifier. *)
Lemma saveMessage_next_id E userId message w w' :
  idb_healthy E ->
  LocalDatabase.saveMessage E userId message w = (Ok tt, w') ->
  exists row,
    lm_id row = randomUUID E (uuid_count w) /\
    uuid_count w' = S (uuid_count w) /\
    message_of row = message /\ lm_user_id row = userId /\
    db_messages w !! lm_id row = None /\
    db_messages w' = <[lm_id row := row]> (db_messages w).
Proof.
  intros (Hsup & Hopen & Hreq).
  unfold LocalDatabase.saveMessage, LocalDatabase.store_add, LocalDatabase.openDB,
    LocalDatabase.request, new_Date_toISOString, Date_now, crypto_randomUUID,
    emit, bind, try_catch, throw, ret, console_error, modify, get_world.
  rewrite Hsup, Hopen, Hreq. cbn.
  destruct (db_messages w !! randomUUID E (uuid_count w)) eqn:Hk; cbn; [done|].
  intros [= <-]. eexists {| lm_id := _ |}. cbn. split_goal; try done.
  by destruct message.
Qed.

(** X27. Messages with the same timestamp come back in the order of their
    identifiers, not in the order they were saved: when two messages with
    equal timestamps are saved for a user without messages, and the
    identifier generated for the second sorts before the one generated
    for the first, [loadMessages] returns the second before the
    first. *)
Theorem loadMessages_equal_timestamps E E' userId m1 m2 w w' :
  idb_healthy E -> idb_healthy E' ->
  messages_of_user userId (db_messages w) = [] ->
  msg_timestamp m1 = msg_timestamp m2 ->
  0 <= msg_timestamp m1 <= clock E' (clock_count w') ->
  str_lt (randomUUID E (S (uuid_count w))) (randomUUID E (uuid_count w)) ->
  save_messages E userId [m1; m2] w = (Ok tt, w') ->
  exists r1 r2,
    (LocalDatabase.loadMessages E' userId None w').1 = Ok [r2; r1] /\
    message_of r1 = m1 /\ message_of r2 = m2.
Proof.
  intros HE HE' Hnone Hts Hbound Hlt Hsave.
  cbn [save_messages] in Hsave. unfold bind, ret in Hsave.
  destruct (LocalDatabase.saveMessage E userId m1 w) as [[[]|e1|] w1] eqn:Hs1; [|done..].
  destruct (LocalDatabase.saveMessage E userId m2 w1) as [[[]|e2|] w2] eqn:Hs2; [|done..].
  injection Hsave as <-.
  apply saveMessage_next_id in Hs1 as (r1 & Hid1 & Hcount & Hm1 & Hu1 & Hk1 & Hdb1); [|done].
  apply saveMessage_next_id in Hs2 as (r2 & Hid2 & _ & Hm2 & Hu2 & Hk2 & Hdb2); [|done].
  rewrite Hcount in Hid2. rewrite <- Hid1, <- Hid2 in Hlt.
  exists r1, r2. split; [|done].
  rewrite loadMessages_healthy by done. cbn [fst].
  rewrite cursor_loop_unlimited. cbn [app]. f_equal.
  assert (lm_timestamp r1 = msg_timestamp m1) as Ht1 by (by rewrite <- Hm1).
  assert (lm_timestamp r2 = msg_timestamp m2) as Ht2 by (by rewrite <- Hm2).
  assert (open_cursor userId (clock E' (clock_count w2)) (db_messages w2)
          ≡ₚ [r2; r1]) as Hperm.
  { rewrite open_cursor_perm, Hdb2, rows_insert, delete_id by done.
    rewrite Hdb1, rows_insert, delete_id by done.
    rewrite !filter_cons, !decide_True by (split; [done|lia]).
    fold (messages_of_user userId (db_messages w)) in *.
    rewrite filter_none; [done|].
    intros r Hr [Hu _]. 
    assert (r ∈ messages_of_user userId (db_messages w)) as Hin
      by (by apply list_elem_of_filter).
    rewrite Hnone in Hin. by apply not_elem_of_nil in Hin. }
  apply (StronglySorted_unique_strong cursor_le); [|apply open_cursor_sorted| |done].
  - intros x1 x2 Hx1 Hx2 H12 H21. rewrite Hperm in Hx1.
    assert (lm_id x1 = lm_id x2) as Hsame.
    { unfold cursor_le, str_lt, str_le in *.
      destruct H12 as [[H1 H2]|[Hu [Ht|[Ht H1]]]], H21 as [[H3 H4]|[Hu' [Ht'|[Ht' H3]]]];
        try lia; try congruence.
      - exfalso. apply H2. by apply (anti_symm String.le).
      - by apply (anti_symm String.le). }
    destruct Hlt as [_ Hne].
    apply elem_of_cons in Hx1 as [->| ->%list_elem_of_singleton];
      apply elem_of_cons in Hx2 as [->| ->%list_elem_of_singleton];
      congruence.
  - apply SSorted_cons; [repeat constructor|].
    apply Forall_cons. split; [|by apply Forall_nil].
    right. split; [congruence|]. right. split; [lia|]. by destruct Hlt.
Qed.

(** ** The remote row, whatever the local tiers do *)

Lemma loadSettings_takes_remote_row E w data userId w0 :
  isSupabaseConfigured E = true ->
  getUserId E w = (Ok userId, w0) ->
  remote_select E userId = SelData (Some data) ->
  exists w',
    useSettings.loadSettings E w = (Ok tt, w') /\
    ui_settings w' = {| apiKey := rr_api_key data;
                        baseUrl := rr_base_url data;
                        model := rr_model data |} /\
    (storage_set_error E = None ->
     storage_settings w' =
       Some (FlatObject (Some (rr_api_key data)) (Some (rr_base_url data))
               (Some (rr_model data)))) /\
    (storage_set_error E <> None -> storage_settings w' = storage_settings w) /\
    (idb_supported E = false -> db_settings w' = db_settings w).
Proof.
  intros Hconf Hid Hrow.
  destruct (getUserId_settings E w _ _ Hid) as (Hdb0 & Hflat0 & Hui0).
  destruct (useSettings.loadLocalSettings w).1 as [flat|e|] eqn:Hflat.
  2, 3: unfold useSettings.loadLocalSettings, console_error, modify, get_world, bind, ret
          in Hflat; by destruct (storage_settings w) as [[]|].
  pose proof (loadLocalDbSettings_value E userId w) as Hdb.
  unfold useSettings.loadSettings, useSettings.supabase_select, useSettings.setSettings,
    useSettings.setIsLoading, useSettings.saveLocalSettings,
    useSettings.saveLocalDbSettings, LocalDatabase.isSupported, localStorage_setItem,
    emit, console_error, modify, finally, try_catch, bind, ret, throw.
  repeat first
    [ rewrite Hid
    | match goal with
      | |- context [useSettings.loadLocalSettings ?W] =>
          let l := fresh "l" in
          let H := fresh "H" in
          destruct (loadLocalSettings_at w W) as (l & H); [simpl_world; congruence|];
          rewrite H, Hflat; clear H
      | |- context [useSettings.loadLocalDbSettings E userId ?W] =>
          let l := fresh "l" in
          let H := fresh "H" in
          destruct (loadLocalDbSettings_at E userId w W) as (l & H);
            [simpl_world; congruence|];
          rewrite H, Hdb; clear H
      | |- context [LocalDatabase.saveSettings E ?u ?i ?W] =>
          let H := fresh "Hsave" in
          let Hu := fresh "Hui" in
          let Hf := fresh "Hstored" in
          let Hs := fresh "Hsaved" in
          destruct (saveSettings_any E u i W)
            as (saved & w2 & H & _ & Hu & Hf & _ & Hs);
          rewrite H; clear H
      end
    | step_js ].
  all: repeat match goal with a : unit |- _ => destruct a end.
  all: eexists; split; [reflexivity|]; simpl_world.
  all: rewrite ?Hui, ?Hstored; simpl_world.
  all: split_goal; try done; try congruence.
Qed.

Lemma loadSettings_stores_remote_row E w data userId w0 :
  idb_healthy E ->
  isSupabaseConfigured E = true ->
  settings_wf (db_settings w) ->
  getUserId E w = (Ok userId, w0) ->
  remote_select E userId = SelData (Some data) ->
  exists row,
    settings_of_user userId (db_settings (useSettings.loadSettings E w).2) = [row] /\
    saved_fields row = {| in_api_key := rr_api_key data;
                          in_base_url := rr_base_url data;
                          in_model := rr_model data |}.
Proof.
  intros HE Hconf Hwf Hid Hrow. pose proof HE as (Hsup & _).
  destruct (getUserId_settings E w _ _ Hid) as (Hdb0 & Hflat0 & Hui0).
  destruct (useSettings.loadLocalSettings w).1 as [flat|e|] eqn:Hflat.
  2, 3: unfold useSettings.loadLocalSettings, console_error, modify, get_world, bind, ret
          in Hflat; by destruct (storage_settings w) as [[]|].
  pose proof (loadLocalDbSettings_value E userId w) as Hdb.
  unfold useSettings.loadSettings, useSettings.supabase_select, useSettings.setSettings,
    useSettings.setIsLoading, useSettings.saveLocalSettings,
    useSettings.saveLocalDbSettings, LocalDatabase.isSupported, localStorage_setItem,
    emit, console_error, modify, finally, try_catch, bind, ret, throw.
  repeat first
    [ rewrite Hid
    | match goal with
      | |- context [useSettings.loadLocalSettings ?W] =>
          let l := fresh "l" in
          let H := fresh "H" in
          destruct (loadLocalSettings_at w W) as (l & H); [simpl_world; congruence|];
          rewrite H, Hflat; clear H
      | |- context [useSettings.loadLocalDbSettings E userId ?W] =>
          let l := fresh "l" in
          let H := fresh "H" in
          destruct (loadLocalDbSettings_at E userId w W) as (l & H);
            [simpl_world; congruence|];
          rewrite H, Hdb; clear H
      | |- context [LocalDatabase.saveSettings E ?u ?i ?W] =>
          let H := fresh "Hsave" in
          let Ho := fresh "Hone" in
          let Hf := fresh "Hfields" in
          destruct (saveSettings_spec E u i W HE)
            as (saved & w2 & H & _ & Ho & _ & Hf & _);
            [simpl_world; by rewrite Hdb0|];
          rewrite H; clear H
      end
    | step_js ].
  all: exists saved; simpl_world; done.
Qed.




(** ** The properties at sample inputs *)

Lemma saveSettings_loadSettings_roundtrip_witness :
  idb_healthy env_ok /\ settings_wf (db_settings world_empty) /\
  exists w1 w2 row,
    LocalDatabase.saveSettings env_ok "u" input_A world_empty = (Ok tt, w1) /\
    save_all "u" [(env_ok, input_B)] w1 = (Ok tt, w2) /\
    (LocalDatabase.loadSettings env_ok "u" w2).1 = Ok (Some row) /\
    saved_fields row = input_B /\
    settings_of_user "u" (db_settings w2) = [row].
Proof.
  assert (idb_healthy env_ok) as HE by (by repeat split).
  assert (settings_wf (db_settings world_empty)) as Hwf
    by exact settings_wf_empty.
  split; [exact HE|]. split; [exact Hwf|].
  destruct (saveSettings_loadSettings_roundtrip env_ok env_ok "u" input_A
              [(env_ok, input_B)] world_empty HE HE
              ltac:(by repeat constructor) Hwf)
    as (w1 & w2 & row1 & row2 & Hsave & _ & _ & _ & _ & Hall & Hload & Hlast & Hone & _).
  exists w1, w2, row2.
  split; [exact Hsave|]. split; [exact Hall|]. split; [exact Hload|].
  split; [|exact Hone].
  change (Some input_B = Some (saved_fields row2)) in Hlast. congruence.
Defined.

Lemma loadSettings_object_store_first_witness :
  storage_user_id world_A_B = Some "u" /\
  remote_select env_remote_down "u" = SelError /\
  (useSettings.loadLocalSettings world_A_B).1 = Ok settings_A /\
  (exists row, (LocalDatabase.loadSettings env_remote_down "u" world_A_B).1
               = Ok (Some row) /\ ls_api_key row = "B") /\
  exists w',
    useSettings.loadSettings env_remote_down world_A_B = (Ok tt, w') /\
    ui_settings w' = settings_B.
Proof.
  split; [by vm_compute|]. split; [done|]. split; [by vm_compute|].
  split; [eexists; split; [vm_compute; reflexivity|reflexivity]|].
  edestruct (loadSettings_object_store_first env_remote_down world_A_B) as (w' & Hload & Hui & _).
  - vm_compute. reflexivity.
  - vm_compute. reflexivity.
  - by vm_compute.
  - right. right. reflexivity.
  - exists w'. split; [exact Hload|]. rewrite Hui. reflexivity.
Defined.


Lemma clearAllData_clears_both_witness :
  idb_healthy env_ok /\
  exists w',
    LocalDatabase.clearAllData env_ok world_two_messages = (Ok tt, w') /\
    (LocalDatabase.loadSettings env_ok "u" w').1 = Ok None /\
    (LocalDatabase.loadMessages env_ok "u" None w').1 = Ok [].
Proof.
  assert (idb_healthy env_ok) as HE by (by repeat split).
  split; [exact HE|].
  destruct (clearAllData_clears_both env_ok world_two_messages) as (_ & _ & Hinv & Hok).
  destruct (Hok HE) as (w' & Hclear).
  destruct (Hinv w' Hclear) as (_ & _ & Hload).
  exists w'. split; [exact Hclear|]. apply Hload, HE.
Defined.

Lemma addMessage_keeps_message_witness :
  exists w',
    useMessages.addMessage env_open_fails (text_message user "again" 30) world_chatting
    = (Ok tt, w') /\
    ui_messages w' = ui_messages world_chatting ++ [text_message user "again" 30] /\
    db_messages w' = db_messages world_chatting.
Proof.
  destruct (addMessage_keeps_message env_open_fails (text_message user "again" 30)
              world_chatting)
    as (w' & rest & Hadd & Hmem & _ & _ & _ & Hfail).
  exists w'. split; [exact Hadd|]. split; [exact Hmem|].
  apply Hfail; [reflexivity|]. left. done.
Defined.

Lemma sendMessage_empty_reply_witness :
  ok response_200_empty = true /\
  reply_text response_200_empty = Some "" /\
  exists w' now,
    App.sendMessage (env_endpoint response_200_empty) "hi" None world_ready = (Ok tt, w') /\
    ui_messages w'
    = ui_messages world_ready
      ++ [user_message "hi" None 1002;
          {| msg_role := assistant; msg_content := "No response from AI";
             msg_timestamp := now; msg_attachments := None |}].
Proof.
  split; [done|]. split; [done|].
  destruct (sendMessage_empty_reply (env_endpoint response_200_empty) world_ready
              "hi" None response_200_empty)
    as (w' & added & Hsend & Hmem & _ & Hone); [done|done|done|by right|].
  destruct (Hone _ eq_refl) as (now & -> & _).
  exists w', now. split; [exact Hsend|]. rewrite Hmem. reflexivity.
Defined.

Lemma messages_wf_list (m : gmap string LocalMessage) :
  Forall (fun entry => lm_id entry.2 = entry.1) (map_to_list m) -> messages_wf m.
Proof.
  intros Hall k r Hk. rewrite Forall_forall in Hall.
  apply (Hall (k, r)). by apply elem_of_map_to_list.
Qed.

Lemma world_two_messages_wf : messages_wf (db_messages world_two_messages).
Proof. apply messages_wf_list. vm_compute. repeat constructor. Qed.

Lemma world_A_B_wf : settings_wf (db_settings world_A_B).
Proof. apply saveSettings_wf. exact settings_wf_empty. Qed.

Lemma env_ok_healthy : idb_healthy env_ok.
Proof. by repeat split. Qed.

Lemma env_remote_C_healthy : idb_healthy env_remote_C.
Proof. by repeat split. Qed.

Lemma deleteMessages_removes_only_that_user_witness :
  idb_healthy env_ok /\ messages_wf (db_messages world_two_messages) /\
  exists w',
    LocalDatabase.deleteMessages env_ok None "u" world_two_messages = (Ok tt, w') /\
    (forall limit, (LocalDatabase.loadMessages env_ok "u" limit w').1 = Ok []) /\
    (LocalDatabase.getMessageCount env_ok "u" w').1 = Ok 0%nat /\
    forall other, other <> "u" ->
      (forall limit, (LocalDatabase.loadMessages env_ok other limit w').1 =
                     (LocalDatabase.loadMessages env_ok other limit world_two_messages).1) /\
      (LocalDatabase.getMessageCount env_ok other w').1 =
      (LocalDatabase.getMessageCount env_ok other world_two_messages).1.
Proof.
  exact (conj env_ok_healthy (conj world_two_messages_wf
           (deleteMessages_removes_only_that_user env_ok env_ok "u" world_two_messages
              env_ok_healthy env_ok_healthy world_two_messages_wf))).
Defined.

Lemma deleteSettings_removes_only_that_user_witness :
  settings_wf (db_settings world_A_B) /\
  exists w',
    LocalDatabase.deleteSettings env_ok None "u" world_A_B = (Ok tt, w') /\
    (LocalDatabase.loadSettings env_ok "u" world_A_B).1 <> Ok None /\
    (LocalDatabase.loadSettings env_ok "u" w').1 = Ok None.
Proof.
  split; [exact world_A_B_wf|].
  pose proof (deleteSettings_removes_only_that_user env_ok None "u" world_A_B world_A_B_wf)
    as Hdel.
  destruct (LocalDatabase.deleteSettings env_ok None "u" world_A_B) as [r w'].
  destruct Hdel as (Hr & Hok & _).
  rewrite (Hok env_ok_healthy eq_refl) in Hr |- *.
  exists w'. split; [reflexivity|]. split; [by vm_compute|].
  apply (Hr env_ok env_ok_healthy).
Defined.

Lemma getUserId_stable_witness :
  let w1 := (getUserId env_ok world_empty).2 in
  getUserId env_ok world_empty = (Ok "id-0", w1) /\ "id-0" <> "" /\
  getUserId env_storage_full w1 = (Ok "id-0", w1).
Proof.
  assert (getUserId env_ok world_empty = (Ok "id-0", (getUserId env_ok world_empty).2))
    as Hid by (vm_compute; reflexivity).
  assert ("id-0" <> "") as Hne by done.
  exact (conj Hid (conj Hne (getUserId_stable env_ok env_storage_full world_empty "id-0"
                               _ Hid Hne))).
Defined.

Lemma loadMessages_any_limit_witness :
  idb_healthy env_ok /\
  exists all result,
    (LocalDatabase.loadMessages env_ok "u" None world_two_messages).1 = Ok all /\
    (LocalDatabase.loadMessages env_ok "u" (Some (-3)) world_two_messages).1 = Ok result /\
    result `prefix_of` all /\
    (all <> [] -> result <> []) /\
    forall n, Some (-3) = Some n -> n < 0 -> result = take 1 all.
Proof.
  exact (conj env_ok_healthy
           (loadMessages_any_limit env_ok "u" (Some (-3)) world_two_messages env_ok_healthy)).
Defined.

Lemma saveSettings_other_users_witness :
  settings_wf (db_settings world_A_B) /\
  (index_get "v" (db_settings world_A_B) = None ->
   db_settings world_A_B !! randomUUID env_ok (uuid_count world_A_B) = None) /\
  forall E' other, idb_healthy E' -> other <> "v" ->
    (LocalDatabase.loadSettings E' other
       (LocalDatabase.saveSettings env_ok "v" input_A world_A_B).2).1 =
    (LocalDatabase.loadSettings E' other world_A_B).1.
Proof.
  assert (index_get "v" (db_settings world_A_B) = None ->
          db_settings world_A_B !! randomUUID env_ok (uuid_count world_A_B) = None)
    as Hfresh by (intros _; vm_compute; reflexivity).
  exact (conj world_A_B_wf (conj Hfresh
           (saveSettings_other_users env_ok "v" input_A world_A_B
              world_A_B_wf Hfresh))).
Defined.

Lemma user_id_persists_witness :
  let calls := [(env_endpoint response_401, CallSendMessage "hi" None);
                (env_storage_full, CallUpdateSettings settings_B);
                (env_open_fails, CallClearMessages None);
                (env_ok, CallHandleClearData false)] in
  user_id_is "u" (page_world page_chatting) /\
  Forall (fun call : Env * Call => call.2 <> CallHandleClearData true) calls /\
  user_id_is "u" (page_world (run calls page_chatting)) /\
  forall E, getUserId E (page_world (run calls page_chatting))
            = (Ok "u", page_world (run calls page_chatting)).
Proof.
  cbv zeta.
  assert (user_id_is "u" (page_world page_chatting)) as Hid by (by split).
  assert (Forall (fun call : Env * Call => call.2 <> CallHandleClearData true)
            [(env_endpoint response_401, CallSendMessage "hi" None);
             (env_storage_full, CallUpdateSettings settings_B);
             (env_open_fails, CallClearMessages None);
             (env_ok, CallHandleClearData false)]) as Hcalls
    by (repeat constructor; discriminate).
  exact (conj Hid (conj Hcalls (user_id_persists _ page_chatting "u" Hid Hcalls))).
Defined.

Lemma world_A_B_user : user_id_is "u" world_A_B.
Proof. split; [by vm_compute|done]. Qed.

Lemma loadSettings_local_precedence_witness :
  user_id_is "u" world_A_B /\
  (useSettings.loadLocalSettings world_A_B).1 = Ok settings_A /\
  remote_select env_ok "u" = SelData None /\
  exists w',
    useSettings.loadSettings env_ok world_A_B = (Ok tt, w') /\
    ui_settings w' = settings_B.
Proof.
  assert ((useSettings.loadLocalSettings world_A_B).1 = Ok settings_A) as Hflat
    by (vm_compute; reflexivity).
  split; [exact world_A_B_user|]. split; [exact Hflat|]. split; [reflexivity|].
  destruct (loadSettings_local_precedence env_ok world_A_B "u" settings_A
              world_A_B_user Hflat (or_intror (or_intror (or_intror eq_refl))))
    as (w' & Hload & Hrow & _).
  exists w'. split; [exact Hload|].
  destruct (LocalDatabase.loadSettings env_ok "u" world_A_B).1 as [[row|]|e|] eqn:Hread;
    [|by vm_compute in Hread..].
  rewrite (Hrow row eq_refl eq_refl).
  vm_compute in Hread. by injection Hread as <-.
Defined.

Lemma updateSettings_then_loadSettings_witness :
  user_id_is "u" world_A_B /\ storage_set_error env_ok = None /\
  idb_healthy env_ok /\ settings_wf (db_settings world_A_B) /\
  remote_select env_remote_down "u" = SelError /\
  exists w1 w2,
    useSettings.updateSettings env_ok settings_A world_A_B = (Ok tt, w1) /\
    useSettings.loadSettings env_remote_down w1 = (Ok tt, w2) /\
    ui_settings w2 = settings_A.
Proof.
  exact (conj world_A_B_user (conj eq_refl (conj env_ok_healthy (conj world_A_B_wf
           (conj eq_refl
              (updateSettings_then_loadSettings env_ok env_remote_down settings_A
                 world_A_B "u" world_A_B_user eq_refl env_ok_healthy world_A_B_wf
                 (or_intror (or_intror (or_introl eq_refl))))))))).
Defined.

Lemma failed_store_write_resurfaces_old_settings_witness :
  exists old,
    user_id_is "u" world_A_B /\ storage_set_error env_open_fails = None /\
    idb_open_error env_open_fails = Some quota /\
    (LocalDatabase.loadSettings env_remote_down "u" world_A_B).1 = Ok (Some old) /\
    ls_api_key old = "B" /\
    exists w1 w2,
      useSettings.updateSettings env_open_fails settings_A world_A_B = (Ok tt, w1) /\
      ui_settings w1 = settings_A /\
      (useSettings.loadLocalSettings w1).1 = Ok settings_A /\
      useSettings.loadSettings env_remote_down w1 = (Ok tt, w2) /\
      ui_settings w2 = settings_B.
Proof.
  destruct (LocalDatabase.loadSettings env_remote_down "u" world_A_B).1
    as [[old|]|e|] eqn:Hread; [|by vm_compute in Hread..].
  exists old.
  assert (old = {| ls_id := ls_id old; ls_user_id := "u"; ls_api_key := "B";
                   ls_base_url := "https://api.x.ai"; ls_model := "grok-2";
                   ls_created_at := ls_created_at old;
                   ls_updated_at := ls_updated_at old |}) as Hold
    by (vm_compute in Hread; by injection Hread as <-).
  assert (ls_api_key old = "B") as Hkey by (by rewrite Hold).
  assert (ls_api_key old <> "") as Hne by (by rewrite Hkey).
  split; [exact world_A_B_user|]. split; [reflexivity|]. split; [reflexivity|].
  split; [reflexivity|]. split; [exact Hkey|].
  destruct (failed_store_write_resurfaces_old_settings env_open_fails env_remote_down
              settings_A world_A_B "u" old quota world_A_B_user eq_refl eq_refl eq_refl
              eq_refl Hread Hne (or_intror (or_intror (or_introl eq_refl))))
    as (w1 & w2 & Hupd & Hui1 & Hflat & Hload & Hui2).
  exists w1, w2. split; [exact Hupd|]. split; [exact Hui1|]. split; [exact Hflat|].
  split; [exact Hload|]. rewrite Hui2, Hold. reflexivity.
Defined.

Lemma updateSettings_rejects_before_saving_witness :
  (useSettings.updateSettings env_storage_full settings_B world_empty).1 = Throw quota /\
  let w' := (useSettings.updateSettings env_storage_full settings_B world_empty).2 in
  (getUserId env_storage_full world_empty).1 = Throw quota /\
  storage_set_error env_storage_full = Some quota /\
  settings_side w' = settings_side world_empty /\
  storage_user_id w' = storage_user_id world_empty /\
  events_since world_empty w' = [EvStorageSet "grok-user-id"].
Proof.
  assert ((useSettings.updateSettings env_storage_full settings_B world_empty).1
          = Throw quota) as Hrej by (vm_compute; reflexivity).
  exact (conj Hrej
           (updateSettings_rejects_before_saving env_storage_full settings_B world_empty
              quota Hrej)).
Defined.

Lemma messages_survive_reload_witness :
  let p1 := after env_ok (CallAddMessages two_messages) page_new_user in
  user_id_is "u" (page_world page_new_user) /\
  messages_of_user "u" (db_messages (page_world page_new_user)) = [] /\
  StronglySorted (fun a b => msg_timestamp a < msg_timestamp b) two_messages /\
  Forall (fun m => 0 <= msg_timestamp m <= clock env_ok (clock_count (page_world p1)))
    two_messages /\
  console_errors (page_world p1) = console_errors (page_world page_new_user) /\
  ui_messages (page_world (after env_ok CallHookLoadMessages p1)) = two_messages.
Proof.
  cbv zeta.
  assert (user_id_is "u" (page_world page_new_user)) as Hid by (by split).
  assert (messages_of_user "u" (db_messages (page_world page_new_user)) = []) as Hnone
    by reflexivity.
  assert (StronglySorted (fun a b => msg_timestamp a < msg_timestamp b) two_messages)
    as Hsorted by (repeat constructor; done).
  assert (Forall (fun m => 0 <= msg_timestamp m
                           <= clock env_ok
                                (clock_count
                                   (page_world
                                      (after env_ok (CallAddMessages two_messages)
                                         page_new_user))))
            two_messages) as Hbound
    by (repeat constructor; vm_compute; discriminate).
  assert (console_errors
            (page_world (after env_ok (CallAddMessages two_messages) page_new_user))
          = console_errors (page_world page_new_user)) as Hlog
    by (vm_compute; reflexivity).
  exact (conj Hid (conj Hnone (conj Hsorted (conj Hbound (conj Hlog
           (messages_survive_reload env_ok env_ok two_messages page_new_user "u"
              Hid env_ok_healthy env_ok_healthy Hnone Hsorted Hbound Hlog)))))).
Defined.

Lemma sendMessage_reply_witness :
  apiKey (ui_settings world_ready) <> "" /\
  ok response_200_hello = true /\
  reply_text response_200_hello = Some "hello" /\
  exists w' now,
    App.sendMessage (env_endpoint response_200_hello) "hi" None world_ready = (Ok tt, w') /\
    ui_messages w'
    = ui_messages world_ready
      ++ [user_message "hi" None 1002;
          {| msg_role := assistant; msg_content := "hello";
             msg_timestamp := now; msg_attachments := None |}] /\
    ui_error w' = None.
Proof.
  assert (apiKey (ui_settings world_ready) <> "") as Hkey by done.
  split; [exact Hkey|]. split; [reflexivity|]. split; [reflexivity|].
  destruct (sendMessage_reply (env_endpoint response_200_hello) world_ready "hi" None
              response_200_hello _ _ Hkey (fun _ => eq_refl) eq_refl eq_refl)
    as (w' & now & Hsend & Hmem & Herr & _).
  exists w', now. split; [exact Hsend|]. split; [exact Hmem|exact Herr].
Defined.

Lemma sendMessage_no_reply_witness :
  apiKey (ui_settings world_ready) <> "" /\
  (forall req, fetch env_ok req = FetchRejects (JsError "TypeError" "Failed to fetch")) /\
  exists w',
    App.sendMessage env_ok "hi" None world_ready = (Ok tt, w') /\
    ui_messages w' = ui_messages world_ready ++ [user_message "hi" None 1002] /\
    ui_error w' = Some "Failed to fetch" /\
    ui_isLoading w' = false.
Proof.
  assert (apiKey (ui_settings world_ready) <> "") as Hkey by done.
  assert (forall req, fetch env_ok req = FetchRejects (JsError "TypeError" "Failed to fetch"))
    as Hfetch by (intros req; reflexivity).
  split; [exact Hkey|]. split; [exact Hfetch|].
  destruct (sendMessage_no_reply env_ok world_ready "hi" None
              (JsError "TypeError" "Failed to fetch") Hkey (or_introl Hfetch))
    as (w' & Hsend & Hmem & Herr & Hload & _).
  exists w'. split; [exact Hsend|]. split; [exact Hmem|]. split; [exact Herr|exact Hload].
Defined.

Lemma loadMessages_equal_timestamps_witness :
  let m1 := text_message user "first" 10 in
  let m2 := text_message assistant "second" 10 in
  let w' := (save_messages env_descending_ids "u" [m1; m2] world_empty).2 in
  idb_healthy env_descending_ids /\
  str_lt (randomUUID env_descending_ids 1) (randomUUID env_descending_ids 0) /\
  save_messages env_descending_ids "u" [m1; m2] world_empty = (Ok tt, w') /\
  exists r1 r2,
    (LocalDatabase.loadMessages env_ok "u" None w').1 = Ok [r2; r1] /\
    message_of r1 = m1 /\ message_of r2 = m2.
Proof.
  cbv zeta.
  assert (idb_healthy env_descending_ids) as HE by (by repeat split).
  assert (str_lt (randomUUID env_descending_ids 1) (randomUUID env_descending_ids 0))
    as Hlt by (split; [by vm_compute|by vm_compute]).
  assert (save_messages env_descending_ids "u"
            [text_message user "first" 10; text_message assistant "second" 10] world_empty
          = (Ok tt, (save_messages env_descending_ids "u"
                       [text_message user "first" 10; text_message assistant "second" 10]
                       world_empty).2)) as Hsave
    by (vm_compute; reflexivity).
  split; [exact HE|]. split; [exact Hlt|]. split; [exact Hsave|].
  apply (loadMessages_equal_timestamps env_descending_ids env_ok "u"
           (text_message user "first" 10) (text_message assistant "second" 10)
           world_empty _ HE env_ok_healthy eq_refl eq_refl); [|exact Hlt|exact Hsave].
  by vm_compute.
Defined.


Lemma text_replies_hello : text_replies (env_endpoint response_200_hello).
Proof. intros req response shown [= <-]. discriminate. Qed.



Lemma world_chatting_settings_wf : settings_wf (db_settings world_chatting).
Proof.
  assert (db_settings world_chatting = ∅) as -> by (vm_compute; reflexivity).
  exact settings_wf_empty.
Qed.

Lemma updateSettings_protocol_witness :
  getUserId env_ok world_chatting = (Ok "u", world_chatting) /\
  exists w' row,
    useSettings.updateSettings env_ok settings_B world_chatting = (Ok tt, w') /\
    ui_settings w' = settings_B /\
    events_since world_chatting w'
    = [EvStorageSet "grok-chat-settings"; EvDbSaveSettings "u" input_B;
       EvSetSettings settings_B;
       EvRemoteUpsert "u" {| rr_api_key := "B"; rr_base_url := "https://api.x.ai";
                             rr_model := "grok-2" |}] /\
    storage_settings w'
    = Some (FlatObject (Some "B") (Some "https://api.x.ai") (Some "grok-2")) /\
    settings_of_user "u" (db_settings w') = [row] /\
    saved_fields row = input_B.
Proof.
  assert (getUserId env_ok world_chatting = (Ok "u", world_chatting)) as Hid
    by (vm_compute; reflexivity).
  split; [exact Hid|].
  destruct (updateSettings_protocol env_ok settings_B world_chatting "u"
              world_chatting Hid) as (w' & Hupd & Hui & Htrace & Hflat & Hstore & _).
  destruct (Hstore env_ok_healthy world_chatting_settings_wf) as (row & Hone & Hfields).
  exists w', row. split; [exact Hupd|]. split; [exact Hui|].
  split; [exact (events_since_app _ _ _ Htrace)|].
  split; [exact (Hflat eq_refl)|]. split; [exact Hone|exact Hfields].
Defined.
